(** * CasesStatusAPI: the CAPTCHA-gated case-status lookup

    A shallow embedding of the four variants of the service
    ([src/server.js], [src/server1.js] and the two unnamed variants, called
    [Part000] and [Part001] below) and the properties of their retry
    orchestrator, request composer, validators and parsers.

    Conventions of the embedding.
    - A JavaScript string is a [string], one [ascii] per UTF-16 code unit:
      the embedding covers text whose code units are below 256.
    - A thrown JavaScript [Error] is a [js_error] (its [name] and [message]);
      a function that may throw returns an [outcome].
    - Asynchronous code is sequential here: every [await] is a call.
    - The collaborators of the service (the network, the solving oracle, the
      clock, [Math.random], the HTML parser, the WHATWG URL parser) are
      inputs: a [world] answers every request, and the library functions are
      section variables.
    - A JavaScript number that the service computes with is the rational a
      double is, and every operation rounds as binary64 does ([Float]); the
      numbers of a parsed body are the integers. *)

From Stdlib Require Import ZArith QArith Qround Qpower Qabs Lqa String Ascii List Lia
  DecimalString.
From stdpp Require Import base gmap strings list.

Set Warnings "-register-all".

Open Scope Z_scope.
Open Scope string_scope.
Open Scope list_scope.

(** ** Strings *)

Module Str.

Definition code (c : ascii) : N := N_of_ascii c.

(** [\d] of a JavaScript regular expression: the ASCII digits. *)
Definition is_digit (c : ascii) : bool :=
  ((48 <=? code c) && (code c <=? 57))%N.

(** [\s] and the characters [String.prototype.trim] strips, among the code
    units below 256: TAB, LF, VT, FF, CR, SPACE and NBSP. *)
Definition is_space (c : ascii) : bool :=
  (((9 <=? code c) && (code c <=? 13)) || (code c =? 32) || (code c =? 160))%N.

Definition is_upper (c : ascii) : bool :=
  ((65 <=? code c) && (code c <=? 90))%N.

(** ASCII lower-casing, enough to compare with an ASCII pattern. *)
Definition lower (c : ascii) : ascii :=
  if is_upper c then ascii_of_N (code c + 32) else c.

Definition ascii_eqb_ci (a b : ascii) : bool := Ascii.eqb (lower a) (lower b).

Fixpoint all (p : ascii -> bool) (s : string) : bool :=
  match s with
  | EmptyString => true
  | String c s' => p c && all p s'
  end.

Fixpoint any (p : ascii -> bool) (s : string) : bool :=
  match s with
  | EmptyString => false
  | String c s' => p c || any p s'
  end.

Definition is_empty (s : string) : bool :=
  match s with EmptyString => true | _ => false end.

(** The longest prefix of characters satisfying [p], and what follows it. *)
Fixpoint take_while (p : ascii -> bool) (s : string) : string :=
  match s with
  | EmptyString => EmptyString
  | String c s' => if p c then String c (take_while p s') else EmptyString
  end.

Fixpoint drop_while (p : ascii -> bool) (s : string) : string :=
  match s with
  | EmptyString => EmptyString
  | String c s' => if p c then drop_while p s' else s
  end.

Fixpoint trim_end (s : string) : string :=
  match s with
  | EmptyString => EmptyString
  | String c s' =>
      let r := trim_end s' in
      if is_space c && is_empty r then EmptyString else String c r
  end.

(** [s.trim()] *)
Definition trim (s : string) : string := trim_end (drop_while is_space s).

(** [s.startsWith(p)], and its case-insensitive form. *)
Fixpoint starts_with_by (eq : ascii -> ascii -> bool) (p s : string) : bool :=
  match p, s with
  | EmptyString, _ => true
  | String a p', String b s' => eq a b && starts_with_by eq p' s'
  | String _ _, EmptyString => false
  end.

Definition starts_with : string -> string -> bool := starts_with_by Ascii.eqb.

Fixpoint drop (n : nat) (s : string) : string :=
  match n, s with
  | O, _ => s
  | S n', String _ s' => drop n' s'
  | S _, EmptyString => EmptyString
  end.

Fixpoint take (n : nat) (s : string) : string :=
  match n, s with
  | O, _ => EmptyString
  | S n', String c s' => String c (take n' s')
  | S _, EmptyString => EmptyString
  end.

(** [s.includes(p)] *)
Fixpoint includes (p s : string) : bool :=
  starts_with p s ||
  match s with
  | EmptyString => false
  | String _ s' => includes p s'
  end.

(** [s.replace(p, '')] with a string pattern: the leftmost occurrence of
    [p] is removed, and [s] is returned as it is when there is none. *)
Fixpoint remove_first (p s : string) : string :=
  if starts_with p s then drop (String.length p) s
  else match s with
       | EmptyString => EmptyString
       | String c s' => String c (remove_first p s')
       end.

(** [s.split(sep)] for a one-character separator. *)
Fixpoint split (sep : ascii) (s : string) : list string :=
  match s with
  | EmptyString => [EmptyString]
  | String c s' =>
      if Ascii.eqb c sep then EmptyString :: split sep s'
      else match split sep s' with
           | [] => [String c EmptyString]
           | p :: ps => String c p :: ps
           end
  end.

(** [s.replace(/\s+/g, ' ')]: every maximal run of white space becomes one
    space. *)
Fixpoint collapse_spaces (s : string) : string :=
  match s with
  | EmptyString => EmptyString
  | String c s' =>
      if is_space c then
        match s' with
        | String d _ => if is_space d then collapse_spaces s'
                        else String " " (collapse_spaces s')
        | EmptyString => String " " EmptyString
        end
      else String c (collapse_spaces s')
  end.

(** [s.replace(/\s\s+/g, ' ')]: every maximal run of two or more white
    space characters becomes one space; a single one is kept as it is. *)
Fixpoint collapse_runs_from (in_run : bool) (s : string) : string :=
  match s with
  | EmptyString => EmptyString
  | String c s' =>
      if is_space c then
        if in_run then collapse_runs_from true s'
        else match s' with
             | String d _ =>
                 if is_space d then String " " (collapse_runs_from true s')
                 else String c (collapse_runs_from false s')
             | EmptyString => String c EmptyString
             end
      else String c (collapse_runs_from false s')
  end.

Definition collapse_runs (s : string) : string := collapse_runs_from false s.

(** [n.toString()] of an integer. *)
Definition of_Z (n : Z) : string := NilZero.string_of_int (Z.to_int n).

Fixpoint concat_map {A} (f : A -> string) (l : list A) : string :=
  match l with
  | [] => EmptyString
  | x :: l' => f x +:+ concat_map f l'
  end.

Fixpoint join (sep : string) (l : list string) : string :=
  match l with
  | [] => EmptyString
  | [x] => x
  | x :: l' => x +:+ sep +:+ join sep l'
  end.

End Str.

(** ** Regular expressions of the sources *)

Module Regex.
Import Str.

(** [s.match(/-?\d+/)]: the text of the leftmost match, [None] for [null].
    At a position the expression matches a digit run, or a minus sign
    followed by one; the run is taken whole. *)
Fixpoint match_signed_int (s : string) : option string :=
  match s with
  | EmptyString => None
  | String c s' =>
      if is_digit c then Some (String c (take_while is_digit s'))
      else if Ascii.eqb c "-" && negb (is_empty (take_while is_digit s'))
      then Some (String c (take_while is_digit s'))
      else match_signed_int s'
  end.

(** [/^\d+$/.test(s)] *)
Definition test_digits (s : string) : bool := negb (is_empty s) && all is_digit s.

(** [/^\d{4}$/.test(s)] *)
Definition test_four_digits (s : string) : bool :=
  (String.length s =? 4)%nat && all is_digit s.

(** [\d{n}] at the head of [s]: the digits and the rest. *)
Fixpoint digits_exactly (n : nat) (s : string) : option (string * string) :=
  match n with
  | O => Some (EmptyString, s)
  | S n' =>
      match s with
      | String c s' =>
          if is_digit c then
            match digits_exactly n' s' with
            | Some (d, r) => Some (String c d, r)
            | None => None
            end
          else None
      | EmptyString => None
      end
  end.

Definition expect (c : ascii) (s : string) : option string :=
  match s with
  | String d s' => if Ascii.eqb c d then Some s' else None
  | EmptyString => None
  end.

(** [[\d]{2}-[\d]{2}-[\d]{4}] at the head of [s]. *)
Definition date_at (s : string) : option (string * string) :=
  match digits_exactly 2 s with
  | Some (d, r1) =>
      match expect "-" r1 with
      | Some r2 =>
          match digits_exactly 2 r2 with
          | Some (m, r3) =>
              match expect "-" r3 with
              | Some r4 =>
                  match digits_exactly 4 r4 with
                  | Some (y, r5) => Some (d +:+ "-" +:+ m +:+ "-" +:+ y, r5)
                  | None => None
                  end
              | None => None
              end
          | None => None
          end
      | None => None
      end
  | None => None
  end.

(** [/Registered on\s*([\d]{2}-[\d]{2}-[\d]{4})/i] at the head of [s]:
    the matched text and the captured date. White space is never a digit,
    so the greedy [\s*] needs no backtracking. *)
Definition registered_on_at (s : string) : option (string * string) :=
  let lit := "Registered on" in
  if starts_with_by ascii_eqb_ci lit s then
    let after := drop (String.length lit) s in
    let gap := take_while is_space after in
    match date_at (drop_while is_space after) with
    | Some (date, _) =>
        Some (take (String.length lit) s +:+ gap +:+ date, date)
    | None => None
    end
  else None.

(** [s.match(/Registered on\s*([\d]{2}-[\d]{2}-[\d]{4})/i)]: the pair
    [(m[0], m[1])] of the leftmost match. *)
Fixpoint match_registered_on (s : string) : option (string * string) :=
  match registered_on_at s with
  | Some r => Some r
  | None =>
      match s with
      | EmptyString => None
      | String _ s' => match_registered_on s'
      end
  end.

End Regex.


(** ** [URLSearchParams]

    The list of name and value pairs, in the order of the [append] calls,
    and its [toString()]: the application/x-www-form-urlencoded serializer
    of the URL standard, over the UTF-8 bytes of each string. *)

Module URLSearchParams.
Import Str.

Definition t := list (string * string).

Definition empty : t := [].

Definition append (name value : string) (params : t) : t :=
  params ++ [(name, value)].

(** The UTF-8 bytes of a code unit below 256. *)
Definition utf8 (c : ascii) : list N :=
  if (code c <? 128)%N then [code c]
  else [(192 + code c / 64)%N; (128 + code c mod 64)%N].

Definition hex_digit (n : N) : ascii :=
  if (n <? 10)%N then ascii_of_N (48 + n) else ascii_of_N (55 + n).

Definition percent (b : N) : string :=
  String "%" (String (hex_digit (b / 16)) (String (hex_digit (b mod 16)) EmptyString)).

(** The bytes the serializer leaves as they are: ASCII letters and digits
    and [*], [-], [.], [_]. *)
Definition is_plain (b : N) : bool :=
  (((48 <=? b) && (b <=? 57)) || ((65 <=? b) && (b <=? 90))
   || ((97 <=? b) && (b <=? 122))
   || (b =? 42) || (b =? 45) || (b =? 46) || (b =? 95))%N.

Definition encode_byte (b : N) : string :=
  if (b =? 32)%N then "+"
  else if is_plain b then String (ascii_of_N b) EmptyString
  else percent b.

Definition encode_char (c : ascii) : string := concat_map encode_byte (utf8 c).

Fixpoint encode (s : string) : string :=
  match s with
  | EmptyString => EmptyString
  | String c s' => encode_char c +:+ encode s'
  end.

Definition encode_pair (p : string * string) : string :=
  encode (fst p) +:+ "=" +:+ encode (snd p).

Definition toString (params : t) : string := join "&" (map encode_pair params).

(** No character of an encoded string separates fields or names. *)
Definition plain_char (c : ascii) : bool :=
  negb (Ascii.eqb c "&") && negb (Ascii.eqb c "=").

(** Reading a query string back, as the receiving server does: split at
    every [&], and each piece at its first [=]. The names and values are
    left in their encoded form. *)
Fixpoint cut_at (sep : ascii) (s : string) : string * string :=
  match s with
  | EmptyString => (EmptyString, EmptyString)
  | String c s' =>
      if Ascii.eqb c sep then (EmptyString, s')
      else let '(a, b) := cut_at sep s' in (String c a, b)
  end.

Definition fields (query : string) : list (string * string) :=
  match query with
  | EmptyString => []
  | _ => map (cut_at "=") (split "&" query)
  end.

(** The inverse of [encode]: [+] is a space, [%XX] a byte, and the UTF-8
    sequences of two bytes are the code units from 128 to 255. *)
Definition hex_value (c : ascii) : option N :=
  let n := code c in
  if ((48 <=? n) && (n <=? 57))%N then Some (n - 48)%N
  else if ((65 <=? n) && (n <=? 70))%N then Some (n - 55)%N
  else if ((97 <=? n) && (n <=? 102))%N then Some (n - 87)%N
  else None.

Fixpoint decode_bytes (s : string) : list N :=
  match s with
  | EmptyString => []
  | String c s' =>
      if Ascii.eqb c "+" then 32%N :: decode_bytes s'
      else if Ascii.eqb c "%" then
        match s' with
        | String h (String l s'') =>
            match hex_value h, hex_value l with
            | Some a, Some b => (16 * a + b)%N :: decode_bytes s''
            | _, _ => code c :: decode_bytes s'
            end
        | _ => code c :: decode_bytes s'
        end
      else code c :: decode_bytes s'
  end.

Fixpoint utf8_decode (bs : list N) : string :=
  match bs with
  | [] => EmptyString
  | b :: bs' =>
      if (b <? 128)%N then String (ascii_of_N b) (utf8_decode bs')
      else match bs' with
           | b2 :: bs'' =>
               String (ascii_of_N ((b - 192) * 64 + (b2 - 128))) (utf8_decode bs'')
           | [] => EmptyString
           end
  end.

Definition decode (s : string) : string := utf8_decode (decode_bytes s).

Definition decode_pair (p : string * string) : string * string :=
  (decode (fst p), decode (snd p)).

(** The pairs a query string carries. *)
Definition parse (query : string) : t := map decode_pair (fields query).

End URLSearchParams.


(** ** Documents and selections

    [cheerio.load] turns markup into a tree; the sources query it with CSS
    selectors. The tree is an input of the embedding (parsing is the
    library's), and the selectors the sources use are given their meaning
    here: compound selectors joined by the descendant combinator. *)

Module Dom.
Import Str.

Inductive node :=
| Text (data : string)
| Comment (data : string)
| Elem (tag : string) (attrs : list (string * string)) (children : list node).

(** An element as a selection sees it: with its position among the element
    children of its parent, counted from 1 as [:nth-child] does. *)
Record element := mkElement {
  el_tag : string;
  el_attrs : list (string * string);
  el_index : nat;
  el_children : list node
}.

(** A selected element together with its ancestors, the nearest first. *)
Definition item : Type := list element * element.

Definition is_elem (n : node) : bool :=
  match n with Elem _ _ _ => true | _ => false end.

(** The element [n] (the [idx]-th element child of its parent) and all its
    descendants, in document order. *)
Fixpoint descend (anc : list element) (idx : nat) (n : node) : list item :=
  match n with
  | Elem t a cs =>
      let e := mkElement t a idx cs in
      (anc, e) ::
      (fix go (ns : list node) (i : nat) {struct ns} : list item :=
         match ns with
         | [] => []
         | c :: ns' =>
             descend (e :: anc) i c ++ go ns' (if is_elem c then S i else i)
         end) cs 1%nat
  | _ => []
  end.

Fixpoint walk (anc : list element) (ns : list node) (i : nat) : list item :=
  match ns with
  | [] => []
  | c :: ns' => descend anc i c ++ walk anc ns' (if is_elem c then S i else i)
  end.

(** The text of a node: the data of its text descendants, in order. *)
Fixpoint text_of (n : node) : string :=
  match n with
  | Text d => d
  | Comment _ => EmptyString
  | Elem _ _ cs =>
      (fix go (ns : list node) : string :=
         match ns with
         | [] => EmptyString
         | c :: ns' => text_of c +:+ go ns'
         end) cs
  end.

Definition document := list node.

(** [el.attribs[name]] *)
Fixpoint attr_lookup (name : string) (attrs : list (string * string)) : option string :=
  match attrs with
  | [] => None
  | (k, v) :: attrs' => if String.eqb k name then Some v else attr_lookup name attrs'
  end.

(** Compound selectors. *)
Definition compound := element -> bool.

Definition tag_is (t : string) : compound := fun e => String.eqb (el_tag e) t.

(** [[name="value"]] *)
Definition attr_is (name value : string) : compound := fun e =>
  match attr_lookup name (el_attrs e) with
  | Some v => String.eqb v value
  | None => false
  end.

Fixpoint lower_string (s : string) : string :=
  match s with
  | EmptyString => EmptyString
  | String c s' => String (lower c) (lower_string s')
  end.

(** [[type="value"]]: in an HTML document the selector engine compares the
    values of the [type] attribute without regard to case. *)
Definition attr_is_ci (name value : string) : compound := fun e =>
  match attr_lookup name (el_attrs e) with
  | Some v => String.eqb (lower_string v) (lower_string value)
  | None => false
  end.

(** [[name^="prefix"]] *)
Definition attr_starts (name prefix : string) : compound := fun e =>
  match attr_lookup name (el_attrs e) with
  | Some v => negb (is_empty prefix) && starts_with prefix v
  | None => false
  end.

(** [#id] *)
Definition has_id (id : string) : compound := attr_is "id" id.

(** The words of a white-space separated attribute value. *)
Fixpoint words_from (cur : string) (s : string) : list string :=
  match s with
  | EmptyString => if is_empty cur then [] else [cur]
  | String c s' =>
      if is_space c then
        (if is_empty cur then [] else [cur]) ++ words_from EmptyString s'
      else words_from (cur +:+ String c EmptyString) s'
  end.

Definition words (s : string) : list string := words_from EmptyString s.

(** [.name] *)
Definition has_class (name : string) : compound := fun e =>
  match attr_lookup "class" (el_attrs e) with
  | Some v => existsb (String.eqb name) (words v)
  | None => false
  end.

(** [:nth-child(k)] *)
Definition nth_child (k : nat) : compound := fun e => Nat.eqb (el_index e) k.

Definition both (p q : compound) : compound := fun e => p e && q e.

(** A selector: compound selectors joined by descendant combinators, the
    subject last. *)
Definition selector := list compound.

(** The ancestors of an element satisfy the compounds [cs] (innermost
    first): each compound holds of an ancestor further out than the one
    before. Taking the nearest ancestor each time loses no match. *)
Fixpoint ancestors_match (cs : list compound) (anc : list element) : bool :=
  match anc with
  | [] => match cs with [] => true | _ => false end
  | a :: anc' =>
      match cs with
      | [] => true
      | c :: cs' =>
          if c a then ancestors_match cs' anc' else ancestors_match cs anc'
      end
  end.

Definition matches (sel : selector) (it : item) : bool :=
  match rev sel with
  | [] => false
  | subject :: outer => subject (snd it) && ancestors_match outer (fst it)
  end.

(** [$(selector)] on a loaded document: the matching elements, in document
    order. *)
Definition select (doc : document) (sel : selector) : list item :=
  filter (fun it => matches sel it) (walk [] doc 1%nat).

(** [$(el).find(selector)]: the matching descendants of [el]. The selector
    is relative to [el]: the engine reads it as [:scope selector], so the
    compounds before the subject hold of elements inside [el]. *)
Definition find (it : item) (sel : selector) : list item :=
  filter (fun d => matches sel d) (walk [] (el_children (snd it)) 1%nat).

(** [selection.find(selector)] on a selection of several elements. *)
Definition find_all (its : list item) (sel : selector) : list item :=
  flat_map (fun it => find it sel) its.

Definition node_of (it : item) : node :=
  Elem (el_tag (snd it)) (el_attrs (snd it)) (el_children (snd it)).

(** [selection.text()]: the texts of the selected elements, one after the
    other. *)
Definition text (its : list item) : string := concat_map (fun it => text_of (node_of it)) its.

(** [attr] on one element. An [input] of type radio or checkbox without a
    [value] attribute reads as ["on"]. (An [option] reads its text as its
    value; the sources read attributes of [input], [img] and [a] only.) *)
Definition attr_of (e : element) (name : string) : option string :=
  match attr_lookup name (el_attrs e) with
  | Some v => Some v
  | None =>
      if String.eqb (el_tag e) "input" && String.eqb name "value"
         && (attr_is "type" "radio" e || attr_is "type" "checkbox" e)
      then Some "on"
      else None
  end.

(** [selection.attr(name)] and [selection.val()] of an [input]: the
    attribute of the first selected element, [None] for [undefined]. *)
Definition attr (its : list item) (name : string) : option string :=
  match its with
  | [] => None
  | it :: _ => attr_of (snd it) name
  end.

(** [selection.first()] *)
Definition first (its : list item) : list item :=
  match its with
  | [] => []
  | it :: _ => [it]
  end.

End Dom.


(** ** Numbers

    The delays and the elapsed time are computed in binary64. A finite
    double is the rational it stands for; [round] gives the double nearest
    to a rational, the one with the even last digit of two (53 digits from
    the leading one on, or down to [2^-1074] below [2^-1022]). *)

Module Float.

(** [floor(log2 x)] of a positive [x] *)
Definition ilog2 (x : Q) : Z :=
  let e := Z.log2 (Qnum x) - Z.log2 (Zpos (Qden x)) in
  if Qle_bool (2 ^ e) x then e else e - 1.

(** The integer nearest to [q]; of two, the even one. *)
Definition nearest_even (q : Q) : Z :=
  let f := Qfloor q in
  match (q - inject_Z f ?= 1 # 2)%Q with
  | Lt => f
  | Gt => f + 1
  | Eq => if Z.even f then f else f + 1
  end.

(** The exponent of the last digit of the double nearest to a positive
    [x]. *)
Definition last_place (x : Q) : Z := Z.max (ilog2 x) (-1022) - 52.

Definition round_pos (x : Q) : Q :=
  (inject_Z (nearest_even (x / 2 ^ last_place x)) * 2 ^ last_place x)%Q.

(** The double nearest to [x], were the exponent of a double unbounded
    above. *)
Definition round (x : Q) : Q :=
  Qred match (x ?= 0)%Q with
       | Eq => 0
       | Gt => round_pos x
       | Lt => - round_pos (- x)
       end.

(** A number that is not negative: a finite double or [Infinity]. (The
    delays are sums and products of such numbers.) *)
Inductive number :=
| Finite (q : Q)
| Infinity.

(** The double of a rational that is not negative: from [2^1024] on, the
    rounded value is [Infinity]. *)
Definition of_Q (x : Q) : number :=
  if Qle_bool (2 ^ 1024) (round x) then Infinity else Finite (round x).

(** [a + b] on numbers that are not negative, and [a * b] on numbers above
    zero. *)
Definition add (a b : number) : number :=
  match a, b with
  | Finite x, Finite y => of_Q (x + y)
  | _, _ => Infinity
  end.

Definition mul (a b : number) : number :=
  match a, b with
  | Finite x, Finite y => of_Q (x * y)
  | _, _ => Infinity
  end.

(** [Math.pow(2, n)] for a natural number [n] *)
Definition pow2 (n : nat) : number :=
  if (n <? 1024)%nat then Finite (inject_Z (2 ^ Z.of_nat n)) else Infinity.

(** [a < b] *)
Definition less (a b : number) : Prop :=
  match a, b with
  | Finite x, Finite y => (x < y)%Q
  | Finite _, Infinity => True
  | Infinity, _ => False
  end.

(** [x.toFixed(2)] of a finite double, as the number its digits spell: the
    multiple of a hundredth nearest to [x], the one further from zero of
    two. From [10^21] on, [toFixed] writes the number itself. *)
Definition toFixed2 (x : Q) : Q :=
  if Qle_bool (10 ^ 21) (Qabs x) then x
  else
    Qred match (x ?= 0)%Q with
         | Lt => - (inject_Z (Qfloor (- x * 100 + (1 # 2))) / 100)
         | _ => inject_Z (Qfloor (x * 100 + (1 # 2))) / 100
         end.

End Float.

(** ** Timers

    [setTimeout(callback, after)] of Node. A delay that is below 1 or above
    [2^31 - 1] milliseconds, or no number, is replaced by 1; the timer is
    set for the whole milliseconds of the delay. *)

Module Timers.
Import Float.

Definition TIMEOUT_MAX : Z := 2 ^ 31 - 1.

(** The milliseconds after which the timer fires. *)
Definition setTimeout (after : number) : Z :=
  match after with
  | Finite ms =>
      if Qle_bool 1 ms && Qle_bool ms (inject_Z TIMEOUT_MAX) then Qfloor ms else 1
  | Infinity => 1
  end.

End Timers.


(** ** JavaScript values, errors and effects *)

Module Js.
Import Str.

Record js_error := mkError { err_name : string; err_message : string }.

(** [new Error(message)] *)
Definition Error (message : string) : js_error := mkError "Error" message.

(** The error of reading a property of [null], or of writing an object
    that has no text form. *)
Definition TypeError (message : string) : js_error := mkError "TypeError" message.

Inductive outcome (A : Type) :=
| Return (a : A)
| Throw (e : js_error).
Arguments Return {A} a.
Arguments Throw {A} e.

(** What [JSON.parse] produces. Numbers are the integers. *)
Inductive json :=
| JNull
| JBool (b : bool)
| JNum (n : Z)
| JStr (s : string)
| JArr (items : list json)
| JObj (fields : list (string * json)).

(** A JavaScript value read from a parsed body: [None] is [undefined]. *)
Definition value := option json.

(** [if (v)], [!v], [v && ...] *)
Definition truthy (v : value) : bool :=
  match v with
  | None => false
  | Some JNull => false
  | Some (JBool b) => b
  | Some (JNum n) => negb (Z.eqb n 0)
  | Some (JStr s) => negb (is_empty s)
  | Some (JArr _) => true
  | Some (JObj _) => true
  end.

Fixpoint field (name : string) (fields : list (string * json)) : value :=
  match fields with
  | [] => None
  | (k, v) :: fields' => if String.eqb k name then Some v else field name fields'
  end.

(** [v.name] where [v] is known not to be [null] or [undefined]: the
    property of an object, [undefined] on the other values. None of the
    names the sources read is a property of arrays, strings, numbers or
    booleans. *)
Definition prop (v : value) (name : string) : value :=
  match v with
  | Some (JObj fields) => field name fields
  | _ => None
  end.

(** [v.name] in general: reading a property of [null] or [undefined]
    throws. *)
Definition read_prop (v : value) (name : string) : outcome value :=
  match v with
  | None =>
      Throw (TypeError ("Cannot read properties of undefined (reading '"
                        +:+ name +:+ "')"))
  | Some JNull =>
      Throw (TypeError ("Cannot read properties of null (reading '"
                        +:+ name +:+ "')"))
  | _ => Return (prop v name)
  end.

(** [typeof v === 'string'] *)
Definition is_string (v : value) : bool :=
  match v with Some (JStr _) => true | _ => false end.

(** The error of writing a value that has no text form. *)
Definition unprintable : js_error :=
  TypeError "Cannot convert object to primitive value".

(** [ToString(v)] of a parsed value, as a template literal and [join] apply
    it. An object is written by its [toString]: that of [Object.prototype],
    unless the object has a property of that name. A parsed value is no
    function, so the conversion then turns to [valueOf], which gives no
    primitive value either (the object itself, or again no function), and
    throws. An array is written by [join], which writes [null] as the empty
    text. A number, which is an integer here, is written in decimal
    digits. *)
Fixpoint ToString (v : json) : outcome string :=
  match v with
  | JNull => Return "null"
  | JBool b => Return (if b then "true" else "false")
  | JNum n => Return (of_Z n)
  | JStr s => Return s
  | JArr items =>
      let element x :=
        match x with
        | JNull => Return EmptyString
        | _ => ToString x
        end in
      (fix join_from (first : bool) (l : list json) : outcome string :=
         match l with
         | [] => Return EmptyString
         | x :: l' =>
             match element x with
             | Return text =>
                 match join_from false l' with
                 | Return rest =>
                     Return ((if first then EmptyString else ",") +:+ text +:+ rest)
                 | Throw e => Throw e
                 end
             | Throw e => Throw e
             end
         end) true items
  | JObj fields =>
      match field "toString" fields with
      | Some _ => Throw unprintable
      | None => Return "[object Object]"
      end
  end.

(** A parsed value that has no text form: an object with a property named
    [toString], or an array that holds such a value. *)
Fixpoint no_text (v : json) : bool :=
  match v with
  | JObj fields =>
      match field "toString" fields with
      | Some _ => true
      | None => false
      end
  | JArr items => existsb no_text items
  | _ => false
  end.

(** A value that has a text form; [undefined] has one. *)
Definition printable (v : value) : bool :=
  match v with
  | Some j => negb (no_text j)
  | None => true
  end.

(** [`${v}`]: the text a template literal puts for [v]. *)
Definition template (v : value) : outcome string :=
  match v with
  | None => Return "undefined"
  | Some j => ToString j
  end.

(** [s.substring(0, n)] *)
Definition substring0 (n : nat) (s : string) : string := take n s.

End Js.

(** Induction on a parsed value, through the arrays it holds. *)

Section JsonInduction.
Import Js.
Variable P : json -> Prop.
Hypothesis HNull : P JNull.
Hypothesis HBool : forall b, P (JBool b).
Hypothesis HNum : forall n, P (JNum n).
Hypothesis HStr : forall s, P (JStr s).
Hypothesis HArr : forall items, Forall P items -> P (JArr items).
Hypothesis HObj : forall fields, P (JObj fields).

Fixpoint json_array_ind (v : json) : P v :=
  match v with
  | JNull => HNull
  | JBool b => HBool b
  | JNum n => HNum n
  | JStr s => HStr s
  | JArr items =>
      HArr items
        ((fix each (l : list json) : Forall P l :=
            match l with
            | [] => @List.Forall_nil json P
            | x :: l' => @List.Forall_cons json P x l' (json_array_ind x) (each l')
            end) items)
  | JObj fields => HObj fields
  end.

End JsonInduction.

(** ** The in-memory cache of [server1.js]

    [node-cache] is a library; this is its store as the service uses it
    ([get], [set], [has], no clones): a value with the time it expires at,
    0 for never. An expired entry is deleted by the read that finds it. *)

Module NodeCache.
Import Js.

Definition t := gmap string (json * Z).

Definition live (now : Z) (entry : json * Z) : bool :=
  Z.eqb (snd entry) 0 || Z.leb now (snd entry).

(** [cache.get(key)] at time [now]: the value, [None] for [undefined], and
    the store afterwards. *)
Definition get (now : Z) (key : string) (c : t) : value * t :=
  match c !! key with
  | Some entry => if live now entry then (Some (fst entry), c) else (None, delete key c)
  | None => (None, c)
  end.

(** [cache.set(key, value)] at time [now], with the standard TTL in
    seconds. *)
Definition set (stdTTL : Z) (now : Z) (key : string) (v : json) (c : t) : t :=
  <[ key := (v, if Z.eqb stdTTL 0 then 0 else now + stdTTL * 1000) ]> c.

(** [cache.has(key)] *)
Definition has (now : Z) (key : string) (c : t) : bool * t :=
  match c !! key with
  | Some entry => if live now entry then (true, c) else (false, delete key c)
  | None => (false, c)
  end.

End NodeCache.

(** ** The world and the effects of a lookup *)

Module Effects.
Import Js.

(** An HTTP response: its status and what [text()] (or [arrayBuffer()]) and
    [json()] give. *)
Record response := mkResponse {
  status : Z;
  body : outcome string;
  body_json : outcome json
}.

(** [response.ok] *)
Definition ok (r : response) : bool :=
  Z.leb 200 (status r) && Z.leb (status r) 299.

(** The collaborators outside the process. Every answer may depend on the
    attempt during which the request is made and on the request. Attempt 0
    is the time outside the attempts: its reading 0 is made before the
    first attempt, its reading 1 when the reply is written, its reading 2
    when the request arrives. *)
Record world := mkWorld {
  (** [Date.now()], the [k]-th reading of attempt [n] *)
  date_now : nat -> nat -> Z;
  (** [fetch(url, ...)]: the response, or the error the promise rejects with
      (an [AbortError] when the request is aborted on its timeout) *)
  fetch : nat -> string -> outcome response;
  (** [model.generateContent([prompt, image])] followed by
      [result.response.text()]: the reply of the oracle for the image *)
  generateContent : nat -> string -> outcome string;
  (** [Math.random()] drawn after attempt [n] *)
  random : nat -> Q;
  (** [process.hrtime(startTime)] when the response is written: the whole
      seconds and the nanoseconds since [startTime] *)
  hrtime : Z * Z
}.

(** [Math.random()] returns a number in [0, 1). *)
Definition random_in_range (w : world) : Prop :=
  forall n, (0 <= random w n)%Q /\ (random w n < 1)%Q.

(** The library functions the sources call. *)
Record library := mkLibrary {
  (** [cheerio.load(html)] of a string *)
  cheerio_load : string -> Dom.document;
  (** [cheerio.load(v)] of a parsed value that is not a string *)
  cheerio_load_value : json -> outcome Dom.document;
  (** [new URL(relative, base).href], or the [TypeError] of an invalid URL *)
  url_href : string -> string -> outcome string;
  (** [new URL(absolute).searchParams.get(name)], [None] for [null] *)
  url_search_get : string -> string -> option string;
  (** [JSON.stringify(v)] *)
  JSON_stringify : json -> string
}.

(** What a lookup does to the outside, in order: the requests it sends, the
    images it hands to the oracle, the failure of an attempt as the [catch]
    of the loop logs it, and the waits. A wait is
    [await new Promise(resolve => setTimeout(resolve, seconds * 1000))]: it
    is written down with the delay the loop has computed, and
    [Common.timeout] gives what the timer makes of it. *)
Inductive event :=
| EvFetch (url : string)
| EvSolve (image : string)
| EvAttemptFailed (attempt : nat) (error : js_error)
| EvSleep (seconds : Float.number).

Record state := mkState {
  trace : list event;
  cache : gmap string (json * Z)
}.

(** Computations that read the world, act on it and may throw. *)
Definition M (A : Type) : Type := state -> state * outcome A.

Definition ret {A} (a : A) : M A := fun s => (s, Return a).

Definition throw {A} (e : js_error) : M A := fun s => (s, Throw e).

Definition bind {A B} (m : M A) (k : A -> M B) : M B := fun s =>
  match m s with
  | (s', Return a) => k a s'
  | (s', Throw e) => (s', Throw e)
  end.

(** [try { m } catch (error) { h error }] *)
Definition try_catch {A} (m : M A) (h : js_error -> M A) : M A := fun s =>
  match m s with
  | (s', Return a) => (s', Return a)
  | (s', Throw e) => h e s'
  end.

Definition lift {A} (o : outcome A) : M A := fun s => (s, o).

Definition emit (ev : event) : M unit := fun s =>
  (mkState (trace s ++ [ev]) (cache s), Return tt).

Definition get_cache : M (gmap string (json * Z)) := fun s => (s, Return (cache s)).

Definition put_cache (c : gmap string (json * Z)) : M unit := fun s =>
  (mkState (trace s) c, Return tt).

Definition initial (c : gmap string (json * Z)) : state := mkState [] c.

End Effects.

#[global] Instance M_ret : MRet Effects.M := @Effects.ret.
#[global] Instance M_bind : MBind Effects.M := fun A B k m => Effects.bind m k.

(** ** What the four source files share

    [extractToken], [solveCaptchaWithGemini], [buildFinalUrl], the input
    validation of the endpoint, [calculateTimeTaken] and the retry loop of
    [getCaseDetailsProcess] are written out in every file, with different
    messages and constants only; they are embedded once, with the
    differences as parameters. *)

Module Common.
Import Str Js Effects Float.

Definition dquote : string := String (ascii_of_nat 34) EmptyString.

Definition INITIAL_PAGE_URL : string := "https://www.sci.gov.in/case-status-diary-no/".
Definition AJAX_URL_BASE : string := "https://www.sci.gov.in/wp-admin/admin-ajax.php".
Definition CAPTCHA_IMAGE_BASE_URL : string := "https://www.sci.gov.in/".

(** A string read from the document is truthy when it is there and not
    empty. *)
Definition present (s : option string) : bool :=
  match s with
  | Some v => negb (is_empty v)
  | None => false
  end.

Record token := mkToken { name : string; value : string }.

(** [input[type="hidden"][name^="tok_"]] *)
Definition token_selector : Dom.selector :=
  [Dom.both (Dom.tag_is "input")
     (Dom.both (Dom.attr_is_ci "type" "hidden") (Dom.attr_starts "name" "tok_"))].

(** [extractToken(html)], throwing [new Error(message)]. *)
Definition extractToken (lib : library) (message : string) (html : string)
  : outcome token :=
  let tokenInput := Dom.select (cheerio_load lib html) token_selector in
  if (0 <? length tokenInput)%nat then
    let tokenName := Dom.attr (Dom.first tokenInput) "name" in
    let tokenValue := Dom.attr (Dom.first tokenInput) "value" in
    match tokenName, tokenValue with
    | Some n, Some v =>
        if present tokenName && present tokenValue
        then Return (mkToken n v)
        else Throw (Error message)
    | _, _ => Throw (Error message)
    end
  else Throw (Error message).

(** The body of the [try] of [solveCaptchaWithGemini]: the reply of the
    oracle, trimmed and matched against [/-?\d+/]. *)
Definition cleanedAnswer (text : string) : option string :=
  Regex.match_signed_int (trim text).

(** [solveCaptchaWithGemini(imageBuffer)] in attempt [n]. [unclear] is the
    message thrown when the reply holds no number, and [failed] the prefix
    the [catch] puts before the message of whatever was thrown. *)
Definition solveCaptchaWithGemini (w : world) (unclear failed : string)
    (n : nat) (imageBuffer : string) : M string :=
  emit (EvSolve imageBuffer);;
  try_catch
    (text ← lift (generateContent w n imageBuffer);
     match cleanedAnswer text with
     | Some answer =>
         if negb (is_empty answer) then mret answer else throw (Error unclear)
     | None => throw (Error unclear)
     end)
    (fun error => throw (Error (failed +:+ err_message error))).

(** [buildFinalUrl(diaryNo, year, scid, token, captchaAnswer)] *)
Definition finalParams (diaryNo year scid : string) (tok : token)
    (captchaAnswer : string) : URLSearchParams.t :=
  let params := URLSearchParams.empty in
  let params := URLSearchParams.append "diary_no" diaryNo params in
  let params := URLSearchParams.append "year" year params in
  let params := URLSearchParams.append "scid" scid params in
  let params := URLSearchParams.append (name tok) (value tok) params in
  let params := URLSearchParams.append "siwp_captcha_value" captchaAnswer params in
  let params := URLSearchParams.append "es_ajax_request" "1" params in
  let params := URLSearchParams.append "submit" "Search" params in
  let params := URLSearchParams.append "action" "get_case_status_diary_no" params in
  let params := URLSearchParams.append "language" "en" params in
  params.

Definition buildFinalUrl (diaryNo year scid : string) (tok : token)
    (captchaAnswer : string) : string :=
  AJAX_URL_BASE +:+ "?" +:+
  URLSearchParams.toString (finalParams diaryNo year scid tok captchaAnswer).

(** The query string of a URL: what follows its first [?]. *)
Definition query_of (url : string) : string := snd (URLSearchParams.cut_at "?" url).

(** The validation at the head of [app.post('/api/case-details')]. *)
Inductive validation :=
| Invalid (error : string)
| Valid (diaryNo year : string).

Definition validate (diaryData : Js.value) : validation :=
  if negb (truthy diaryData) || negb (is_string diaryData) then
    Invalid "Invalid payload: 'diaryData' (string 'number/year') is required."
  else
    match diaryData with
    | Some (JStr s) =>
        match split "/" s with
        | [p0; p1] =>
            if negb (Regex.test_digits p0) || negb (Regex.test_four_digits p1)
            then Invalid "Invalid 'diaryData' format: Expected 'number/year' (e.g., '2444/2023')."
            else Valid p0 p1
        | _ => Invalid "Invalid 'diaryData' format: Expected 'number/year' (e.g., '2444/2023')."
        end
    | _ => Invalid "Invalid payload: 'diaryData' (string 'number/year') is required."
    end.

(** [calculateTimeTaken(startTime)]:
    [(endTime[0] * 1000 + endTime[1] / 1000000).toFixed(2)], the elapsed
    milliseconds in two decimals. The result is the number these digits
    spell: [server1.js] sends the digits, the other files the number
    [parseFloat] reads from them, which is written with the same digits in
    the reply (a double gives back a decimal of 15 digits or fewer, so for
    every time below [10^13] milliseconds). *)
Definition calculateTimeTaken (endTime : Z * Z) : Q :=
  toFixed2 (round (round (inject_Z (fst endTime) * 1000)
                   + round (inject_Z (snd endTime) / 1000000))%Q).

(** The outcome of a computation, as a [try] block sees it. *)
Definition observe {A} (m : M A) : M (outcome A) := fun s =>
  match m s with
  | (s', o) => (s', Return o)
  end.

(** The loop of [getCaseDetailsProcess]:

    [while (attempts < MAX_ATTEMPTS) { attempts++; try { return cycle }
     catch (error) { lastError = error; log(attempts, error.message) }
     if (attempts < MAX_ATTEMPTS) sleep(delay(attempts)) }
     throw lastError]

    [remaining] is [MAX_ATTEMPTS - attempts], the number of turns the loop
    has left. *)
Fixpoint retry_loop {A} (MAX_ATTEMPTS : nat) (delaySeconds : nat -> number)
    (cycle : nat -> M A) (remaining : nat) (attempts : nat)
    (lastError : js_error) : M A :=
  match remaining with
  | O => throw lastError
  | S remaining' =>
      let attempts := S attempts in
      o ← observe (cycle attempts);
      match o with
      | Return result => mret result
      | Throw error =>
          emit (EvAttemptFailed attempts error);;
          (if (attempts <? MAX_ATTEMPTS)%nat
           then emit (EvSleep (delaySeconds attempts))
           else mret tt);;
          retry_loop MAX_ATTEMPTS delaySeconds cycle remaining' attempts error
      end
  end.

(** [let attempts = 0; let lastError = new Error("Process not attempted.")]
    and the loop. *)
Definition retry {A} (MAX_ATTEMPTS : nat) (delaySeconds : nat -> number)
    (cycle : nat -> M A) : M A :=
  retry_loop MAX_ATTEMPTS delaySeconds cycle MAX_ATTEMPTS 0
             (Error "Process not attempted.").

(** [Math.pow(2, attempts) + Math.random()] *)
Definition backoff (w : world) (attempts : nat) : number :=
  add (pow2 attempts) (Finite (random w attempts)).

(** [setTimeout(resolve, delaySeconds * 1000)]: the milliseconds the loop
    then waits. *)
Definition timeout (delaySeconds : number) : Z :=
  Timers.setTimeout (mul delaySeconds (Finite 1000)).

End Common.

(** ** [src/server.js]: the single-record variant *)

Module Server.
Import Str Js Effects Common.

Definition MAX_ATTEMPTS : nat := 5.

Record caseData := mkCaseData {
  serialNumber : string;
  diaryNumber : string;
  caseNumber : string;
  petitionerName : string;
  respondentName : string;
  status : string;
  actionViewLink : option string
}.

(** The reply of the endpoint: the status and the JSON body. *)
Record reply := mkReply {
  code : Z;
  success : bool;
  data : option caseData;
  error : option string;
  timeTakenMs : Q
}.

Section Process.
Context (lib : library) (w : world).

Definition fetchHtml (n : nat) (url : string) : M string :=
  emit (EvFetch url);;
  response ← lift (fetch w n url);
  if negb (ok response) then
    throw (Error ("FetchHTML Error: HTTP " +:+ of_Z (Effects.status response)
                  +:+ " for " +:+ url))
  else lift (body response).

Definition fetchImageBuffer (n : nat) (url : string) : M string :=
  emit (EvFetch url);;
  response ← lift (fetch w n url);
  if negb (ok response) then
    throw (Error ("FetchImageBuffer Error: HTTP " +:+ of_Z (Effects.status response)
                  +:+ " for image " +:+ url))
  else lift (body response).

Definition extractToken (html : string) : outcome token :=
  Common.extractToken lib "CSRF token not found." html.

Record captchaInfo := mkCaptchaInfo { imageUrl : string; imgId : string }.

(** [extractCaptchaInfo(html)] *)
Definition extractCaptchaInfo (html : string) : outcome captchaInfo :=
  let captchaImageElement :=
    Dom.select (cheerio_load lib html)
      [Dom.both (Dom.tag_is "img") (Dom.has_id "siwp_captcha_image_0")] in
  let not_found :=
    Throw (Error "CAPTCHA image element (img#siwp_captcha_image_0) not found.") in
  if (0 <? length captchaImageElement)%nat then
    match Dom.attr captchaImageElement "src" with
    | Some imgSrc =>
        if negb (is_empty imgSrc) then
          match url_href lib imgSrc INITIAL_PAGE_URL with
          | Return absoluteImgSrc =>
              match url_search_get lib absoluteImgSrc "id" with
              | Some id =>
                  if negb (is_empty id) then Return (mkCaptchaInfo absoluteImgSrc id)
                  else Throw (Error ("CAPTCHA image ID (" +:+ dquote +:+ "id" +:+ dquote
                                     +:+ " param) not found in src."))
              | None =>
                  Throw (Error ("CAPTCHA image ID (" +:+ dquote +:+ "id" +:+ dquote
                                +:+ " param) not found in src."))
              end
          | Throw e => Throw e
          end
        else not_found
    | None => not_found
    end
  else not_found.

Definition solveCaptchaWithGemini (n : nat) (imageBuffer : string) : M string :=
  Common.solveCaptchaWithGemini w
    "Gemini Error: Failed to get clear numerical answer for CAPTCHA."
    "Gemini CAPTCHA solving failed: " n imageBuffer.

(** [div.distTableContent table tbody tr] *)
Definition rows_selector : Dom.selector :=
  [Dom.both (Dom.tag_is "div") (Dom.has_class "distTableContent");
   Dom.tag_is "table"; Dom.tag_is "tbody"; Dom.tag_is "tr"].

Definition td (k : nat) : Dom.selector := [Dom.both (Dom.tag_is "td") (Dom.nth_child k)].

Definition td_class (c : string) : Dom.selector :=
  [Dom.both (Dom.tag_is "td") (Dom.has_class c)].

(** [a || b] on two strings *)
Definition or_else (a b : string) : string := if negb (is_empty a) then a else b.

Definition parse_error : js_error :=
  Error "CaseDetailsParse Error: Could not parse details from resultsHTML.".

(** The body of [parseCaseDetailsFromHtml] once the document is loaded. *)
Definition parseCaseDetailsFromDocument (doc : Dom.document) : outcome caseData :=
  let caseRow := Dom.first (Dom.select doc rows_selector) in
  if (0 <? length caseRow)%nat then
    let cell sel := trim (Dom.text (Dom.find_all caseRow sel)) in
    let viewLink :=
      Dom.attr (Dom.find_all caseRow
                  [Dom.both (Dom.tag_is "td") (Dom.nth_child 7);
                   Dom.both (Dom.tag_is "a") (Dom.has_class "viewCnrDetails")])
               "href" in
    let build link :=
      mkCaseData (cell (td 1)) (cell (td 2)) (cell (td 3))
        (collapse_runs (or_else (cell (td_class "petitioners")) (cell (td 4))))
        (collapse_runs (or_else (cell (td_class "respondents")) (cell (td 5))))
        (cell (td 6)) link in
    let finish caseData :=
      if negb (is_empty (diaryNumber caseData)) then Return caseData
      else Throw parse_error in
    if present viewLink then
      match viewLink with
      | Some href =>
          match url_href lib href INITIAL_PAGE_URL with
          | Return absolute => finish (build (Some absolute))
          | Throw e => Throw e
          end
      | None => finish (build None)
      end
    else finish (build None)
  else Throw parse_error.

(** [parseCaseDetailsFromHtml(htmlString)], on the truthy value the envelope
    holds as [resultsHtml]. *)
Definition parseCaseDetailsFromHtml (htmlString : json) : outcome caseData :=
  match htmlString with
  | JStr s => parseCaseDetailsFromDocument (cheerio_load lib s)
  | v =>
      match cheerio_load_value lib v with
      | Return doc => parseCaseDetailsFromDocument doc
      | Throw e => Throw e
      end
  end.

(** [jsonData.data.resultsHtml] when the condition
    [jsonData && jsonData.success && jsonData.data && jsonData.data.resultsHtml]
    holds, [None] when it does not. *)
Definition resultsHtml_of (jsonData : Js.value) : Js.value :=
  if truthy jsonData && truthy (prop jsonData "success")
     && truthy (prop jsonData "data")
     && truthy (prop (prop jsonData "data") "resultsHtml")
  then prop (prop jsonData "data") "resultsHtml"
  else None.

(** The last statement of the [try] block: the record of a successful
    envelope is returned, anything else is thrown. *)
Definition conclude (jsonData : json) : outcome caseData :=
  match resultsHtml_of (Some jsonData) with
  | Some resultsHtml => parseCaseDetailsFromHtml resultsHtml
  | None =>
      Throw (Error ("AJAX Error: Response unsuccessful or malformed. Data: "
                    +:+ substring0 200 (JSON_stringify lib jsonData)))
  end.

(** One turn of the [try] block of [getCaseDetailsProcess]. *)
Definition cycle (diaryNo year : string) (n : nat) : M caseData :=
  initialHtml ← fetchHtml n INITIAL_PAGE_URL;
  tok ← lift (extractToken initialHtml);
  captcha ← lift (extractCaptchaInfo initialHtml);
  let scid := imgId captcha in
  imageBuffer ← fetchImageBuffer n (imageUrl captcha);
  captchaAnswer ← solveCaptchaWithGemini n imageBuffer;
  let finalUrl := buildFinalUrl diaryNo year scid tok captchaAnswer in
  emit (EvFetch finalUrl);;
  ajaxResponse ← lift (fetch w n finalUrl);
  if negb (ok ajaxResponse) then
    errorText ← lift (body ajaxResponse);
    throw (Error ("AJAX Error: HTTP " +:+ of_Z (Effects.status ajaxResponse)
                  +:+ ". Response: " +:+ substring0 200 errorText))
  else
    jsonData ← lift (body_json ajaxResponse);
    lift (conclude jsonData).

(** [const delaySeconds = 2 + attempts] *)
Definition delaySeconds (attempts : nat) : Float.number :=
  Float.Finite (inject_Z (2 + Z.of_nat attempts)).

Definition getCaseDetailsProcess (diaryNo year : string) : M caseData :=
  retry MAX_ATTEMPTS delaySeconds (cycle diaryNo year).

(** [app.post('/api/case-details', ...)] on the parsed body of the
    request. *)
Definition post_case_details (body : list (string * json)) : M reply :=
  let diaryData := field "diaryData" body in
  match validate diaryData with
  | Invalid message =>
      mret (mkReply 400 false None (Some message) (calculateTimeTaken (hrtime w)))
  | Valid diaryNo year =>
      o ← observe (getCaseDetailsProcess diaryNo year);
      match o with
      | Return caseDetails =>
          mret (mkReply 200 true (Some caseDetails) None (calculateTimeTaken (hrtime w)))
      | Throw error =>
          mret (mkReply 500 false None
                  (Some ("Failed to retrieve case details: " +:+ err_message error))
                  (calculateTimeTaken (hrtime w)))
      end
  end.

End Process.
End Server.

(** ** [src/server1.js]: the pass-through variant with a cache *)

Module Server1.
Import Str Js Effects Common.

(** The numbers read from the environment. ([parseInt] gives [NaN] for a
    text that is no number; the loop then makes no turn, as for 0.) *)
Record config := mkConfig {
  MAX_ATTEMPTS : Z;
  CACHE_TTL : Z;
  REQUEST_TIMEOUT : Z
}.

(** [MAX_ATTEMPTS || '3'], [CACHE_TTL || '3600'], [REQUEST_TIMEOUT || '30000'] *)
Definition default_config : config := mkConfig 3 3600 30000.

Record reply := mkReply {
  code : Z;
  success : bool;
  data : option json;
  error : option string;
  timeTakenMs : Q;
  cached : option bool
}.

Section Process.
Context (cfg : config) (lib : library) (w : world).

(** The [catch] of the fetch helpers: an abort becomes a timeout error. *)
Definition on_abort {A} (message : string) (error : js_error) : M A :=
  if String.eqb (err_name error) "AbortError" then throw (Error message)
  else throw error.

Definition fetchHtml (n : nat) (url : string) : M string :=
  try_catch
    (emit (EvFetch url);;
     response ← lift (fetch w n url);
     if negb (ok response) then
       throw (Error ("HTTP " +:+ of_Z (Effects.status response) +:+ " for " +:+ url))
     else lift (body response))
    (on_abort ("Request timeout after " +:+ of_Z (REQUEST_TIMEOUT cfg)
               +:+ "ms for " +:+ url)).

Definition fetchImageBuffer (n : nat) (url : string) : M string :=
  try_catch
    (emit (EvFetch url);;
     response ← lift (fetch w n url);
     if negb (ok response) then
       throw (Error ("HTTP " +:+ of_Z (Effects.status response) +:+ " for image " +:+ url))
     else lift (body response))
    (on_abort ("Image request timeout after " +:+ of_Z (REQUEST_TIMEOUT cfg)
               +:+ "ms for " +:+ url)).

Definition extractToken (html : string) : outcome token :=
  Common.extractToken lib "CSRF token not found in page." html.

(** [input#input_siwp_captcha_id_0[name="scid"]] *)
Definition scid_selector : Dom.selector :=
  [Dom.both (Dom.tag_is "input")
     (Dom.both (Dom.has_id "input_siwp_captcha_id_0") (Dom.attr_is "name" "scid"))].

(** [extractSCID(html)] *)
Definition extractSCID (html : string) : outcome string :=
  let scidInput := Dom.select (cheerio_load lib html) scid_selector in
  if (length scidInput =? 0)%nat then Throw (Error "SCID input field not found.")
  else
    match Dom.attr scidInput "value" with
    | Some scid =>
        if is_empty scid then Throw (Error "SCID value is empty.") else Return scid
    | None => Throw (Error "SCID value is empty.")
    end.

Definition solveCaptchaWithGemini (n : nat) (imageBuffer : string) : M string :=
  Common.solveCaptchaWithGemini w
    "No clear numerical answer for CAPTCHA" "CAPTCHA solving failed: " n imageBuffer.

(** [new URL(INITIAL_PAGE_URL)] with [searchParams.set('_', now)] *)
Definition initialPageUrlWithCacheBuster (now : Z) : string :=
  INITIAL_PAGE_URL +:+ "?" +:+ URLSearchParams.toString [("_", of_Z now)].

(** [new URL('?_siwp_captcha', CAPTCHA_IMAGE_BASE_URL)] with
    [searchParams.set('id', scid)] and [searchParams.set('ts', now)] *)
Definition captchaImageUrl (scid : string) (now : Z) : string :=
  CAPTCHA_IMAGE_BASE_URL +:+ "?" +:+
  URLSearchParams.toString [("_siwp_captcha", EmptyString); ("id", scid); ("ts", of_Z now)].

(** [`${diaryNo}/${year}`] *)
Definition cacheKey (diaryNo year : string) : string := diaryNo +:+ "/" +:+ year.

(** One turn of the outer [try] block of [getCaseDetailsProcess]. *)
Definition cycle (diaryNo year : string) (n : nat) : M json :=
  initialHtml ← fetchHtml n (initialPageUrlWithCacheBuster (date_now w n 0));
  scid ← lift (extractSCID initialHtml);
  tok ← lift (extractToken initialHtml);
  imageBuffer ← fetchImageBuffer n (captchaImageUrl scid (date_now w n 1));
  captchaAnswer ← solveCaptchaWithGemini n imageBuffer;
  let finalUrl := buildFinalUrl diaryNo year scid tok captchaAnswer in
  try_catch
    (emit (EvFetch finalUrl);;
     ajaxResponse ← lift (fetch w n finalUrl);
     if negb (ok ajaxResponse) then
       errorText ← lift (body ajaxResponse);
       throw (Error ("HTTP " +:+ of_Z (Effects.status ajaxResponse)
                     +:+ ". Response: " +:+ substring0 500 errorText))
     else
       responseData ← lift (body_json ajaxResponse);
       c ← get_cache;
       put_cache (NodeCache.set (CACHE_TTL cfg) (date_now w n 2)
                    (cacheKey diaryNo year) responseData c);;
       lift (read_prop (Some responseData) "success");;
       mret responseData)
    (on_abort ("Ajax request timeout after " +:+ of_Z (REQUEST_TIMEOUT cfg) +:+ "ms")).

Definition getCaseDetailsProcess (diaryNo year : string) : M json :=
  c ← get_cache;
  let '(cachedData, c') := NodeCache.get (date_now w 0 0) (cacheKey diaryNo year) c in
  put_cache c';;
  if truthy cachedData then
    match cachedData with
    | Some v => mret v
    | None => throw (Error "Process not attempted.")
    end
  else
    retry (Z.to_nat (MAX_ATTEMPTS cfg)) (backoff w) (cycle diaryNo year).

(** [`req_${Date.now()}_${diaryData || 'unknown'}`] *)
Definition requestIdentifier (diaryData : Js.value) : outcome string :=
  match template (if truthy diaryData then diaryData else Some (JStr "unknown")) with
  | Return text => Return ("req_" +:+ of_Z (date_now w 0 2) +:+ "_" +:+ text)
  | Throw e => Throw e
  end.

(** [app.post('/api/case-details', ...)] of [setupServer], on the parsed
    body of the request. The request identifier is written before the
    body is validated; an error thrown there is caught by nothing in the
    handler, which ends with it and sends no reply. *)
Definition post_case_details (body : list (string * json)) : M reply :=
  let diaryData := field "diaryData" body in
  lift (requestIdentifier diaryData);;
  match validate diaryData with
  | Invalid message =>
      mret (mkReply 400 false None (Some message) (calculateTimeTaken (hrtime w)) None)
  | Valid diaryNo year =>
      o ← observe (getCaseDetailsProcess diaryNo year);
      match o with
      | Return ajaxJsonResponse =>
          c ← get_cache;
          let '(has, c') := NodeCache.has (date_now w 0 1) (cacheKey diaryNo year) c in
          put_cache c';;
          mret (mkReply 200 true (Some ajaxJsonResponse) None
                  (calculateTimeTaken (hrtime w)) (Some has))
      | Throw error =>
          mret (mkReply 500 false None
                  (Some ("Failed to retrieve case details: " +:+ err_message error))
                  (calculateTimeTaken (hrtime w)) None)
      end
  end.

End Process.
End Server1.

(** ** [src/unnamed/part_000]: the pass-through variant without a cache *)

Module Part000.
Import Str Js Effects Common.

Definition MAX_ATTEMPTS : nat := 3.

Record reply := mkReply {
  code : Z;
  success : bool;
  data : option json;
  error : option string;
  timeTakenMs : Q
}.

Section Process.
Context (lib : library) (w : world).

Definition fetchHtml (n : nat) (url : string) : M string :=
  emit (EvFetch url);;
  response ← lift (fetch w n url);
  if negb (ok response) then
    throw (Error ("FetchHTML Error: HTTP " +:+ of_Z (Effects.status response)
                  +:+ " for " +:+ url))
  else lift (body response).

Definition fetchImageBuffer (n : nat) (url : string) : M string :=
  emit (EvFetch url);;
  response ← lift (fetch w n url);
  if negb (ok response) then
    throw (Error ("FetchImageBuffer Error: HTTP " +:+ of_Z (Effects.status response)
                  +:+ " for image " +:+ url))
  else lift (body response).

Definition extractToken (html : string) : outcome token :=
  Common.extractToken lib
    ("CSRF token (input[name^=" +:+ dquote +:+ "tok_" +:+ dquote +:+ "]) not found.") html.

(** The SCID lines at the head of the [try] block. *)
Definition extractSCID (html : string) : outcome string :=
  let scidInput := Dom.select (cheerio_load lib html) Server1.scid_selector in
  if (length scidInput =? 0)%nat then
    Throw (Error ("SCID input field (input#input_siwp_captcha_id_0[name=" +:+ dquote
                  +:+ "scid" +:+ dquote +:+ "]) not found."))
  else
    match Dom.attr scidInput "value" with
    | Some scid =>
        if is_empty scid then Throw (Error "SCID value is empty.") else Return scid
    | None => Throw (Error "SCID value is empty.")
    end.

Definition solveCaptchaWithGemini (n : nat) (imageBuffer : string) : M string :=
  Common.solveCaptchaWithGemini w
    "Gemini Error: Failed to get clear numerical answer for CAPTCHA."
    "Gemini CAPTCHA solving failed: " n imageBuffer.

(** One turn of the [try] block of [getCaseDetailsProcess]. The last
    [console.log] reads [responseData.success] and writes it in a template
    literal. *)
Definition cycle (diaryNo year : string) (n : nat) : M json :=
  initialHtml ← fetchHtml n (Server1.initialPageUrlWithCacheBuster (date_now w n 0));
  scid ← lift (extractSCID initialHtml);
  tok ← lift (extractToken initialHtml);
  imageBuffer ← fetchImageBuffer n (Server1.captchaImageUrl scid (date_now w n 1));
  captchaAnswer ← solveCaptchaWithGemini n imageBuffer;
  let finalUrl := buildFinalUrl diaryNo year scid tok captchaAnswer in
  emit (EvFetch finalUrl);;
  ajaxResponse ← lift (fetch w n finalUrl);
  if negb (ok ajaxResponse) then
    errorText ← lift (body ajaxResponse);
    throw (Error ("AJAX Error: HTTP " +:+ of_Z (Effects.status ajaxResponse)
                  +:+ " for " +:+ finalUrl +:+ ". Response: "
                  +:+ substring0 500 errorText))
  else
    responseData ← lift (body_json ajaxResponse);
    success ← lift (read_prop (Some responseData) "success");
    lift (template success);;
    mret responseData.

Definition getCaseDetailsProcess (diaryNo year : string) : M json :=
  retry MAX_ATTEMPTS (backoff w) (cycle diaryNo year).

(** [diaryData || `unknown_diary_data_${Date.now()}`] *)
Definition requestIdentifierLog (diaryData : Js.value) : Js.value :=
  if truthy diaryData then diaryData
  else Some (JStr ("unknown_diary_data_" +:+ of_Z (date_now w 0 2))).

(** The line the endpoint logs first:
    [`\n--- [API Call Start - ${requestIdentifierLog}] Received request for
    diaryData: ${diaryData} ---`]. The later lines write the same two
    values again. *)
Definition callStart (diaryData : Js.value) : outcome string :=
  match template (requestIdentifierLog diaryData) with
  | Return identifier =>
      match template diaryData with
      | Return text =>
          Return (String (ascii_of_nat 10) "--- [API Call Start - " +:+ identifier
                  +:+ "] Received request for diaryData: " +:+ text +:+ " ---")
      | Throw e => Throw e
      end
  | Throw e => Throw e
  end.

(** [app.post('/api/case-details', ...)] on the parsed body of the
    request. The first line is logged before the body is validated; an
    error thrown there is caught by nothing in the handler, which ends with
    it and sends no reply. *)
Definition post_case_details (body : list (string * json)) : M reply :=
  let diaryData := field "diaryData" body in
  lift (callStart diaryData);;
  match validate diaryData with
  | Invalid message =>
      mret (mkReply 400 false None (Some message) (calculateTimeTaken (hrtime w)))
  | Valid diaryNo year =>
      o ← observe (getCaseDetailsProcess diaryNo year);
      match o with
      | Return ajaxJsonResponse =>
          mret (mkReply 200 true (Some ajaxJsonResponse) None
                  (calculateTimeTaken (hrtime w)))
      | Throw error =>
          mret (mkReply 500 false None
                  (Some ("Failed to retrieve case details: " +:+ err_message error))
                  (calculateTimeTaken (hrtime w)))
      end
  end.

End Process.
End Part000.

(** ** [src/unnamed/part_001]: the normalizing variant

    Its fetch helpers, [extractToken], [solveCaptchaWithGemini],
    [buildFinalUrl] and [getCaseDetailsProcess] are the text of [part_000]. *)

Module Part001.
Import Str Js Effects Common.

Definition MAX_ATTEMPTS : nat := Part000.MAX_ATTEMPTS.

Record caseDetail := mkCaseDetail {
  serialNumber : string;
  diaryNumber : string;
  caseNumber : string;
  registeredOn : string;
  petitionerName : string;
  respondentName : string;
  status : string;
  viewDetailsLink : string
}.

Record reply := mkReply {
  code : Z;
  success : bool;
  data : option (list caseDetail);
  pagination : Js.value;
  error : option json;
  timeTakenMs : Q
}.

(** The split of the third cell into case number and registration date. *)
Definition splitCaseInfo (caseInfoFullText : string) : string * string :=
  match Regex.match_registered_on caseInfoFullText with
  | Some (whole, date) =>
      (trim (collapse_spaces (remove_first whole caseInfoFullText)), date)
  | None => (trim (collapse_spaces caseInfoFullText), EmptyString)
  end.

Section Process.
Context (lib : library) (w : world).

Definition getCaseDetailsProcess (diaryNo year : string) : M json :=
  Part000.getCaseDetailsProcess lib w diaryNo year.

Definition cellText (cell : Dom.item) : string := trim (Dom.text [cell]).

(** The link of the seventh cell, ['' ] when there is none; a link the URL
    parser refuses is kept as it is. *)
Definition viewLink (cell : Dom.item) : string :=
  let viewLinkTag :=
    Dom.find cell [Dom.both (Dom.tag_is "a") (Dom.has_class "viewCnrDetails")] in
  if (0 <? length viewLinkTag)%nat then
    match Dom.attr viewLinkTag "href" with
    | Some relativeLink =>
        if negb (is_empty relativeLink) then
          match url_href lib relativeLink CAPTCHA_IMAGE_BASE_URL with
          | Return href => href
          | Throw _ => relativeLink
          end
        else EmptyString
    | None => EmptyString
    end
  else EmptyString.

(** The body of the [each] callback: the record of a row, if it has at
    least seven cells. *)
Definition parseRow (row : Dom.item) : list caseDetail :=
  let cells := Dom.find row [Dom.tag_is "td"] in
  match cells with
  | c0 :: c1 :: c2 :: c3 :: c4 :: c5 :: c6 :: _ =>
      let info := splitCaseInfo (cellText c2) in
      [mkCaseDetail (cellText c0) (cellText c1) (fst info) (snd info)
         (cellText c3) (cellText c4) (cellText c5) (viewLink c6)]
  | _ => []
  end.

(** The body of [parseCaseDetailsHtml] once the document is loaded. *)
Definition parseCaseDetailsDocument (doc : Dom.document) : list caseDetail :=
  let caseRows := Dom.select doc Server.rows_selector in
  if (length caseRows =? 0)%nat then []
  else flat_map parseRow caseRows.

(** [parseCaseDetailsHtml(htmlString)], on the truthy value the envelope
    holds as [resultsHtml]. *)
Definition parseCaseDetailsHtml (htmlString : json) : outcome (list caseDetail) :=
  match htmlString with
  | JStr s => Return (parseCaseDetailsDocument (cheerio_load lib s))
  | v =>
      match cheerio_load_value lib v with
      | Return doc => Return (parseCaseDetailsDocument doc)
      | Throw e => Throw e
      end
  end.

(** [v === true], [v === false] *)
Definition is_true (v : Js.value) : bool :=
  match v with Some (JBool true) => true | _ => false end.

Definition is_false (v : Js.value) : bool :=
  match v with Some (JBool false) => true | _ => false end.

(** [a || b] on values *)
Definition or_value (a b : Js.value) : Js.value := if truthy a then a else b.

(** [(sourceResponse.data && (sourceResponse.data.message ||
    sourceResponse.data.html)) || "Failed to retrieve details: ..."] *)
Definition errorMessage (sourceResponse : Js.value) : json :=
  let d := prop sourceResponse "data" in
  let m := if truthy d then or_value (prop d "message") (prop d "html") else d in
  match or_value m (Some (JStr "Failed to retrieve details: Source reported an error.")) with
  | Some v => v
  | None => JStr "Failed to retrieve details: Source reported an error."
  end.

(** [sourceResponse.data.resultsHtml] when the condition
    [sourceResponse && sourceResponse.success === true && sourceResponse.data
     && sourceResponse.data.resultsHtml] holds, [None] when it does not. *)
Definition resultsHtml_of (sourceResponse : Js.value) : Js.value :=
  if truthy sourceResponse && is_true (prop sourceResponse "success")
     && truthy (prop sourceResponse "data")
     && truthy (prop (prop sourceResponse "data") "resultsHtml")
  then prop (prop sourceResponse "data") "resultsHtml"
  else None.

(** What the [try] block does with the envelope the lookup returned. The
    failure the source reports is logged, its message in a template
    literal, before the 422 reply is written. *)
Definition respond (sourceResponse : Js.value) : M reply :=
  let timeTakenMs := calculateTimeTaken (hrtime w) in
  match resultsHtml_of sourceResponse with
  | Some resultsHtml =>
      structuredCaseData ← lift (parseCaseDetailsHtml resultsHtml);
      mret (mkReply 200 true (Some structuredCaseData)
              (prop (prop sourceResponse "data") "pagination") None timeTakenMs)
  | None =>
      if truthy sourceResponse && is_false (prop sourceResponse "success") then
        lift (template (Some (errorMessage sourceResponse)));;
        mret (mkReply 422 false None None (Some (errorMessage sourceResponse)) timeTakenMs)
      else
        mret (mkReply 500 false None None
                (Some (JStr "Failed to process response from source: Unexpected data structure."))
                timeTakenMs)
  end.

(** [app.post('/api/case-details', ...)] on the parsed body of the
    request. Its first lines are those of [part_000]: the line logged
    before the body is validated may throw, and then the handler ends with
    the error and sends no reply. *)
Definition post_case_details (body : list (string * json)) : M reply :=
  let diaryData := field "diaryData" body in
  lift (Part000.callStart w diaryData);;
  match validate diaryData with
  | Invalid message =>
      mret (mkReply 400 false None None (Some (JStr message))
              (calculateTimeTaken (hrtime w)))
  | Valid diaryNo year =>
      try_catch
        (sourceResponse ← getCaseDetailsProcess diaryNo year;
         respond (Some sourceResponse))
        (fun error =>
           mret (mkReply 500 false None None
                   (Some (JStr ("Failed to retrieve case details: " +:+ err_message error)))
                   (calculateTimeTaken (hrtime w))))
  end.

End Process.
End Part001.

(** ** The words of the specification *)

Module Spec.
Import Str.

Definition digits (s : string) : Prop := all is_digit s = true.

(** [^\d+/\d{4}$] *)
Definition matches_diary_pattern (s : string) : Prop :=
  exists d y, s = d +:+ "/" +:+ y /\ d <> EmptyString /\ digits d
              /\ String.length y = 4%nat /\ digits y.

(** [-?\d+] matched against a whole string *)
Definition signed_int (m : string) : Prop :=
  exists d, d <> EmptyString /\ digits d /\ (m = d \/ m = "-" +:+ d).

(** [m] is a signed integer found in [text] at offset [k]. *)
Definition signed_int_at (text : string) (k : nat) (m : string) : Prop :=
  exists pre post, text = pre +:+ m +:+ post /\ String.length pre = k /\ signed_int m.

Definition has_signed_int (text : string) : Prop :=
  exists k m, signed_int_at text k m.

(** [m] is the first signed integer of [text]: no other starts before it,
    and none that starts where it does is longer. *)
Definition first_signed_int (text m : string) : Prop :=
  exists k, signed_int_at text k m /\
    forall k' m', signed_int_at text k' m' ->
      (k <= k')%nat /\ (k' = k -> (String.length m' <= String.length m)%nat).

(** The events of a trace that belong to the retry loop itself. *)
Definition is_control (ev : Effects.event) : bool :=
  match ev with
  | Effects.EvAttemptFailed _ _ => true
  | Effects.EvSleep _ => true
  | _ => false
  end.

Definition control (tr : list Effects.event) : list Effects.event :=
  filter (fun ev => is_control ev = true) tr.

(** What the loop itself does when its first [k] attempts fail with the
    errors [err 1], ..., [err k]: each failure, and a wait after each but
    the [MAX_ATTEMPTS]-th. *)
Fixpoint failures (MAX_ATTEMPTS : nat) (delay : nat -> Float.number) (err : nat -> Js.js_error)
    (k : nat) : list Effects.event :=
  match k with
  | O => []
  | S k' =>
      failures MAX_ATTEMPTS delay err k'
      ++ Effects.EvAttemptFailed k (err k)
         :: (if (k <? MAX_ATTEMPTS)%nat then [Effects.EvSleep (delay k)] else [])
  end.

(** The same, for [r] attempts in a row from attempt [a + 1] on. *)
Fixpoint failures_from (MAX_ATTEMPTS : nat) (delay : nat -> Float.number) (err : nat -> Js.js_error)
    (a r : nat) : list Effects.event :=
  match r with
  | O => []
  | S r' =>
      Effects.EvAttemptFailed (S a) (err (S a))
      :: (if (S a <? MAX_ATTEMPTS)%nat then [Effects.EvSleep (delay (S a))] else [])
      ++ failures_from MAX_ATTEMPTS delay err (S a) r'
  end.

(** The state once a failed attempt has been logged and waited for. *)
Definition after_failure (MAX_ATTEMPTS : nat) (delay : nat -> Float.number) (attempts : nat)
    (error : Js.js_error) (st : Effects.state) : Effects.state :=
  let st1 := Effects.mkState
               (Effects.trace st ++ [Effects.EvAttemptFailed attempts error])
               (Effects.cache st) in
  if (attempts <? MAX_ATTEMPTS)%nat
  then Effects.mkState (Effects.trace st1 ++ [Effects.EvSleep (delay attempts)])
                       (Effects.cache st1)
  else st1.

(** The state a lookup ends in when its first [k] attempts fail: each
    attempt runs from the state the one before has left, its failure is
    logged and waited for. *)
Fixpoint failed_run {A} (MAX_ATTEMPTS : nat) (delay : nat -> Float.number)
    (cycle : nat -> Effects.M A) (err : nat -> Js.js_error) (k : nat)
    (st : Effects.state) : Effects.state :=
  match k with
  | O => st
  | S k' =>
      after_failure MAX_ATTEMPTS delay (S k') (err (S k'))
        (fst (cycle (S k') (failed_run MAX_ATTEMPTS delay cycle err k' st)))
  end.

(** A computation is quiet when it adds no event of the retry loop (no
    logged failure, no wait) to the trace. *)
Definition quiet {A} (m : Effects.M A) : Prop :=
  forall st, control (Effects.trace (fst (m st))) = control (Effects.trace st).

(** The waits of a trace, in order. *)
Fixpoint sleeps (tr : list Effects.event) : list Float.number :=
  match tr with
  | [] => []
  | Effects.EvSleep d :: tr' => d :: sleeps tr'
  | _ :: tr' => sleeps tr'
  end.

(** The number of attempts a trace records as failed. *)
Fixpoint failed_attempts (tr : list Effects.event) : nat :=
  match tr with
  | [] => O
  | Effects.EvAttemptFailed _ _ :: tr' => S (failed_attempts tr')
  | _ :: tr' => failed_attempts tr'
  end.

End Spec.

(** ** The four variants side by side *)

Module Variants.
Import Js Effects Common.

Inductive variant :=
| ServerJs
| Server1Js (cfg : Server1.config)
| Part000Js
| Part001Js.

(** What a lookup returns. *)
Definition payload (v : variant) : Type :=
  match v with
  | ServerJs => Server.caseData
  | _ => json
  end.

Definition MAX_ATTEMPTS (v : variant) : nat :=
  match v with
  | ServerJs => Server.MAX_ATTEMPTS
  | Server1Js cfg => Z.to_nat (Server1.MAX_ATTEMPTS cfg)
  | Part000Js => Part000.MAX_ATTEMPTS
  | Part001Js => Part001.MAX_ATTEMPTS
  end.

Definition delaySeconds (v : variant) (w : world) : nat -> Float.number :=
  match v with
  | ServerJs => Server.delaySeconds
  | _ => backoff w
  end.

Definition cycle (v : variant) (lib : library) (w : world) (diaryNo year : string)
    (n : nat) : M (payload v) :=
  match v with
  | ServerJs => Server.cycle lib w diaryNo year n
  | Server1Js cfg => Server1.cycle cfg lib w diaryNo year n
  | Part000Js => Part000.cycle lib w diaryNo year n
  | Part001Js => Part000.cycle lib w diaryNo year n
  end.

Definition getCaseDetailsProcess (v : variant) (lib : library) (w : world)
    (diaryNo year : string) : M (payload v) :=
  match v with
  | ServerJs => Server.getCaseDetailsProcess lib w diaryNo year
  | Server1Js cfg => Server1.getCaseDetailsProcess cfg lib w diaryNo year
  | Part000Js => Part000.getCaseDetailsProcess lib w diaryNo year
  | Part001Js => Part001.getCaseDetailsProcess lib w diaryNo year
  end.

(** What the endpoint writes of [diaryData] before it validates the body:
    nothing in [server.js], the request identifier in [server1.js], the
    first line of the log in the two unnamed variants. *)
Definition before_validation (v : variant) (w : world) (diaryData : Js.value)
  : outcome string :=
  match v with
  | ServerJs => Return EmptyString
  | Server1Js _ => Server1.requestIdentifier w diaryData
  | Part000Js => Part000.callStart w diaryData
  | Part001Js => Part000.callStart w diaryData
  end.

(** The bodies on which these lines throw: a [diaryData] without text form,
    in every variant but [server.js]. *)
Definition escapes (v : variant) (diaryData : Js.value) : bool :=
  match v, diaryData with
  | ServerJs, _ => false
  | _, Some j => no_text j
  | _, None => false
  end.

(** The cache check at the head of the lookup finds nothing to return: the
    variant has no cache, or [responseCache.get] gives no truthy value. *)
Definition cache_miss (v : variant) (w : world) (diaryNo year : string)
    (st : state) : Prop :=
  match v with
  | Server1Js cfg =>
      truthy (fst (NodeCache.get (date_now w 0 0) (Server1.cacheKey diaryNo year)
                     (cache st))) = false
  | _ => True
  end.

(** The state in which the first attempt starts: the cache check of
    [server1.js] drops the entry of the key if it has expired. *)
Definition after_cache_check (v : variant) (w : world) (diaryNo year : string)
    (st : state) : state :=
  match v with
  | Server1Js cfg =>
      mkState (trace st)
        (snd (NodeCache.get (date_now w 0 0) (Server1.cacheKey diaryNo year) (cache st)))
  | _ => st
  end.

(** The status and the [timeTakenMs] of the reply of the endpoint. *)
Definition post_case_details (v : variant) (lib : library) (w : world)
    (body : list (string * json)) : M (Z * Q) :=
  match v with
  | ServerJs =>
      r ← Server.post_case_details lib w body;
      mret (Server.code r, Server.timeTakenMs r)
  | Server1Js cfg =>
      r ← Server1.post_case_details cfg lib w body;
      mret (Server1.code r, Server1.timeTakenMs r)
  | Part000Js =>
      r ← Part000.post_case_details lib w body;
      mret (Part000.code r, Part000.timeTakenMs r)
  | Part001Js =>
      r ← Part001.post_case_details lib w body;
      mret (Part001.code r, Part001.timeTakenMs r)
  end.

End Variants.

(** ** Sample documents and worlds *)

Module Samples.
Import Dom Js Effects Common.

(** A case-status page: the SCID field, the token field and the CAPTCHA
    image. *)
Definition page : document :=
  [Elem "html" []
     [Elem "body" []
        [Elem "form" []
           [Elem "input" [("type", "hidden"); ("id", "input_siwp_captcha_id_0");
                          ("name", "scid"); ("value", "77")] [];
            Elem "input" [("type", "hidden"); ("name", "tok_abc"); ("value", "xyz")] [];
            Elem "img" [("id", "siwp_captcha_image_0");
                        ("src", "/?_siwp_captcha&id=77")] []]]]].

(** A page with two token fields, the first without a value. *)
Definition page_two_tokens : document :=
  [Elem "html" []
     [Elem "body" []
        [Elem "input" [("type", "hidden"); ("name", "tok_first"); ("value", "")] [];
         Elem "input" [("type", "hidden"); ("name", "tok_second"); ("value", "v")] []]]].

Definition cell (text : string) : node := Elem "td" [] [Text text].

Definition results_of (rows : list node) : document :=
  [Elem "html" []
     [Elem "body" []
        [Elem "div" [("class", "distTableContent")]
           [Elem "table" [] [Elem "tbody" [] rows]]]]].

Definition row_of (caseInfo : string) : node :=
  Elem "tr" []
    [cell "1"; cell "2444/2023"; cell caseInfo; cell "A"; cell "B"; cell "PENDING";
     Elem "td" [] [Elem "a" [("class", "viewCnrDetails"); ("href", "/view?id=1")] []]].

(** One full row, the case-info cell as in the specification. *)
Definition results_one : document :=
  results_of [row_of "W.P.(C) No. 123/2020 Registered on 05-01-2020"].

(** A short row between two full rows. *)
Definition results_short_row : document :=
  results_of [row_of "C.A. No. 1/2020"; Elem "tr" [] [cell "x"; cell "y"];
              row_of "C.A. No. 2/2020"].

(** A row whose case-info cell holds two spaces in a row and no date. *)
Definition results_spaces : document := results_of [row_of "A  B"].

Definition results_empty : document := results_of [].

(** A library that loads the text ["<page>"] as [page] and every other text
    as [results], and resolves a link by putting the origin before it. *)
Definition lib_with (results : document) : library :=
  {| cheerio_load := fun html => if String.eqb html "<page>" then page else results;
     cheerio_load_value := fun _ => Throw (TypeError "not a string");
     url_href := fun relative _ => Return ("https://www.sci.gov.in" +:+ relative);
     url_search_get := fun _ _ => Some "77";
     JSON_stringify := fun _ => "{}" |}.

Definition lib_tokens : library :=
  {| cheerio_load := fun _ => page_two_tokens;
     cheerio_load_value := fun _ => Throw (TypeError "not a string");
     url_href := fun relative _ => Return ("https://www.sci.gov.in" +:+ relative);
     url_search_get := fun _ _ => Some "77";
     JSON_stringify := fun _ => "{}" |}.

Definition not_json : outcome json := Throw (mkError "SyntaxError" "Unexpected token <").

(** A world in which the page, the image and the oracle answer, and the
    search endpoint answers [ajax n] in attempt [n]. *)
Definition world_with (ajax : nat -> outcome response) : world :=
  {| date_now := fun _ _ => 1700000000000;
     fetch := fun n url =>
       if Str.starts_with AJAX_URL_BASE url then ajax n
       else Return (mkResponse 200 (Return "<page>") not_json);
     generateContent := fun _ _ => Return "The answer is 11.";
     random := fun _ => (1 # 2)%Q;
     hrtime := (1, 500000000) |}.

(** The search endpoint answers 200 with the JSON value [v]. *)
Definition answers (v : json) : nat -> outcome response :=
  fun _ => Return (mkResponse 200 (Return "") (Return v)).

(** A world without network: every request of attempt [n] is refused, with
    a message that names the attempt. *)
Definition world_down : world :=
  {| date_now := fun _ _ => 1700000000000;
     fetch := fun n _ =>
       Throw (TypeError ("fetch failed in attempt " +:+ Str.of_Z (Z.of_nat n)));
     generateContent := fun _ _ => Return "11";
     random := fun _ => (1 # 2)%Q;
     hrtime := (1, 500000000) |}.

Definition down_error (n : nat) : js_error :=
  TypeError ("fetch failed in attempt " +:+ Str.of_Z (Z.of_nat n)).

(** The envelope of a successful search. *)
Definition envelope_ok : json :=
  JObj [("success", JBool true);
        ("data", JObj [("resultsHtml", JStr "<results>"); ("pagination", JNum 1)])].

Definition envelope_failed : json :=
  JObj [("success", JBool false); ("data", JObj [("message", JStr "Invalid captcha")])].

(** An envelope that reports success and carries no results. *)
Definition envelope_bare : json := JObj [("success", JBool true)].

Definition body_of (diaryData : string) : list (string * json) :=
  [("diaryData", JStr diaryData)].

Definition start : state := initial ∅.

End Samples.

(** ** What a lookup does to the outside, counted *)

Module Footprint.
Import Str Js Effects Common.

(** The requests a trace holds. *)
Fixpoint fetches (tr : list event) : nat :=
  match tr with
  | [] => O
  | EvFetch _ :: tr' => S (fetches tr')
  | _ :: tr' => fetches tr'
  end.

(** The images a trace hands to the oracle. *)
Fixpoint solves (tr : list event) : nat :=
  match tr with
  | [] => O
  | EvSolve _ :: tr' => S (solves tr')
  | _ :: tr' => solves tr'
  end.

(** The seconds the loop waits on a delay. *)
Definition waited (delaySeconds : Float.number) : Q :=
  (inject_Z (timeout delaySeconds) / 1000)%Q.

(** The sum of the waits of a trace, in seconds. *)
Fixpoint total (ds : list Float.number) : Q :=
  match ds with
  | [] => 0
  | d :: ds' => waited d + total ds'
  end.

(** The page an attempt starts from: [INITIAL_PAGE_URL], with the cache
    buster [_=Date.now()] in the variants that add one. *)
Definition pageUrl (v : Variants.variant) (w : world) (n : nat) : string :=
  match v with
  | Variants.ServerJs => INITIAL_PAGE_URL
  | _ => Server1.initialPageUrlWithCacheBuster (date_now w n 0)
  end.

(** The events of one attempt: the request for the page; then, if it gets
    that far, the request for an image, the image handed to the oracle, and
    the request to the search endpoint. *)
Definition attempt_events (page : string) (evs : list event) : bool :=
  match evs with
  | EvFetch url :: rest =>
      String.eqb url page &&
      match rest with
      | [] => true
      | [EvFetch _] => true
      | [EvFetch _; EvSolve _] => true
      | [EvFetch _; EvSolve _; EvFetch finalUrl] =>
          starts_with (AJAX_URL_BASE +:+ "?") finalUrl
      | _ => false
      end
  | _ => false
  end.

(** A fetch helper: it sends one request for the URL it is given, touches
    nothing else, and returns the body exactly when the response has a 2xx
    status and its body can be read. *)
Definition fetch_helper (w : world) (f : nat -> string -> M string) : Prop :=
  forall (n : nat) (url : string) (st : state),
    trace (fst (f n url st)) = trace st ++ [EvFetch url]
    /\ cache (fst (f n url st)) = cache st
    /\ (forall content,
          snd (f n url st) = Return content
          <-> exists response,
                fetch w n url = Return response /\ ok response = true
                /\ body response = Return content)
    /\ (forall response,
          fetch w n url = Return response -> ok response = false ->
          exists message, snd (f n url st) = Throw (Error message)
                          /\ includes (of_Z (status response)) message = true
                          /\ includes url message = true).

(** A reading of [process.hrtime]: whole seconds, nanoseconds below
    [10^9], and few enough seconds for their milliseconds to be counted
    exactly by a double. *)
Definition clock_reading (s ns : Z) : Prop :=
  0 <= s /\ 0 <= ns < 1000000000 /\ (s + 1) * 1000 < 2 ^ 53.

(** What the waits of a lookup add up to at most, in seconds: 3 + 4 + 5 + 6
    in [server.js]; [2^1 + 1] + ... + [2^(MAX_ATTEMPTS - 1) + 1] in the
    other variants. *)
Definition wait_budget (v : Variants.variant) : Q :=
  match v with
  | Variants.ServerJs => 18
  | _ =>
      let k := Z.of_nat (Variants.MAX_ATTEMPTS v - 1) in
      inject_Z (2 ^ (k + 1) - 2 + k)
  end.

End Footprint.

(** ** More sample worlds *)

Module Scenarios.
Import Dom Js Effects Common Samples.

(** A world whose network is down during the first attempt and answers as
    [world_with (answers envelope_ok)] from the second on. *)
Definition world_recovering : world :=
  {| date_now := fun _ _ => 1700000000000;
     fetch := fun n url =>
       if (n =? 1)%nat then Throw (TypeError "fetch failed")
       else fetch (world_with (answers envelope_ok)) n url;
     generateContent := fun _ _ => Return "The answer is 11.";
     random := fun _ => (1 # 2)%Q;
     hrtime := (1, 500000000) |}.

Definition fetch_failed (n : nat) : js_error := TypeError "fetch failed".

(** The world without network in which [Math.random()] gives [r]. *)
Definition world_down_random (r : Q) : world :=
  {| date_now := date_now world_down;
     fetch := fetch world_down;
     generateContent := generateContent world_down;
     random := fun _ => r;
     hrtime := hrtime world_down |}.

(** [1 - 2^-52] *)
Definition almost_one : Q := (1 - (1 # 4503599627370496))%Q.

(** An envelope that reports failure with a message that has no text
    form. *)
Definition envelope_untold : json :=
  JObj [("success", JBool false);
        ("data", JObj [("message", JObj [("toString", JNum 1)])])].

(** A body whose [diaryData] has no text form. *)
Definition body_untold : list (string * json) :=
  [("diaryData", JObj [("toString", JNum 1)])].

End Scenarios.

(** ** The form of the texts the parsers return *)

Module Normal.
Import Str.

Definition head_space (s : string) : bool :=
  match s with
  | String c _ => is_space c
  | EmptyString => false
  end.

Fixpoint last_space (s : string) : bool :=
  match s with
  | EmptyString => false
  | String c s' =>
      match s' with
      | EmptyString => is_space c
      | String _ _ => last_space s'
      end
  end.

(** No white space at either end. *)
Definition trimmed (s : string) : bool := negb (head_space s) && negb (last_space s).

(** The only white space is the space character, and no two come in a
    row. *)
Fixpoint single_spaced (s : string) : bool :=
  match s with
  | EmptyString => true
  | String c s' =>
      (negb (is_space c) || (Ascii.eqb c " " && negb (head_space s')))
      && single_spaced s'
  end.

(** No two white space characters in a row. *)
Fixpoint no_space_runs (s : string) : bool :=
  match s with
  | EmptyString => true
  | String c s' => negb (is_space c && head_space s') && no_space_runs s'
  end.

(** Two digits, a hyphen, two digits, a hyphen, four digits, and nothing
    else. *)
Definition date_shaped (s : string) : bool :=
  (String.length s =? 10)%nat
  && all is_digit (take 2 s) && String.eqb (take 1 (drop 2 s)) "-"
  && all is_digit (take 2 (drop 3 s)) && String.eqb (take 1 (drop 5 s)) "-"
  && all is_digit (drop 6 s).

(** The text [lit gap date] is a match of
    [/Registered on\s*([\d]{2}-[\d]{2}-[\d]{4})/i]: the words in any case,
    white space or none, and a date. *)
Definition registered_on (lit gap date : string) : Prop :=
  Dom.lower_string lit = "registered on" /\ all is_space gap = true
  /\ date_shaped date = true.

(** A record of [part_001] whose texts are trimmed, whose case number is
    single-spaced and whose date is empty or a date. *)
Definition detail_normal (r : Part001.caseDetail) : bool :=
  trimmed (Part001.serialNumber r) && trimmed (Part001.diaryNumber r)
  && trimmed (Part001.caseNumber r) && single_spaced (Part001.caseNumber r)
  && (is_empty (Part001.registeredOn r) || date_shaped (Part001.registeredOn r))
  && trimmed (Part001.petitionerName r) && trimmed (Part001.respondentName r)
  && trimmed (Part001.status r).

(** A record of [server.js] whose texts are trimmed and whose names hold no
    run of white space. *)
Definition record_normal (r : Server.caseData) : bool :=
  trimmed (Server.serialNumber r) && trimmed (Server.diaryNumber r)
  && negb (is_empty (Server.diaryNumber r))
  && trimmed (Server.caseNumber r)
  && trimmed (Server.petitionerName r) && no_space_runs (Server.petitionerName r)
  && trimmed (Server.respondentName r) && no_space_runs (Server.respondentName r)
  && trimmed (Server.status r).

End Normal.

(** ** The replies of the four endpoints, side by side *)

Module Replies.
Import Js Effects Common.

(** What every reply says: its status, its [success] field, and whether it
    carries [data] and [error]. *)
Record summary := mkSummary {
  code : Z;
  success : bool;
  has_data : bool;
  has_error : bool
}.

Definition is_some {A} (o : option A) : bool :=
  match o with Some _ => true | None => false end.

Definition post_case_details (v : Variants.variant) (lib : library) (w : world)
    (body : list (string * json)) : M summary :=
  match v with
  | Variants.ServerJs =>
      r ← Server.post_case_details lib w body;
      mret (mkSummary (Server.code r) (Server.success r)
              (is_some (Server.data r)) (is_some (Server.error r)))
  | Variants.Server1Js cfg =>
      r ← Server1.post_case_details cfg lib w body;
      mret (mkSummary (Server1.code r) (Server1.success r)
              (is_some (Server1.data r)) (is_some (Server1.error r)))
  | Variants.Part000Js =>
      r ← Part000.post_case_details lib w body;
      mret (mkSummary (Part000.code r) (Part000.success r)
              (is_some (Part000.data r)) (is_some (Part000.error r)))
  | Variants.Part001Js =>
      r ← Part001.post_case_details lib w body;
      mret (mkSummary (Part001.code r) (Part001.success r)
              (is_some (Part001.data r)) (is_some (Part001.error r)))
  end.

End Replies.

(** * Properties *)

#[local] Arguments String.append !_ _ : simpl nomatch.

Section StringFacts.
Import Str.

Lemma append_empty_r (s : string) : s +:+ EmptyString = s.
Proof. induction s as [|c s IH]; simpl; [reflexivity | now rewrite IH]. Qed.

Lemma append_assoc (a b c : string) : (a +:+ b) +:+ c = a +:+ (b +:+ c).
Proof. induction a as [|x a IH]; simpl; [reflexivity | now rewrite IH]. Qed.

Lemma length_append (a b : string) :
  String.length (a +:+ b) = (String.length a + String.length b)%nat.
Proof. induction a as [|x a IH]; simpl; [reflexivity | now rewrite IH]. Qed.

Lemma take_drop_while (p : ascii -> bool) (s : string) :
  take_while p s +:+ drop_while p s = s.
Proof.
  induction s as [|c s IH]; simpl; [reflexivity |].
  destruct (p c); simpl; [now rewrite IH | reflexivity].
Qed.

Lemma all_take_while (p : ascii -> bool) (s : string) : all p (take_while p s) = true.
Proof.
  induction s as [|c s IH]; simpl; [reflexivity |].
  destruct (p c) eqn:E; simpl; [now rewrite E | reflexivity].
Qed.

(** A prefix made of [p]-characters is no longer than the longest one. *)
Lemma prefix_take_while (p : ascii -> bool) (d post : string) :
  all p d = true ->
  (String.length d <= String.length (take_while p (d +:+ post)))%nat.
Proof.
  induction d as [|c d IH]; simpl; intros H; [lia |].
  apply andb_prop in H as [Hc Hd]. rewrite Hc. simpl. specialize (IH Hd). lia.
Qed.

Lemma is_empty_true (s : string) : is_empty s = true <-> s = EmptyString.
Proof. destruct s; simpl; split; congruence. Qed.

Lemma is_empty_false (s : string) : is_empty s = false <-> s <> EmptyString.
Proof. destruct s; simpl; split; congruence. Qed.

End StringFacts.

Section SignedInt.
Import Str Regex Spec.

Lemma signed_int_head (c : ascii) (m' post s : string) :
  signed_int m' -> String c s = m' +:+ post ->
  (is_digit c = true) \/
  (c = "-"%char /\ is_empty (take_while is_digit s) = false).
Proof.
  intros (d & Hd & Hdig & [-> | ->]) Heq.
  - left. destruct d as [|x d]; [congruence |]. simpl in Heq.
    injection Heq as -> _. unfold digits in Hdig. simpl in Hdig.
    now apply andb_prop in Hdig as [? _].
  - right. simpl in Heq. injection Heq as -> ->. split; [reflexivity |].
    destruct d as [|x d]; [congruence |]. unfold digits in Hdig. simpl in Hdig.
    apply andb_prop in Hdig as [Hx _]. simpl. now rewrite Hx.
Qed.

(** A signed integer at offset 0 of a text that starts with a digit, or with
    a minus sign and a digit, is no longer than the match the code takes. *)
Lemma signed_int_at_head_length (c : ascii) (s m' : string) :
  signed_int_at (String c s) 0 m' ->
  (String.length m' <= S (String.length (take_while is_digit s)))%nat.
Proof.
  intros (pre & post & Heq & Hlen & d & Hd & Hdig & Hm).
  destruct pre; [| discriminate]. simpl in Heq.
  destruct Hm as [-> | ->].
  - destruct d as [|x d]; [congruence |]. simpl in Heq. injection Heq as -> ->.
    unfold digits in Hdig. simpl in Hdig. apply andb_prop in Hdig as [_ Hdig].
    simpl. pose proof (prefix_take_while is_digit d post Hdig). lia.
  - simpl in Heq. injection Heq as -> ->.
    simpl. pose proof (prefix_take_while is_digit d post Hdig). lia.
Qed.

Lemma signed_int_at_tail (c : ascii) (s m' : string) (k' : nat) :
  signed_int_at (String c s) (S k') m' -> signed_int_at s k' m'.
Proof.
  intros (pre & post & Heq & Hlen & Hm).
  destruct pre as [|x pre]; [discriminate |]. simpl in Heq, Hlen.
  injection Heq as -> ->. exists pre, post. repeat split; [lia | exact Hm].
Qed.

Lemma signed_int_at_cons (c : ascii) (s m : string) (k : nat) :
  signed_int_at s k m -> signed_int_at (String c s) (S k) m.
Proof.
  intros (pre & post & -> & Hlen & Hm). exists (String c pre), post.
  repeat split; simpl; [lia | exact Hm].
Qed.

Lemma match_signed_int_first (text m : string) :
  match_signed_int text = Some m -> first_signed_int text m.
Proof.
  revert m. induction text as [|c s IH]; simpl; intros m H; [discriminate |].
  destruct (is_digit c) eqn:Hc.
  - injection H as <-. exists 0%nat. split.
    + exists EmptyString, (drop_while is_digit s). simpl.
      rewrite take_drop_while. repeat split.
      exists (String c (take_while is_digit s)). repeat split; [discriminate | | now left].
      unfold digits. simpl. now rewrite Hc, all_take_while.
    + intros k' m' H'. split; [lia |]. intros ->.
      apply signed_int_at_head_length in H'. simpl. exact H'.
  - destruct (Ascii.eqb c "-" && negb (is_empty (take_while is_digit s))) eqn:Hm.
    + injection H as <-. apply andb_prop in Hm as [Hminus Hne].
      apply Ascii.eqb_eq in Hminus. subst c.
      apply negb_true_iff in Hne.
      exists 0%nat. split.
      * exists EmptyString, (drop_while is_digit s). simpl.
        rewrite take_drop_while. repeat split.
        exists (take_while is_digit s). repeat split.
        -- now apply is_empty_false.
        -- apply all_take_while.
        -- now right.
      * intros k' m' H'. split; [lia |]. intros ->.
        apply signed_int_at_head_length in H'. simpl. exact H'.
    + destruct (IH m H) as (k & Hat & Hfirst). exists (S k). split.
      * now apply signed_int_at_cons.
      * intros k' m' H'. destruct k' as [|k'].
        -- exfalso. destruct H' as (pre & post & Heq & Hlen & Hs).
           destruct pre; [| discriminate]. simpl in Heq.
           destruct (signed_int_head c m' post s Hs Heq) as [Hd | [-> Hne]].
           ++ congruence.
           ++ simpl in Hm. rewrite Hne in Hm. discriminate.
        -- apply signed_int_at_tail in H'. destruct (Hfirst k' m' H') as [Hle Hlen].
           split; [lia |]. intros Heq. apply Hlen. lia.
Qed.

Lemma match_signed_int_none (text : string) :
  match_signed_int text = None <-> ~ has_signed_int text.
Proof.
  split.
  - induction text as [|c s IH]; simpl; intros H (k & m & Hat).
    + destruct Hat as (pre & post & Heq & _ & d & Hd & _ & Hm).
      destruct pre; [| discriminate]. simpl in Heq.
      destruct Hm as [-> | ->]; [| discriminate].
      destruct d; [congruence | discriminate].
    + destruct (is_digit c) eqn:Hc; [discriminate |].
      destruct (Ascii.eqb c "-" && negb (is_empty (take_while is_digit s))) eqn:Hm;
        [discriminate |].
      destruct k as [|k].
      * destruct Hat as (pre & post & Heq & Hlen & Hs).
        destruct pre; [| discriminate]. simpl in Heq.
        destruct (signed_int_head c m post s Hs Heq) as [Hd | [-> Hne]].
        -- congruence.
        -- simpl in Hm. rewrite Hne in Hm. discriminate.
      * apply signed_int_at_tail in Hat. apply (IH H). now exists k, m.
  - intros Hno. destruct (match_signed_int text) as [m|] eqn:E; [| reflexivity].
    exfalso. apply Hno. destruct (match_signed_int_first text m E) as (k & Hat & _).
    now exists k, m.
Qed.

Lemma space_not_digit (c : ascii) : is_space c = true -> is_digit c = false.
Proof. destruct c as [[] [] [] [] [] [] [] []]; vm_compute; congruence. Qed.

Lemma space_not_minus (c : ascii) : is_space c = true -> Ascii.eqb c "-" = false.
Proof. destruct c as [[] [] [] [] [] [] [] []]; vm_compute; congruence. Qed.

(** White space around a text holds no signed integer: trimming changes
    neither whether there is one nor which one is first. *)
Lemma match_signed_int_drop_space (s : string) :
  match_signed_int (drop_while is_space s) = match_signed_int s.
Proof.
  induction s as [|c s IH]; simpl; [reflexivity |].
  destruct (is_space c) eqn:Hsp; [| reflexivity].
  now rewrite IH, (space_not_digit c Hsp), (space_not_minus c Hsp).
Qed.

Lemma take_digits_trim_end (s : string) :
  take_while is_digit (trim_end s) = take_while is_digit s.
Proof.
  induction s as [|c s IH]; simpl; [reflexivity |].
  destruct (is_space c && is_empty (trim_end s)) eqn:E.
  - apply andb_prop in E as [Hsp _]. simpl. now rewrite (space_not_digit c Hsp).
  - simpl. now rewrite IH.
Qed.

Lemma match_signed_int_trim_end (s : string) :
  match_signed_int (trim_end s) = match_signed_int s.
Proof.
  induction s as [|c s IH]; simpl; [reflexivity |].
  destruct (is_space c && is_empty (trim_end s)) eqn:E.
  - apply andb_prop in E as [Hsp He]. apply is_empty_true in He.
    rewrite (space_not_digit c Hsp), (space_not_minus c Hsp). simpl.
    rewrite <- IH, He. reflexivity.
  - simpl. now rewrite IH, take_digits_trim_end.
Qed.

Lemma cleanedAnswer_eq (text : string) :
  Common.cleanedAnswer text = match_signed_int text.
Proof.
  unfold Common.cleanedAnswer, trim.
  now rewrite match_signed_int_trim_end, match_signed_int_drop_space.
Qed.

Lemma append_same_length (a b a' b' : string) :
  a +:+ b = a' +:+ b' -> String.length a = String.length a' -> a = a' /\ b = b'.
Proof.
  revert a'. induction a as [|x a IH]; intros [|y a']; simpl; intros H Hl;
    try discriminate; [now split |].
  injection H as -> H. destruct (IH a' H) as [-> ->]; [lia | now split].
Qed.

Lemma first_signed_int_unique (text m1 m2 : string) :
  first_signed_int text m1 -> first_signed_int text m2 -> m1 = m2.
Proof.
  intros (k1 & H1 & F1) (k2 & H2 & F2).
  destruct (F1 k2 m2 H2) as [Hle1 Hlen1]. destruct (F2 k1 m1 H1) as [Hle2 Hlen2].
  assert (k1 = k2) as -> by lia.
  specialize (Hlen1 eq_refl). specialize (Hlen2 eq_refl).
  destruct H1 as (pre1 & post1 & E1 & L1 & _). destruct H2 as (pre2 & post2 & E2 & L2 & _).
  rewrite E1 in E2. apply append_same_length in E2 as [_ E2]; [| lia].
  apply append_same_length in E2 as [E2 _]; [exact E2 | lia].
Qed.

Lemma cleanedAnswer_first (text m : string) :
  Common.cleanedAnswer text = Some m <-> first_signed_int text m.
Proof.
  rewrite cleanedAnswer_eq. split; [apply match_signed_int_first |].
  intros Hm. destruct (match_signed_int text) as [m'|] eqn:E.
  - f_equal. apply (first_signed_int_unique text); [| exact Hm].
    now apply match_signed_int_first.
  - exfalso. apply match_signed_int_none in E. apply E.
    destruct Hm as (k & Hat & _). now exists k, m.
Qed.

Lemma cleanedAnswer_not_empty (text m : string) :
  Common.cleanedAnswer text = Some m -> is_empty m = false.
Proof.
  intros H. apply cleanedAnswer_first in H as (k & (pre & post & _ & _ & d & Hd & _ & Hm) & _).
  destruct Hm as [-> | ->]; [now apply is_empty_false | reflexivity].
Qed.

End SignedInt.

Section Solver.
Import Str Js Effects Common.

Lemma solveCaptchaWithGemini_outcome (w : world) (unclear failed : string)
    (n : nat) (img : string) (st : state) :
  snd (Common.solveCaptchaWithGemini w unclear failed n img st) =
  match generateContent w n img with
  | Return text =>
      match cleanedAnswer text with
      | Some answer => Return answer
      | None => Throw (Error (failed +:+ unclear))
      end
  | Throw e => Throw (Error (failed +:+ err_message e))
  end.
Proof.
  unfold Common.solveCaptchaWithGemini, mbind, M_bind, mret, M_ret, Effects.bind,
    try_catch, emit, lift, throw, Effects.ret. simpl.
  destruct (generateContent w n img) as [text | e]; [| reflexivity].
  destruct (cleanedAnswer text) as [m|] eqn:E; [| reflexivity].
  now rewrite (cleanedAnswer_not_empty text m E).
Qed.

End Solver.

Section Validation.
Import Str Regex Js Effects Common Spec.

Lemma split_not_nil (sep : ascii) (s : string) : split sep s <> [].
Proof.
  destruct s as [|c s]; simpl; [discriminate |].
  destruct (Ascii.eqb c sep); [discriminate |].
  destruct (split sep s); discriminate.
Qed.

Lemma join_split (sep : ascii) (s : string) :
  join (String sep EmptyString) (split sep s) = s.
Proof.
  induction s as [|c s IH]; simpl; [reflexivity |].
  pose proof (split_not_nil sep s) as Hne.
  destruct (Ascii.eqb c sep) eqn:E.
  - apply Ascii.eqb_eq in E. subst c.
    destruct (split sep s) as [|p ps]; [congruence |]. simpl in *. now rewrite IH.
  - destruct (split sep s) as [|p ps]; [congruence |].
    destruct ps; simpl in *; now rewrite <- IH.
Qed.

Lemma split_free (sep : ascii) (s : string) :
  all (fun c => negb (Ascii.eqb c sep)) s = true -> split sep s = [s].
Proof.
  induction s as [|c s IH]; simpl; intros H; [reflexivity |].
  apply andb_prop in H as [Hc Hs]. apply negb_true_iff in Hc. rewrite Hc.
  now rewrite (IH Hs).
Qed.

Lemma split_append (sep : ascii) (a r : string) :
  all (fun c => negb (Ascii.eqb c sep)) a = true ->
  split sep (a +:+ String sep r) = a :: split sep r.
Proof.
  induction a as [|c a IH]; simpl; intros H.
  - now rewrite Ascii.eqb_refl.
  - apply andb_prop in H as [Hc Ha]. apply negb_true_iff in Hc. rewrite Hc.
    now rewrite (IH Ha).
Qed.

Lemma all_weaken (p q : ascii -> bool) (s : string) :
  (forall c, p c = true -> q c = true) -> all p s = true -> all q s = true.
Proof.
  intros Hpq. induction s as [|c s IH]; simpl; [reflexivity |].
  intros H. apply andb_prop in H as [Hc Hs]. now rewrite (Hpq c Hc), (IH Hs).
Qed.

Lemma digit_not_slash (c : ascii) : is_digit c = true -> negb (Ascii.eqb c "/") = true.
Proof. destruct c as [[] [] [] [] [] [] [] []]; vm_compute; congruence. Qed.

Lemma validate_valid (v : Js.value) (d y : string) :
  validate v = Valid d y <->
  v = Some (JStr (d +:+ "/" +:+ y)) /\ d <> EmptyString /\ digits d
  /\ String.length y = 4%nat /\ digits y.
Proof.
  unfold validate, digits. split.
  - destruct v as [[|b|n|s|items|fields]|]; simpl; try discriminate;
      try (destruct b; discriminate); try (destruct (Z.eqb n 0); discriminate).
    destruct (is_empty s) eqn:Es; simpl; [discriminate |].
    pose proof (join_split "/" s) as Hj.
    destruct (split "/" s) as [|p0 [|p1 [|p2 ps]]]; try discriminate.
    unfold test_digits, test_four_digits.
    destruct (negb (is_empty p0) && all is_digit p0) eqn:E0; simpl; [| discriminate].
    destruct ((String.length p1 =? 4)%nat && all is_digit p1) eqn:E1; simpl; [| discriminate].
    intros H. injection H as <- <-. simpl in Hj.
    apply andb_prop in E0 as [E0 E0']. apply andb_prop in E1 as [E1 E1'].
    apply negb_true_iff, is_empty_false in E0. apply Nat.eqb_eq in E1.
    subst s. repeat split; assumption.
  - intros (-> & Hd & Hdig & Hlen & Hy). simpl.
    assert (is_empty (d +:+ String "/" y) = false) as ->.
    { destruct d; [congruence | reflexivity]. }
    simpl. rewrite split_append by (eapply all_weaken; [apply digit_not_slash | exact Hdig]).
    rewrite split_free by (eapply all_weaken; [apply digit_not_slash | exact Hy]).
    unfold test_digits, test_four_digits. rewrite Hdig, Hy, Hlen.
    apply is_empty_false in Hd. rewrite Hd. reflexivity.
Qed.

Lemma validate_accepts (v : Js.value) :
  (exists d y, validate v = Valid d y) <->
  (exists s, v = Some (JStr s) /\ matches_diary_pattern s).
Proof.
  split.
  - intros (d & y & H). apply validate_valid in H as (-> & H).
    eexists. split; [reflexivity |]. exists d, y. now split.
  - intros (s & -> & d & y & -> & H). exists d, y. apply validate_valid. now split.
Qed.

End Validation.

Ltac unfold_M :=
  unfold mbind, M_bind, mret, M_ret, Effects.bind, Effects.ret, Effects.throw,
    Effects.lift, Effects.try_catch, Effects.emit, Common.observe,
    Effects.get_cache, Effects.put_cache in *.

Section TextForms.
Import Str Js Effects Common.

(** A value has a text form, or writing it throws the [TypeError]. *)
Lemma ToString_cases (v : json) :
  if no_text v then ToString v = Throw unprintable
  else exists text, ToString v = Return text.
Proof.
  induction v as [| b | n | s | items IH | fields] using json_array_ind;
    try (simpl; eexists; reflexivity).
  - cbn [ToString no_text].
    set (join_from := fix join_from (first : bool) (l : list json) : outcome string :=
           match l with
           | [] => Return EmptyString
           | x :: l' =>
               match match x with JNull => Return EmptyString | _ => ToString x end with
               | Return text =>
                   match join_from false l' with
                   | Return rest =>
                       Return ((if first then EmptyString else ",") +:+ text +:+ rest)
                   | Throw e => Throw e
                   end
               | Throw e => Throw e
               end
           end).
    generalize true as first.
    induction IH as [| x l Hx _ IHl]; intros first; [simpl; eexists; reflexivity |].
    cbn [existsb]. cbn [join_from]. fold join_from.
    assert (match x with JNull => Return EmptyString | _ => ToString x end
            = if no_text x then Throw unprintable
              else match x with JNull => Return EmptyString | _ => ToString x end) as Hx'.
    { destruct (no_text x) eqn:E; [| reflexivity].
      destruct x; try discriminate; exact Hx. }
    destruct (no_text x) eqn:E; cbn [orb].
    + now rewrite Hx'.
    + assert (exists text,
                match x with JNull => Return EmptyString | _ => ToString x end
                = Return text) as [text ->]
        by (destruct x; try exact Hx; eexists; reflexivity).
      specialize (IHl false). destruct (existsb no_text l).
      * now rewrite IHl.
      * destruct IHl as [rest ->]. eexists. reflexivity.
  - simpl. destruct (field "toString" fields); [reflexivity | eexists; reflexivity].
Qed.

Lemma template_cases (v : Js.value) :
  match v with
  | Some j =>
      if no_text j then template v = Throw unprintable
      else exists text, template v = Return text
  | None => template v = Return "undefined"
  end.
Proof. destruct v as [j|]; [apply ToString_cases | reflexivity]. Qed.

Lemma template_returns (v : Js.value) :
  (exists text, template v = Return text) <-> printable v = true.
Proof.
  pose proof (template_cases v) as H. destruct v as [j|]; cbn [printable].
  - destruct (no_text j); split; try discriminate; trivial.
    intros [text Ht]. rewrite H in Ht. discriminate.
  - split; [reflexivity | eauto].
Qed.

Lemma template_throws (v : Js.value) :
  printable v = false -> template v = Throw unprintable.
Proof.
  pose proof (template_cases v) as H. destruct v as [j|]; cbn [printable]; [| discriminate].
  destruct (no_text j); [trivial | discriminate].
Qed.

(** An accepted [diaryData] is a string that is not empty: the lines
    written before the validation put it as it is. *)
Lemma valid_is_string (v : Js.value) (d y : string) :
  validate v = Valid d y -> v = Some (JStr (d +:+ "/" +:+ y)) /\ truthy v = true.
Proof.
  intros H. apply validate_valid in H as (-> & Hd & _). split; [reflexivity |].
  destruct d; [congruence | reflexivity].
Qed.

Lemma requestIdentifier_valid (w : world) (v : Js.value) (d y : string) :
  validate v = Valid d y ->
  Server1.requestIdentifier w v
  = Return ("req_" +:+ of_Z (date_now w 0 2) +:+ "_" +:+ (d +:+ "/" +:+ y)).
Proof.
  intros H. destruct (valid_is_string v d y H) as [-> Ht].
  unfold Server1.requestIdentifier. rewrite Ht. reflexivity.
Qed.

Lemma callStart_valid (w : world) (v : Js.value) (d y : string) :
  validate v = Valid d y -> exists line, Part000.callStart w v = Return line.
Proof.
  intros H. destruct (valid_is_string v d y H) as [-> Ht].
  unfold Part000.callStart, Part000.requestIdentifierLog. rewrite Ht.
  eexists. reflexivity.
Qed.

End TextForms.

Section Handlers.
Import Str Js Effects Common.
Context (lib : library) (w : world).

(** An error thrown by the lines before the validation leaves the handler:
    nothing has been sent, nothing has been done. *)
Lemma server1_escapes cfg body e st :
  Server1.requestIdentifier w (field "diaryData" body) = Throw e ->
  Server1.post_case_details cfg lib w body st = (st, Throw e).
Proof. intros H. unfold Server1.post_case_details. rewrite H. reflexivity. Qed.

Lemma part000_escapes body e st :
  Part000.callStart w (field "diaryData" body) = Throw e ->
  Part000.post_case_details lib w body st = (st, Throw e).
Proof. intros H. unfold Part000.post_case_details. rewrite H. reflexivity. Qed.

Lemma part001_escapes body e st :
  Part000.callStart w (field "diaryData" body) = Throw e ->
  Part001.post_case_details lib w body st = (st, Throw e).
Proof. intros H. unfold Part001.post_case_details. rewrite H. reflexivity. Qed.

(** A rejected body is answered 400 at once: the state is left as it is. *)
Lemma server_invalid body message st :
  validate (field "diaryData" body) = Invalid message ->
  exists r, Server.post_case_details lib w body st = (st, Return r)
            /\ Server.code r = 400
            /\ Server.timeTakenMs r = calculateTimeTaken (hrtime w).
Proof.
  intros H. unfold Server.post_case_details. rewrite H. unfold_M.
  eexists. repeat split.
Qed.

Lemma server1_invalid cfg body message text st :
  validate (field "diaryData" body) = Invalid message ->
  Server1.requestIdentifier w (field "diaryData" body) = Return text ->
  exists r, Server1.post_case_details cfg lib w body st = (st, Return r)
            /\ Server1.code r = 400
            /\ Server1.timeTakenMs r = calculateTimeTaken (hrtime w).
Proof.
  intros H Ht. unfold Server1.post_case_details. rewrite H, Ht. unfold_M.
  eexists. repeat split.
Qed.

Lemma part000_invalid body message text st :
  validate (field "diaryData" body) = Invalid message ->
  Part000.callStart w (field "diaryData" body) = Return text ->
  exists r, Part000.post_case_details lib w body st = (st, Return r)
            /\ Part000.code r = 400
            /\ Part000.timeTakenMs r = calculateTimeTaken (hrtime w).
Proof.
  intros H Ht. unfold Part000.post_case_details. rewrite H, Ht. unfold_M.
  eexists. repeat split.
Qed.

Lemma part001_invalid body message text st :
  validate (field "diaryData" body) = Invalid message ->
  Part000.callStart w (field "diaryData" body) = Return text ->
  exists r, Part001.post_case_details lib w body st = (st, Return r)
            /\ Part001.code r = 400
            /\ Part001.timeTakenMs r = calculateTimeTaken (hrtime w).
Proof.
  intros H Ht. unfold Part001.post_case_details. rewrite H, Ht. unfold_M.
  eexists. repeat split.
Qed.

(** An accepted body starts the lookup for its two parts, and the reply is
    written from what the lookup gives. *)
Lemma server_valid body d y st :
  validate (field "diaryData" body) = Valid d y ->
  exists r, Server.post_case_details lib w body st
            = (fst (Server.getCaseDetailsProcess lib w d y st), Return r)
    /\ Server.timeTakenMs r = calculateTimeTaken (hrtime w)
    /\ match snd (Server.getCaseDetailsProcess lib w d y st) with
       | Return v => Server.code r = 200 /\ Server.success r = true
                     /\ Server.data r = Some v
       | Throw e => Server.code r = 500 /\ Server.success r = false
                    /\ Server.error r
                       = Some ("Failed to retrieve case details: " +:+ err_message e)
       end.
Proof.
  intros H. unfold Server.post_case_details. rewrite H. unfold_M.
  destruct (Server.getCaseDetailsProcess lib w d y st) as [st' [v | e]]; simpl;
    eexists; repeat split.
Qed.

Lemma part000_valid body d y st :
  validate (field "diaryData" body) = Valid d y ->
  exists r, Part000.post_case_details lib w body st
            = (fst (Part000.getCaseDetailsProcess lib w d y st), Return r)
    /\ Part000.timeTakenMs r = calculateTimeTaken (hrtime w)
    /\ match snd (Part000.getCaseDetailsProcess lib w d y st) with
       | Return v => Part000.code r = 200 /\ Part000.success r = true
                     /\ Part000.data r = Some v
       | Throw e => Part000.code r = 500 /\ Part000.success r = false
                    /\ Part000.error r
                       = Some ("Failed to retrieve case details: " +:+ err_message e)
       end.
Proof.
  intros H. destruct (callStart_valid w _ d y H) as [line Hl].
  unfold Part000.post_case_details. rewrite H, Hl. unfold_M.
  destruct (Part000.getCaseDetailsProcess lib w d y st) as [st' [v | e]]; simpl;
    eexists; repeat split.
Qed.

Lemma server1_valid cfg body d y st :
  validate (field "diaryData" body) = Valid d y ->
  exists r st',
    Server1.post_case_details cfg lib w body st = (st', Return r)
    /\ trace st' = trace (fst (Server1.getCaseDetailsProcess cfg lib w d y st))
    /\ Server1.timeTakenMs r = calculateTimeTaken (hrtime w)
    /\ match snd (Server1.getCaseDetailsProcess cfg lib w d y st) with
       | Return v => Server1.code r = 200 /\ Server1.success r = true
                     /\ Server1.data r = Some v
       | Throw e => Server1.code r = 500 /\ Server1.success r = false
                    /\ Server1.error r
                       = Some ("Failed to retrieve case details: " +:+ err_message e)
       end.
Proof.
  intros H. unfold Server1.post_case_details.
  rewrite H, (requestIdentifier_valid w _ d y H). unfold_M.
  destruct (Server1.getCaseDetailsProcess cfg lib w d y st) as [st' [v | e]]; simpl.
  - destruct (NodeCache.has _ _ _) as [has c']. simpl.
    eexists _, _. repeat split.
  - eexists _, _. repeat split.
Qed.

End Handlers.

(** ** The retry loop *)

Section Quiet.
Import Js Effects Common Spec.

Lemma control_app (a b : list event) : control (a ++ b) = control a ++ control b.
Proof. unfold control. apply filter_app. Qed.

Lemma quiet_ret {A} (a : A) : quiet (Effects.ret a).
Proof. intros st. reflexivity. Qed.

Lemma quiet_throw {A} (e : js_error) : quiet (@Effects.throw A e).
Proof. intros st. reflexivity. Qed.

Lemma quiet_lift {A} (o : outcome A) : quiet (lift o).
Proof. intros st. reflexivity. Qed.

Lemma quiet_get_cache : quiet get_cache.
Proof. intros st. reflexivity. Qed.

Lemma quiet_put_cache c : quiet (put_cache c).
Proof. intros st. reflexivity. Qed.

Lemma quiet_emit_fetch url : quiet (emit (EvFetch url)).
Proof. intros st. simpl. rewrite control_app. simpl. apply app_nil_r. Qed.

Lemma quiet_emit_solve image : quiet (emit (EvSolve image)).
Proof. intros st. simpl. rewrite control_app. simpl. apply app_nil_r. Qed.

Lemma quiet_bind {A B} (m : M A) (k : A -> M B) :
  quiet m -> (forall a, quiet (k a)) -> quiet (Effects.bind m k).
Proof.
  intros Hm Hk st. unfold Effects.bind. specialize (Hm st).
  destruct (m st) as [st' [a | e]]; simpl in *; [| exact Hm].
  now rewrite (Hk a st').
Qed.

Lemma quiet_try_catch {A} (m : M A) (h : js_error -> M A) :
  quiet m -> (forall e, quiet (h e)) -> quiet (try_catch m h).
Proof.
  intros Hm Hh st. unfold try_catch. specialize (Hm st).
  destruct (m st) as [st' [a | e]]; simpl in *; [exact Hm |].
  now rewrite (Hh e st').
Qed.

End Quiet.

Import Spec.

Create HintDb quiet.
#[local] Hint Resolve quiet_ret quiet_throw quiet_lift quiet_get_cache quiet_put_cache
  quiet_emit_fetch quiet_emit_solve : quiet.

Ltac quiet_step :=
  match goal with
  | |- quiet (Effects.bind _ _) => apply quiet_bind; [| intros]
  | |- quiet (Effects.try_catch _ _) => apply quiet_try_catch; [| intros]
  | |- quiet (if ?b then _ else _) => destruct b
  | |- quiet (match ?x with _ => _ end) => destruct x
  | |- quiet (let '(_, _) := ?x in _) => destruct x
  | |- quiet _ => solve [auto with quiet]
  end.

Ltac quiet_tac := unfold mbind, M_bind, mret, M_ret; repeat quiet_step.

Section QuietCycles.
Import Js Effects Common Spec.
Context (lib : library) (w : world).

Lemma quiet_solve unclear failed n img :
  quiet (Common.solveCaptchaWithGemini w unclear failed n img).
Proof. unfold Common.solveCaptchaWithGemini. quiet_tac. Qed.

Lemma quiet_server_cycle d y n : quiet (Server.cycle lib w d y n).
Proof.
  unfold Server.cycle, Server.fetchHtml, Server.fetchImageBuffer,
    Server.solveCaptchaWithGemini.
  quiet_tac; apply quiet_solve.
Qed.

Lemma quiet_part000_cycle d y n : quiet (Part000.cycle lib w d y n).
Proof.
  unfold Part000.cycle, Part000.fetchHtml, Part000.fetchImageBuffer,
    Part000.solveCaptchaWithGemini.
  quiet_tac; apply quiet_solve.
Qed.

Lemma quiet_server1_cycle cfg d y n : quiet (Server1.cycle cfg lib w d y n).
Proof.
  unfold Server1.cycle, Server1.fetchHtml, Server1.fetchImageBuffer,
    Server1.solveCaptchaWithGemini, Server1.on_abort.
  quiet_tac; apply quiet_solve.
Qed.

End QuietCycles.

Section RetryLoop.
Import Js Effects Common Spec.
Context {A : Type} (MAX_ATTEMPTS : nat) (delay : nat -> Float.number) (cycle : nat -> M A).

Lemma retry_loop_returns remaining attempts e st v :
  snd (cycle (S attempts) st) = Return v ->
  retry_loop MAX_ATTEMPTS delay cycle (S remaining) attempts e st
  = (fst (cycle (S attempts) st), Return v).
Proof.
  intros H. simpl. unfold_M.
  destruct (cycle (S attempts) st) as [st' o]. simpl in *. now subst o.
Qed.

Lemma retry_loop_fails remaining attempts e st error :
  snd (cycle (S attempts) st) = Throw error ->
  retry_loop MAX_ATTEMPTS delay cycle (S remaining) attempts e st
  = retry_loop MAX_ATTEMPTS delay cycle remaining (S attempts) error
      (after_failure MAX_ATTEMPTS delay (S attempts) error (fst (cycle (S attempts) st))).
Proof.
  intros H. simpl. unfold_M. unfold Spec.after_failure.
  destruct (cycle (S attempts) st) as [st' o]. simpl in *. subst o. simpl.
  destruct (S attempts <? MAX_ATTEMPTS)%nat; reflexivity.
Qed.

Lemma failures_from_app err a r :
  failures MAX_ATTEMPTS delay err a ++ failures_from MAX_ATTEMPTS delay err a r
  = failures MAX_ATTEMPTS delay err (a + r).
Proof.
  revert a. induction r as [|r IH]; intros a; simpl.
  - now rewrite app_nil_r, Nat.add_0_r.
  - replace (a + S r)%nat with (S a + r)%nat by lia. rewrite <- IH. simpl.
    rewrite <- !app_assoc. reflexivity.
Qed.

Lemma failures_from_zero err r :
  failures_from MAX_ATTEMPTS delay err 0 r = failures MAX_ATTEMPTS delay err r.
Proof. exact (failures_from_app err 0 r). Qed.

Lemma control_after_failure attempts error st :
  control (trace (after_failure MAX_ATTEMPTS delay attempts error st))
  = control (trace st) ++ EvAttemptFailed attempts error
      :: (if (attempts <? MAX_ATTEMPTS)%nat then [EvSleep (delay attempts)] else []).
Proof.
  unfold Spec.after_failure. destruct (attempts <? MAX_ATTEMPTS)%nat; simpl;
    rewrite !control_app; simpl; rewrite <- ?app_assoc; reflexivity.
Qed.

Hypothesis cycle_quiet : forall n, quiet (cycle n).

(** The loop only adds to the control events. *)
Lemma retry_loop_extends remaining attempts e st :
  exists rest,
    control (trace (fst (retry_loop MAX_ATTEMPTS delay cycle remaining attempts e st)))
    = control (trace st) ++ rest.
Proof.
  revert attempts e st. induction remaining as [|r IH]; intros attempts e st.
  - exists []. simpl. now rewrite app_nil_r.
  - destruct (snd (cycle (S attempts) st)) as [v | error] eqn:E.
    + rewrite (retry_loop_returns r attempts e st v E). simpl.
      exists []. now rewrite app_nil_r, cycle_quiet.
    + rewrite (retry_loop_fails r attempts e st error E).
      destruct (IH (S attempts) error
                  (after_failure MAX_ATTEMPTS delay (S attempts) error (fst (cycle (S attempts) st))))
        as [rest Hrest].
      rewrite Hrest, control_after_failure, cycle_quiet, <- app_assoc.
      eexists. reflexivity.
Qed.

(** When the attempts [attempts + 1 .. attempts + k] fail, the loop logs
    each of them and waits after each one that is not the last the loop
    may make. *)
Lemma retry_loop_prefix err k remaining attempts e st :
  (k <= remaining)%nat ->
  (forall n st', (attempts < n <= attempts + k)%nat -> snd (cycle n st') = Throw (err n)) ->
  exists rest,
    control (trace (fst (retry_loop MAX_ATTEMPTS delay cycle remaining attempts e st)))
    = control (trace st) ++ failures_from MAX_ATTEMPTS delay err attempts k ++ rest.
Proof.
  revert remaining attempts e st.
  induction k as [|k IH]; intros remaining attempts e st Hk Hfail.
  - simpl. apply retry_loop_extends.
  - destruct remaining as [|r]; [lia |].
    rewrite (retry_loop_fails r attempts e st (err (S attempts)))
      by (apply Hfail; lia).
    destruct (IH r (S attempts) (err (S attempts))
                (after_failure MAX_ATTEMPTS delay (S attempts) (err (S attempts))
                   (fst (cycle (S attempts) st)))) as [rest Hrest]; [lia | |].
    { intros n st' Hn. apply Hfail. lia. }
    exists rest. rewrite Hrest, control_after_failure, cycle_quiet. simpl.
    rewrite <- !app_assoc. reflexivity.
Qed.

(** When all the attempts the loop has left fail, it makes them all, logs
    each, waits after each but the last, and throws the last error. *)
Lemma retry_loop_exhausted err remaining attempts e st :
  (attempts + remaining = MAX_ATTEMPTS)%nat ->
  (forall n st', (attempts < n <= MAX_ATTEMPTS)%nat -> snd (cycle n st') = Throw (err n)) ->
  control (trace (fst (retry_loop MAX_ATTEMPTS delay cycle remaining attempts e st)))
  = control (trace st) ++ failures_from MAX_ATTEMPTS delay err attempts remaining
  /\ snd (retry_loop MAX_ATTEMPTS delay cycle remaining attempts e st)
     = Throw (match remaining with O => e | S _ => err MAX_ATTEMPTS end).
Proof.
  revert attempts e st.
  induction remaining as [|r IH]; intros attempts e st Hsum Hfail.
  - simpl. now rewrite app_nil_r.
  - rewrite (retry_loop_fails r attempts e st (err (S attempts)))
      by (apply Hfail; lia).
    destruct (IH (S attempts) (err (S attempts))
                (after_failure MAX_ATTEMPTS delay (S attempts) (err (S attempts))
                   (fst (cycle (S attempts) st)))) as [Htr Hres]; [lia | |].
    { intros n st' Hn. apply Hfail. lia. }
    split.
    + rewrite Htr, control_after_failure, cycle_quiet. simpl.
      rewrite <- !app_assoc. reflexivity.
    + rewrite Hres. destruct r; [| reflexivity].
      f_equal. f_equal. lia.
Qed.

Lemma retry_exhausted err st :
  (forall n st', (1 <= n <= MAX_ATTEMPTS)%nat -> snd (cycle n st') = Throw (err n)) ->
  control (trace (fst (retry MAX_ATTEMPTS delay cycle st)))
  = control (trace st) ++ failures MAX_ATTEMPTS delay err MAX_ATTEMPTS
  /\ snd (retry MAX_ATTEMPTS delay cycle st)
     = Throw (match MAX_ATTEMPTS with
              | O => Error "Process not attempted."
              | S _ => err MAX_ATTEMPTS
              end).
Proof.
  intros Hfail. unfold retry.
  destruct (retry_loop_exhausted err MAX_ATTEMPTS 0 (Error "Process not attempted.") st)
    as [Htr Hres]; [lia | |].
  { intros n st' Hn. apply Hfail. lia. }
  now rewrite Htr, Hres, failures_from_zero.
Qed.

(** The state the loop ends in when all its attempts fail. *)
Lemma retry_loop_failed_run err remaining attempts e st :
  (attempts + remaining = MAX_ATTEMPTS)%nat ->
  (forall n st', (attempts < n <= MAX_ATTEMPTS)%nat -> snd (cycle n st') = Throw (err n)) ->
  fst (retry_loop MAX_ATTEMPTS delay cycle remaining attempts e
         (failed_run MAX_ATTEMPTS delay cycle err attempts st))
  = failed_run MAX_ATTEMPTS delay cycle err MAX_ATTEMPTS st.
Proof.
  revert attempts e.
  induction remaining as [|r IH]; intros attempts e Hsum Hfail.
  - simpl. f_equal. lia.
  - rewrite (retry_loop_fails r attempts e _ (err (S attempts)))
      by (apply Hfail; lia).
    apply (IH (S attempts)); [lia |].
    intros n st' Hn. apply Hfail. lia.
Qed.

Lemma retry_failed_run err st :
  (forall n st', (1 <= n <= MAX_ATTEMPTS)%nat -> snd (cycle n st') = Throw (err n)) ->
  fst (retry MAX_ATTEMPTS delay cycle st)
  = failed_run MAX_ATTEMPTS delay cycle err MAX_ATTEMPTS st.
Proof.
  intros Hfail. unfold retry.
  apply (retry_loop_failed_run err MAX_ATTEMPTS 0 (Error "Process not attempted.") st);
    [lia |].
  intros n st' Hn. apply Hfail. lia.
Qed.

Lemma retry_prefix err k st :
  (k <= MAX_ATTEMPTS)%nat ->
  (forall n st', (1 <= n <= k)%nat -> snd (cycle n st') = Throw (err n)) ->
  exists rest,
    control (trace (fst (retry MAX_ATTEMPTS delay cycle st)))
    = control (trace st) ++ failures MAX_ATTEMPTS delay err k ++ rest.
Proof.
  intros Hk Hfail. unfold retry.
  destruct (retry_loop_prefix err k MAX_ATTEMPTS 0 (Error "Process not attempted.") st)
    as [rest Hrest]; [lia | |].
  { intros n st' Hn. apply Hfail. lia. }
  exists rest. now rewrite Hrest, failures_from_zero.
Qed.

End RetryLoop.

(** ** The request composer *)

Section QueryString.
Import Str URLSearchParams Common.

Lemma encode_char_plain (c : ascii) : all plain_char (encode_char c) = true.
Proof. destruct c as [[] [] [] [] [] [] [] []]; reflexivity. Qed.

Lemma all_append (p : ascii -> bool) (a b : string) :
  all p (a +:+ b) = all p a && all p b.
Proof.
  induction a as [|c a IH]; simpl; [reflexivity |].
  now rewrite IH, andb_assoc.
Qed.

Lemma encode_plain (s : string) : all plain_char (encode s) = true.
Proof.
  induction s as [|c s IH]; simpl; [reflexivity |].
  now rewrite all_append, encode_char_plain, IH.
Qed.

Lemma cut_at_append (sep : ascii) (a b : string) :
  all (fun c => negb (Ascii.eqb c sep)) a = true ->
  cut_at sep (a +:+ String sep b) = (a, b).
Proof.
  induction a as [|c a IH]; simpl; intros H.
  - now rewrite Ascii.eqb_refl.
  - apply andb_prop in H as [Hc Ha]. apply negb_true_iff in Hc.
    now rewrite Hc, (IH Ha).
Qed.

Lemma split_join (sep : ascii) (l : list string) :
  l <> [] ->
  Forall (fun s => all (fun c => negb (Ascii.eqb c sep)) s = true) l ->
  split sep (join (String sep EmptyString) l) = l.
Proof.
  induction l as [|x l IH]; intros Hne Hall; [congruence |].
  inversion Hall as [|? ? Hx Hl]; subst.
  destruct l as [|y l]; simpl.
  - now apply split_free.
  - change (String sep EmptyString +:+ ?r) with (String sep r).
    rewrite split_append by exact Hx. f_equal. apply IH; [discriminate | exact Hl].
Qed.

Lemma encode_pair_free (p : string * string) :
  all (fun c => negb (Ascii.eqb c "&")) (encode_pair p) = true.
Proof.
  unfold encode_pair. rewrite !all_append. simpl.
  rewrite !(all_weaken plain_char _ _ (fun c H => proj1 (andb_prop _ _ H)) (encode_plain _)).
  reflexivity.
Qed.

Lemma cut_encode_pair (p : string * string) :
  cut_at "=" (encode_pair p) = (encode (fst p), encode (snd p)).
Proof.
  unfold encode_pair. apply cut_at_append.
  apply (all_weaken plain_char); [| apply encode_plain].
  intros c H. now apply andb_prop in H as [_ ?].
Qed.

Lemma append_not_empty (a : string) (c : ascii) (b : string) :
  a +:+ String c b <> EmptyString.
Proof. destruct a; discriminate. Qed.

Lemma toString_not_empty (p : string * string) (ps : list (string * string)) :
  toString (p :: ps) <> EmptyString.
Proof.
  unfold toString. destruct ps as [|q ps]; simpl.
  - unfold encode_pair. apply append_not_empty.
  - apply append_not_empty.
Qed.

Lemma fields_toString (ps : t) :
  fields (toString ps) = map (fun p => (encode (fst p), encode (snd p))) ps.
Proof.
  destruct ps as [|p ps]; [reflexivity |].
  unfold fields. pose proof (toString_not_empty p ps) as Hne.
  destruct (toString (p :: ps)) eqn:E; [congruence |]. rewrite <- E.
  unfold toString. rewrite split_join.
  - rewrite map_map. apply map_ext. intros q. apply cut_encode_pair.
  - discriminate.
  - generalize (p :: ps). intros l.
    induction l; simpl; constructor; [apply encode_pair_free | assumption].
Qed.

Lemma decode_bytes_encode_char (c : ascii) (r : string) :
  decode_bytes (encode_char c +:+ r) = utf8 c ++ decode_bytes r.
Proof. destruct c as [[] [] [] [] [] [] [] []]; reflexivity. Qed.

Lemma utf8_decode_utf8 (c : ascii) (bs : list N) :
  utf8_decode (utf8 c ++ bs) = String c (utf8_decode bs).
Proof. destruct c as [[] [] [] [] [] [] [] []]; reflexivity. Qed.

Lemma decode_encode (s : string) : decode (encode s) = s.
Proof.
  unfold decode. induction s as [|c s IH]; simpl; [reflexivity |].
  now rewrite decode_bytes_encode_char, utf8_decode_utf8, IH.
Qed.

(** The query string carries the pairs it was built from, all of them and
    in order. *)
Lemma parse_toString (ps : t) : parse (toString ps) = ps.
Proof.
  unfold parse. rewrite fields_toString, map_map.
  rewrite <- (map_id ps) at 2. apply map_ext. intros [k v].
  unfold decode_pair. simpl. now rewrite !decode_encode.
Qed.

Lemma query_of_buildFinalUrl d y scid tok answer :
  query_of (buildFinalUrl d y scid tok answer)
  = toString (finalParams d y scid tok answer).
Proof. reflexivity. Qed.

End QueryString.

(** ** The markup extractor *)

Section Token.
Import Str Dom Js Effects Common.

Lemma starts_with_not_empty (p : string) (c : ascii) (s : string) :
  starts_with (String c p) s = true -> is_empty s = false.
Proof. destruct s; simpl; [discriminate | reflexivity]. Qed.

Lemma matches_single (c : compound) (it : item) :
  matches [c] it = true -> c (snd it) = true.
Proof.
  unfold matches. simpl. intros H. apply andb_prop in H as [H _]. exact H.
Qed.

Lemma select_head_matches (doc : document) (sel : selector) (it : item) (rest : list item) :
  select doc sel = it :: rest -> matches sel it = true.
Proof.
  unfold select. intros H.
  assert (it ∈ filter (fun it => matches sel it) (walk [] doc 1)) as Hin
    by (rewrite H; left).
  apply list_elem_of_filter in Hin as [Hm _]. now apply Is_true_true in Hm.
Qed.

(** An element the token selector matches has a name that starts with
    [tok_], and its [value] is what its attribute says. *)
Lemma token_input_attrs (e : element) :
  both (tag_is "input") (both (attr_is_ci "type" "hidden") (attr_starts "name" "tok_")) e
  = true ->
  (exists n, attr_lookup "name" (el_attrs e) = Some n
             /\ attr_of e "name" = Some n /\ starts_with "tok_" n = true
             /\ is_empty n = false)
  /\ attr_of e "value" = attr_lookup "value" (el_attrs e).
Proof.
  unfold both, attr_is_ci, attr_starts, attr_of, attr_is. intros H.
  apply andb_prop in H as [_ H]. apply andb_prop in H as [Hty Hname].
  split.
  - destruct (attr_lookup "name" (el_attrs e)) as [n|]; [| discriminate].
    simpl in Hname. exists n. repeat split; [exact Hname |].
    now apply (starts_with_not_empty "ok_" "t").
  - destruct (attr_lookup "value" (el_attrs e)); [reflexivity |].
    destruct (attr_lookup "type" (el_attrs e)) as [ty|]; [| discriminate].
    destruct (String.eqb ty "radio") eqn:Er.
    { apply String.eqb_eq in Er. subst ty. vm_compute in Hty. discriminate. }
    destruct (String.eqb ty "checkbox") eqn:Ec.
    { apply String.eqb_eq in Ec. subst ty. vm_compute in Hty. discriminate. }
    now rewrite !andb_false_r.
Qed.

(** What [extractToken] gives, read off the first element the selector
    matches. *)
Lemma extractToken_cases (lib : library) (message html : string) :
  match select (cheerio_load lib html) token_selector with
  | [] => Common.extractToken lib message html = Throw (Error message)
  | first :: _ =>
      exists n, attr_lookup "name" (el_attrs (snd first)) = Some n
                /\ starts_with "tok_" n = true /\ n <> EmptyString
                /\ Common.extractToken lib message html
                   = match attr_lookup "value" (el_attrs (snd first)) with
                     | Some v => if is_empty v then Throw (Error message)
                                 else Return (mkToken n v)
                     | None => Throw (Error message)
                     end
  end.
Proof.
  unfold Common.extractToken.
  destruct (select (cheerio_load lib html) token_selector) as [|first rest] eqn:E;
    [reflexivity |].
  apply select_head_matches, matches_single, token_input_attrs in E
    as [(n & Hl & Hn & Hpre & Hne) Hv].
  simpl. rewrite Hn, Hv.
  exists n. repeat split.
  - exact Hl.
  - exact Hpre.
  - now apply is_empty_false.
  - destruct (attr_lookup "value" (el_attrs (snd first))) as [v|]; [| reflexivity].
    simpl. rewrite Hne. simpl. destruct (is_empty v); reflexivity.
Qed.

End Token.

(** ** The orchestrator of the four variants *)

Section Orchestrator.
Import Str Js Effects Common Variants.
Context (lib : library) (w : world).

Lemma quiet_cycle v d y n : quiet (Variants.cycle v lib w d y n).
Proof.
  destruct v; simpl;
    [apply quiet_server_cycle | apply quiet_server1_cycle
     | apply quiet_part000_cycle | apply quiet_part000_cycle].
Qed.

(** Past the cache check, a lookup is the retry loop over the cycles. *)
Lemma lookup_is_retry v d y st :
  cache_miss v w d y st ->
  exists st0,
    st0 = after_cache_check v w d y st /\
    trace st0 = trace st /\
    Variants.getCaseDetailsProcess v lib w d y st
    = retry (Variants.MAX_ATTEMPTS v) (Variants.delaySeconds v w)
        (Variants.cycle v lib w d y) st0.
Proof.
  destruct v as [|cfg| |]; simpl; intros Hmiss;
    try (exists st; repeat split; reflexivity).
  unfold Server1.getCaseDetailsProcess. unfold_M.
  destruct (NodeCache.get (date_now w 0 0) (Server1.cacheKey d y) (cache st))
    as [cachedData c'] eqn:E.
  simpl in *. rewrite Hmiss. eexists. repeat split.
Qed.

Lemma sleeps_app (a b : list event) : sleeps (a ++ b) = sleeps a ++ sleeps b.
Proof.
  induction a as [|ev a IH]; simpl; [reflexivity |].
  destruct ev; simpl; now rewrite IH.
Qed.

Lemma failed_attempts_app (a b : list event) :
  failed_attempts (a ++ b) = (failed_attempts a + failed_attempts b)%nat.
Proof.
  induction a as [|ev a IH]; simpl; [reflexivity |].
  destruct ev; simpl; now rewrite IH.
Qed.

Lemma failed_attempts_failures M delay err k :
  failed_attempts (failures M delay err k) = k.
Proof.
  induction k as [|k IH]; simpl; [reflexivity |].
  rewrite failed_attempts_app, IH. simpl.
  destruct (S k <? M)%nat; simpl; lia.
Qed.

Lemma sleeps_failures M delay err k :
  sleeps (failures M delay err k) = map delay (seq 1 (Nat.min k (M - 1))).
Proof.
  induction k as [|k IH]; simpl failures; [reflexivity |].
  rewrite sleeps_app, IH.
  destruct (S k <? M)%nat eqn:E; cbn [sleeps app].
  - apply Nat.ltb_lt in E.
    replace (Nat.min (S k) (M - 1)) with (S k) by lia.
    replace (Nat.min k (M - 1)) with k by lia.
    rewrite seq_S, map_app. reflexivity.
  - apply Nat.ltb_ge in E.
    replace (Nat.min (S k) (M - 1)) with (Nat.min k (M - 1)) by lia.
    now rewrite app_nil_r.
Qed.

Lemma failures_last M delay err :
  failures (S M) delay err (S M)
  = failures (S M) delay err M ++ [EvAttemptFailed (S M) (err (S M))].
Proof. simpl. now rewrite Nat.ltb_irrefl. Qed.

End Orchestrator.

(** ** What an attempt that returns has been through *)

Section Returns.
Import Str Dom Js Effects Common Variants.

Lemma bind_returns {A B} (m : M A) (k : A -> M B) (st : state) (b : B) :
  snd (Effects.bind m k st) = Return b ->
  exists a st', m st = (st', Return a) /\ snd (k a st') = Return b.
Proof.
  unfold Effects.bind. destruct (m st) as [st' [a | e]]; simpl; [eauto | discriminate].
Qed.

Lemma try_catch_returns {A} (m : M A) (h : js_error -> M A) (st : state) (a : A) :
  (forall e st', snd (h e st') <> Return a) ->
  snd (try_catch m h st) = Return a -> snd (m st) = Return a.
Proof.
  intros Hh. unfold try_catch. destruct (m st) as [st' [a' | e]]; simpl; [auto |].
  intros H. now apply Hh in H.
Qed.

Lemma on_abort_throws {A} (message : string) (e : js_error) (st : state) (a : A) :
  snd (Server1.on_abort message e st) <> Return a.
Proof. unfold Server1.on_abort. destruct (String.eqb _ _); discriminate. Qed.

Lemma solve_returns (w : world) (unclear failed : string) (n : nat) (image : string)
    (st st' : state) (answer : string) :
  Common.solveCaptchaWithGemini w unclear failed n image st = (st', Return answer) ->
  exists text, generateContent w n image = Return text
               /\ cleanedAnswer text = Some answer.
Proof.
  intros H. pose proof (solveCaptchaWithGemini_outcome w unclear failed n image st) as Ho.
  rewrite H in Ho. simpl in Ho.
  destruct (generateContent w n image) as [text | e]; [| discriminate].
  destruct (cleanedAnswer text) as [m|] eqn:E; [| discriminate].
  injection Ho as ->. eauto.
Qed.

End Returns.

Ltac returns H :=
  repeat match type of H with
         | snd (Effects.bind _ _ _) = Js.Return _ =>
             let a := fresh "a" in
             let st' := fresh "st" in
             let Hm := fresh "Hm" in
             apply bind_returns in H as (a & st' & Hm & H); cbv beta in H
         | snd (Effects.try_catch _ _ _) = Js.Return _ =>
             apply try_catch_returns in H; [| intros; apply on_abort_throws]
         | snd ((if ?b then _ else _) _) = Js.Return _ => destruct b eqn:?
         | snd (Effects.throw _ _) = Js.Return _ => discriminate H
         end.

Section ReturningCycles.
Import Str Dom Js Effects Common Variants.

(** An attempt returns only when the oracle has replied and its reply held
    a signed integer. *)
Lemma cycle_needs_answer (v : variant) (lib : library) (w : world) (d y : string)
    (n : nat) (st : state) (result : payload v) :
  snd (Variants.cycle v lib w d y n st) = Return result ->
  exists image text answer,
    generateContent w n image = Return text /\ cleanedAnswer text = Some answer.
Proof.
  intros H.
  destruct v as [|cfg| |]; simpl in *;
    unfold Server.cycle, Server1.cycle, Part000.cycle, mbind, M_bind in H;
    returns H;
    match goal with
    | Hs : _ _ _ = (_, Return _) |- _ =>
        first [ apply solve_returns in Hs as (text & Hg & Hc); eauto 10 ]
    end.
Qed.

(** An attempt of [server.js] returns only what its last statement returns
    for an envelope the search endpoint sent in that attempt. *)
Lemma server_cycle_returns (lib : library) (w : world) (d y : string) (n : nat)
    (st : state) (v : Server.caseData) :
  snd (Server.cycle lib w d y n st) = Return v ->
  exists url response jsonData,
    fetch w n url = Return response /\ body_json response = Return jsonData
    /\ Server.conclude lib jsonData = Return v.
Proof.
  intros H. unfold Server.cycle, mbind, M_bind in H. returns H.
  unfold lift in *.
  repeat match goal with
         | Hm : (_, _) = (_, Return _) |- _ => injection Hm as ? ?; subst
         end.
  simpl in H. eauto 10.
Qed.

End ReturningCycles.

(** ** Rounding to the nearest double

    [round] keeps the order, leaves the whole numbers below [2^53] and the
    powers of two as they are, and so keeps a number between two doubles
    between them. *)

Section FloatFacts.
Import Float.
Local Open Scope Q_scope.

Lemma two_pos (e : Z) : 0 < 2 ^ e.
Proof. apply Qpower_0_lt. reflexivity. Qed.

Lemma two_nonzero : ~ 2 == 0.
Proof. discriminate. Qed.

Lemma two_nat (e : Z) : (0 <= e)%Z -> 2 ^ e == inject_Z (2 ^ e).
Proof. intros H. now rewrite Zpower_Qpower. Qed.

Lemma two_le (a b : Z) : (a <= b)%Z -> 2 ^ a <= 2 ^ b.
Proof. intros H. apply Qpower_le_compat_l; [exact H | discriminate]. Qed.

Lemma two_lt (a b : Z) : (a < b)%Z -> 2 ^ a < 2 ^ b.
Proof. intros H. apply Qpower_lt_compat_l; [exact H | reflexivity]. Qed.

Lemma two_split (a b : Z) : 2 ^ a == 2 ^ (a - b) * 2 ^ b.
Proof. rewrite <- Qpower_plus by exact two_nonzero. now replace (a - b + b)%Z with a by lia. Qed.

Lemma Qnum_den (x : Q) : x * inject_Z (Zpos (Qden x)) == inject_Z (Qnum x).
Proof. destruct x as [n d]. unfold Qeq, Qmult, inject_Z. simpl. lia. Qed.

Lemma ilog2_spec (x : Q) : 0 < x -> 2 ^ ilog2 x <= x /\ x < 2 ^ (ilog2 x + 1).
Proof.
  intros Hx.
  assert (0 < Qnum x)%Z as Hn by (destruct x as [n d]; unfold Qlt in Hx; simpl in *; lia).
  set (a := Z.log2 (Qnum x)). set (b := Z.log2 (Zpos (Qden x))).
  destruct (Z.log2_spec (Qnum x) Hn) as [Ha1 Ha2]. fold a in Ha1, Ha2.
  destruct (Z.log2_spec (Zpos (Qden x)) eq_refl) as [Hb1 Hb2]. fold b in Hb1, Hb2.
  assert (0 <= a)%Z as Ha0 by apply Z.log2_nonneg.
  assert (0 <= b)%Z as Hb0 by apply Z.log2_nonneg.
  assert (2 ^ (a - b - 1) <= x) as Hlow.
  { replace (a - b - 1)%Z with (a - (b + 1))%Z by lia.
    rewrite Qpower_minus by exact two_nonzero.
    apply Qle_shift_div_r; [apply two_pos |].
    rewrite !two_nat by lia.
    apply Qle_trans with (inject_Z (Qnum x)); [rewrite <- Zle_Qle; lia |].
    rewrite <- Qnum_den. apply Qmult_le_l; [exact Hx |]. rewrite <- Zle_Qle. lia. }
  assert (x < 2 ^ (a - b + 1)) as Hup.
  { replace (a - b + 1)%Z with (a + 1 - b)%Z by lia.
    rewrite Qpower_minus by exact two_nonzero.
    apply Qlt_shift_div_l; [apply two_pos |].
    rewrite !two_nat by lia.
    apply Qle_lt_trans with (inject_Z (Qnum x)); [| rewrite <- Zlt_Qlt; lia].
    rewrite <- Qnum_den. apply Qmult_le_l; [exact Hx |]. rewrite <- Zle_Qle. lia. }
  unfold ilog2. fold a b.
  destruct (Qle_bool (2 ^ (a - b)) x) eqn:E.
  - apply Qle_bool_iff in E. split; [exact E | exact Hup].
  - split; [exact Hlow |].
    replace (a - b - 1 + 1)%Z with (a - b)%Z by lia.
    apply Qnot_le_lt. intros H. apply Qle_bool_iff in H. congruence.
Qed.

Lemma ilog2_unique (x : Q) (e : Z) : 2 ^ e <= x -> x < 2 ^ (e + 1) -> ilog2 x = e.
Proof.
  intros H1 H2.
  assert (0 < x) as Hx by (apply Qlt_le_trans with (2 ^ e); [apply two_pos | exact H1]).
  destruct (ilog2_spec x Hx) as [H3 H4].
  assert (e < ilog2 x + 1)%Z.
  { apply Qpower_lt_compat_l_inv with 2; [| reflexivity].
    now apply Qle_lt_trans with x. }
  assert (ilog2 x < e + 1)%Z.
  { apply Qpower_lt_compat_l_inv with 2; [| reflexivity].
    now apply Qle_lt_trans with x. }
  lia.
Qed.

Lemma ilog2_le (x y : Q) : 0 < x -> x <= y -> (ilog2 x <= ilog2 y)%Z.
Proof.
  intros Hx Hxy.
  assert (0 < y) as Hy by now apply Qlt_le_trans with x.
  destruct (ilog2_spec x Hx) as [H1 _]. destruct (ilog2_spec y Hy) as [_ H2].
  assert (ilog2 x < ilog2 y + 1)%Z; [| lia].
  apply Qpower_lt_compat_l_inv with 2; [| reflexivity].
  apply Qle_lt_trans with x; [exact H1 |]. now apply Qle_lt_trans with y.
Qed.

Lemma ilog2_comp (x y : Q) : 0 < x -> x == y -> ilog2 x = ilog2 y.
Proof.
  intros Hx E. destruct (ilog2_spec x Hx) as [H1 H2].
  symmetry. apply ilog2_unique; now rewrite <- E.
Qed.

(** The nearest integer *)

Lemma nearest_even_cases (q : Q) :
  nearest_even q = Qfloor q \/ nearest_even q = (Qfloor q + 1)%Z.
Proof.
  unfold nearest_even.
  destruct (q - inject_Z (Qfloor q) ?= 1 # 2); [destruct (Z.even (Qfloor q)) | |]; auto.
Qed.

Lemma nearest_even_ge (q : Q) (k : Z) : inject_Z k <= q -> (k <= nearest_even q)%Z.
Proof.
  intros H. apply Qfloor_resp_le in H. rewrite Qfloor_Z in H.
  destruct (nearest_even_cases q) as [-> | ->]; lia.
Qed.

Lemma nearest_even_int (k : Z) : nearest_even (inject_Z k) = k.
Proof.
  unfold nearest_even. rewrite Qfloor_Z.
  assert ((inject_Z k - inject_Z k ?= 1 # 2) = Lt) as ->; [| reflexivity].
  apply (proj1 (Qlt_alt _ _)). lra.
Qed.

Lemma nearest_even_comp (p q : Q) : p == q -> nearest_even p = nearest_even q.
Proof.
  intros E. unfold nearest_even. rewrite (Qfloor_comp p q E).
  now rewrite (Qcompare_comp (p - inject_Z (Qfloor q)) (q - inject_Z (Qfloor q))
                 ltac:(now rewrite E) (1 # 2) (1 # 2) (Qeq_refl _)).
Qed.

Lemma floor_below (q : Q) (k : Z) : q < inject_Z k -> (Qfloor q + 1 <= k)%Z.
Proof.
  intros H. pose proof (Qfloor_le q) as Hf.
  assert (inject_Z (Qfloor q) < inject_Z k) as Hlt by now apply Qle_lt_trans with q.
  rewrite <- Zlt_Qlt in Hlt. lia.
Qed.

Lemma nearest_even_le (q : Q) (k : Z) : q <= inject_Z k -> (nearest_even q <= k)%Z.
Proof.
  intros H. destruct (Qle_lt_or_eq _ _ H) as [Hlt | Heq].
  - apply floor_below in Hlt. destruct (nearest_even_cases q) as [-> | ->]; lia.
  - rewrite (nearest_even_comp _ _ Heq), nearest_even_int. lia.
Qed.

Lemma nearest_even_below_half (q : Q) (k : Z) :
  inject_Z k <= q -> q < inject_Z k + (1 # 2) -> nearest_even q = k.
Proof.
  intros H1 H2.
  assert (Qfloor q = k) as Hf.
  { apply Qfloor_resp_le in H1. rewrite Qfloor_Z in H1.
    assert (q < inject_Z (k + 1)) as H3.
    { rewrite inject_Z_plus. apply Qlt_trans with (inject_Z k + (1 # 2)); [exact H2 |].
      apply Qplus_lt_r. reflexivity. }
    apply floor_below in H3. lia. }
  unfold nearest_even. rewrite Hf.
  assert ((q - inject_Z k ?= 1 # 2) = Lt) as ->; [| reflexivity].
  apply (proj1 (Qlt_alt _ _)). lra.
Qed.

Lemma nearest_even_mono (p q : Q) : p <= q -> (nearest_even p <= nearest_even q)%Z.
Proof.
  intros H. pose proof (Qfloor_resp_le _ _ H) as Hf.
  destruct (Z.eq_dec (Qfloor p) (Qfloor q)) as [E | N].
  - unfold nearest_even. rewrite E.
    destruct (Qcompare_spec (p - inject_Z (Qfloor q)) (1 # 2)) as [Ep | Lp | Gp];
      destruct (Qcompare_spec (q - inject_Z (Qfloor q)) (1 # 2)) as [Eq' | Lq | Gq];
      try destruct (Z.even (Qfloor q)); try lia; exfalso; lra.
  - apply Z.le_trans with (Qfloor q).
    + destruct (nearest_even_cases p) as [-> | ->]; lia.
    + destruct (nearest_even_cases q) as [-> | ->]; lia.
Qed.


(** Rounding *)

Lemma last_place_le (x y : Q) : 0 < x -> x <= y -> (last_place x <= last_place y)%Z.
Proof. intros Hx Hxy. pose proof (ilog2_le x y Hx Hxy). unfold last_place. lia. Qed.

Lemma scaled (x : Q) (c : Z) : x / 2 ^ c * 2 ^ c == x.
Proof. field. apply Qpower_not_0. exact two_nonzero. Qed.

(** [round_pos x] is the multiple of [2 ^ last_place x] nearest to [x]: it
    does not cross a multiple. *)
Lemma round_pos_ge (x : Q) (k : Z) :
  inject_Z k * 2 ^ last_place x <= x -> inject_Z k * 2 ^ last_place x <= round_pos x.
Proof.
  intros H. unfold round_pos.
  apply Qmult_le_compat_r; [| apply Qlt_le_weak, two_pos].
  rewrite <- Zle_Qle. apply nearest_even_ge.
  apply Qle_shift_div_l; [apply two_pos | exact H].
Qed.

Lemma round_pos_le (x : Q) (k : Z) :
  x <= inject_Z k * 2 ^ last_place x -> round_pos x <= inject_Z k * 2 ^ last_place x.
Proof.
  intros H. unfold round_pos.
  apply Qmult_le_compat_r; [| apply Qlt_le_weak, two_pos].
  rewrite <- Zle_Qle. apply nearest_even_le.
  apply Qle_shift_div_r; [apply two_pos | exact H].
Qed.

Lemma two_multiple (e c : Z) : (c <= e)%Z -> 2 ^ e == inject_Z (2 ^ (e - c)) * 2 ^ c.
Proof. intros H. rewrite <- two_nat by lia. apply two_split. Qed.

Lemma round_pos_ge_two (x : Q) (e : Z) :
  (last_place x <= e)%Z -> 2 ^ e <= x -> 2 ^ e <= round_pos x.
Proof.
  intros Hc H. rewrite (two_multiple e (last_place x) Hc) in *. now apply round_pos_ge.
Qed.

Lemma round_pos_le_two (x : Q) (e : Z) :
  (last_place x <= e)%Z -> x <= 2 ^ e -> round_pos x <= 2 ^ e.
Proof.
  intros Hc H. rewrite (two_multiple e (last_place x) Hc) in *. now apply round_pos_le.
Qed.

Lemma round_pos_mono (x y : Q) : 0 < x -> x <= y -> round_pos x <= round_pos y.
Proof.
  intros Hx Hxy.
  assert (0 < y) as Hy by now apply Qlt_le_trans with x.
  pose proof (last_place_le x y Hx Hxy) as Hc.
  destruct (Z.eq_dec (last_place x) (last_place y)) as [E | N].
  - unfold round_pos. rewrite E.
    apply Qmult_le_compat_r; [| apply Qlt_le_weak, two_pos].
    rewrite <- Zle_Qle. apply nearest_even_mono.
    apply Qmult_le_compat_r; [exact Hxy |].
    apply Qlt_le_weak, Qinv_lt_0_compat, two_pos.
  - destruct (ilog2_spec x Hx) as [_ Hx2]. destruct (ilog2_spec y Hy) as [Hy1 _].
    assert (ilog2 x + 1 <= ilog2 y /\ last_place y = ilog2 y - 52
            /\ last_place x <= ilog2 y)%Z as (H1 & H2 & H3)
      by (unfold last_place in *; lia).
    apply Qle_trans with (2 ^ ilog2 y).
    + apply round_pos_le_two; [exact H3 |].
      apply Qlt_le_weak, Qlt_le_trans with (2 ^ (ilog2 x + 1)); [exact Hx2 |].
      now apply two_le.
    + apply round_pos_ge_two; [lia | exact Hy1].
Qed.

Lemma round_pos_nonneg (x : Q) : 0 < x -> 0 <= round_pos x.
Proof.
  intros Hx.
  assert (inject_Z 0 * 2 ^ last_place x == 0) as E by apply Qmult_0_l.
  rewrite <- E. apply round_pos_ge. rewrite E. now apply Qlt_le_weak.
Qed.

Lemma round_of_pos (x : Q) : 0 < x -> round x == round_pos x.
Proof.
  intros Hx. unfold round. rewrite Qred_correct.
  now rewrite (proj1 (Qgt_alt _ _) Hx).
Qed.

Lemma round_of_zero (x : Q) : x == 0 -> round x == 0.
Proof.
  intros Hx. unfold round. rewrite Qred_correct.
  now rewrite (proj1 (Qeq_alt _ _) Hx).
Qed.

Lemma round_nonneg (x : Q) : 0 <= x -> 0 <= round x.
Proof.
  intros Hx. destruct (Qle_lt_or_eq _ _ Hx) as [H | H].
  - rewrite round_of_pos by exact H. now apply round_pos_nonneg.
  - rewrite round_of_zero by (now symmetry). lra.
Qed.

(** Rounding keeps the order. *)
Lemma round_mono (x y : Q) : 0 <= x -> x <= y -> round x <= round y.
Proof.
  intros Hx Hxy. destruct (Qle_lt_or_eq _ _ Hx) as [H | H].
  - rewrite (round_of_pos x H), (round_of_pos y) by now apply Qlt_le_trans with x.
    now apply round_pos_mono.
  - rewrite (round_of_zero x) by (now symmetry). apply round_nonneg. lra.
Qed.

Lemma round_comp (x y : Q) : 0 <= x -> x == y -> round x = round y.
Proof.
  intros Hx E.
  assert (round x == round y) as H.
  { assert (0 <= y) as Hy by now rewrite <- E.
    apply Qle_antisym; apply round_mono; try assumption; rewrite E; apply Qle_refl. }
  unfold round in *. apply Qred_eq_iff, Qeq_Qred_iff. exact H.
Qed.

(** The whole numbers below [2^53] and the powers of two in the normal range are
    doubles. *)
Lemma round_int (k : Z) : (0 <= k < 2 ^ 53)%Z -> round (inject_Z k) == inject_Z k.
Proof.
  intros [H0 H1]. destruct (Z.eq_dec k 0%Z) as [-> | N]; [now apply round_of_zero |].
  assert (0 < inject_Z k) as Hk by (change 0 with (inject_Z 0); rewrite <- Zlt_Qlt; lia).
  rewrite round_of_pos by exact Hk.
  destruct (ilog2_spec _ Hk) as [Hl _].
  assert (ilog2 (inject_Z k) < 53)%Z as Hi.
  { apply Qpower_lt_compat_l_inv with 2; [| reflexivity].
    apply Qle_lt_trans with (inject_Z k); [exact Hl |].
    rewrite two_nat by lia. rewrite <- Zlt_Qlt. exact H1. }
  set (c := last_place (inject_Z k)).
  assert (c <= 0)%Z as Hc by (unfold c, last_place; lia).
  assert (inject_Z k == inject_Z (k * 2 ^ (- c)) * 2 ^ c) as E.
  { rewrite inject_Z_mult, <- two_nat by lia.
    rewrite <- Qmult_assoc, <- Qpower_plus by exact two_nonzero.
    replace (- c + c)%Z with 0%Z by lia. simpl. ring. }
  apply Qle_antisym.
  - rewrite E at 2. apply round_pos_le. fold c. rewrite <- E. apply Qle_refl.
  - rewrite E at 1. apply round_pos_ge. fold c. rewrite <- E. apply Qle_refl.
Qed.

Lemma round_two (e : Z) : (-1022 <= e)%Z -> round (2 ^ e) == 2 ^ e.
Proof.
  intros He. rewrite round_of_pos by apply two_pos.
  assert (ilog2 (2 ^ e) = e) as Hi
    by (apply ilog2_unique; [apply Qle_refl | apply two_lt; lia]).
  assert (last_place (2 ^ e) <= e)%Z as Hc by (unfold last_place; lia).
  apply Qle_antisym.
  - apply round_pos_le_two; [exact Hc | apply Qle_refl].
  - apply round_pos_ge_two; [exact Hc | apply Qle_refl].
Qed.

(** A number between two doubles is rounded to a number between them. *)
Lemma round_between (lo hi x : Q) :
  0 <= lo -> round lo == lo -> round hi == hi -> lo <= x -> x <= hi ->
  lo <= round x /\ round x <= hi.
Proof.
  intros H0 Hlo Hhi H1 H2. split.
  - rewrite <- Hlo. now apply round_mono.
  - rewrite <- Hhi. apply round_mono; [lra | exact H2].
Qed.

End FloatFacts.

Section DelayFacts.
Import Float Common.
Local Open Scope Q_scope.

Lemma of_Q_finite (x : Q) : round x < 2 ^ 1024 -> of_Q x = Finite (round x).
Proof.
  intros H. unfold of_Q.
  destruct (Qle_bool (2 ^ 1024) (round x)) eqn:E; [| reflexivity].
  apply Qle_bool_iff in E. exfalso. apply (Qlt_irrefl (round x)).
  now apply Qlt_le_trans with (2 ^ 1024).
Qed.

Lemma two_Z_lt (n : nat) (e : Z) :
  (Z.of_nat n < e)%Z -> inject_Z (2 ^ Z.of_nat n) + 1 <= 2 ^ e.
Proof.
  intros H. rewrite (two_nat e) by lia. change 1 with (inject_Z 1).
  rewrite <- inject_Z_plus, <- Zle_Qle.
  assert (2 ^ Z.of_nat n < 2 ^ e)%Z by (apply Z.pow_lt_mono_r; lia). lia.
Qed.

(** The sum of a power of two and a number of [0, 1): the rounded sum is
    not below the power and not above the power plus one. *)
Lemma round_sum (n : nat) (r : Q) :
  0 <= r -> r < 1 ->
  inject_Z (2 ^ Z.of_nat n) <= round (inject_Z (2 ^ Z.of_nat n) + r)
  /\ round (inject_Z (2 ^ Z.of_nat n) + r) <= inject_Z (2 ^ Z.of_nat n) + 1.
Proof.
  intros H0 H1. set (p := inject_Z (2 ^ Z.of_nat n)).
  assert (p == 2 ^ Z.of_nat n) as Hp by (unfold p; rewrite two_nat by lia; reflexivity).
  assert (0 < p) as Hpos by (rewrite Hp; apply two_pos).
  assert (round p == p) as Hfix.
  { rewrite (round_comp p (2 ^ Z.of_nat n)) by (try apply Qlt_le_weak; assumption).
    rewrite round_two by lia. now symmetry. }
  split.
  - rewrite <- Hfix at 1. apply round_mono; lra.
  - destruct (Z_le_gt_dec (Z.of_nat n) 52) as [Hn | Hn].
    + assert (round (p + 1) == p + 1) as Hhi.
      { unfold p. change 1 with (inject_Z 1). rewrite <- inject_Z_plus.
        apply round_int.
        assert (2 ^ Z.of_nat n <= 2 ^ 52)%Z by (apply Z.pow_le_mono_r; lia).
        change (2 ^ 53)%Z with (2 * 2 ^ 52)%Z. change (2 ^ 52)%Z with 4503599627370496%Z in *.
        lia. }
      rewrite <- Hhi. apply round_mono; lra.
    + set (x := p + r).
      assert (0 < x) as Hx by (unfold x; lra).
      assert (ilog2 x = Z.of_nat n) as Hi.
      { apply ilog2_unique; [rewrite <- Hp; unfold x; lra |].
        apply Qlt_le_trans with (p + 1); [unfold x; lra |].
        unfold p. apply two_Z_lt. lia. }
      assert (last_place x = Z.of_nat n - 52)%Z as Hc by (unfold last_place; lia).
      rewrite round_of_pos by exact Hx. unfold round_pos. rewrite Hc.
      assert (nearest_even (x / 2 ^ (Z.of_nat n - 52)) = 2 ^ 52)%Z as ->.
      { assert (p / 2 ^ (Z.of_nat n - 52) == inject_Z (2 ^ 52)) as Hq.
        { rewrite Hp, <- Qpower_minus by exact two_nonzero.
          replace (Z.of_nat n - (Z.of_nat n - 52))%Z with 52%Z by lia. reflexivity. }
        assert (0 <= r / 2 ^ (Z.of_nat n - 52) /\ r / 2 ^ (Z.of_nat n - 52) < 1 # 2)
          as [Hr0 Hr1].
        { split.
          - apply Qle_shift_div_l; [apply two_pos | lra].
          - apply Qlt_shift_div_r; [apply two_pos |].
            apply Qlt_le_trans with 1; [exact H1 |].
            assert (2 ^ 1 <= 2 ^ (Z.of_nat n - 52)) as H2 by (apply two_le; lia).
            change (2 ^ 1) with 2 in H2. lra. }
        assert (x / 2 ^ (Z.of_nat n - 52)
                == inject_Z (2 ^ 52) + r / 2 ^ (Z.of_nat n - 52)) as Hs.
        { rewrite <- Hq. unfold x. field. apply Qpower_not_0. exact two_nonzero. }
        apply nearest_even_below_half; rewrite Hs; lra. }
      apply Qle_trans with p; [| lra].
      rewrite Hp. rewrite (two_multiple (Z.of_nat n) (Z.of_nat n - 52)) by lia.
      replace (Z.of_nat n - (Z.of_nat n - 52))%Z with 52%Z by lia. apply Qle_refl.
Qed.

Lemma sum_finite (n : nat) (r : Q) :
  (n < 1024)%nat -> 0 <= r -> r < 1 ->
  add (pow2 n) (Finite r) = Finite (round (inject_Z (2 ^ Z.of_nat n) + r)).
Proof.
  intros Hn H0 H1. unfold pow2.
  assert ((n <? 1024)%nat = true) as -> by (apply Nat.ltb_lt; exact Hn).
  unfold add. apply of_Q_finite.
  destruct (round_sum n r H0 H1) as [_ Hup].
  apply Qle_lt_trans with (inject_Z (2 ^ Z.of_nat n) + 1); [exact Hup |].
  apply Qlt_le_trans with (inject_Z (2 ^ Z.of_nat n) + 1 + 1); [lra |].
  assert (inject_Z (2 ^ Z.of_nat n) + 1 <= 2 ^ 1024) as H by (apply two_Z_lt; lia).
  assert (inject_Z (2 ^ Z.of_nat n) + 1 + 1 <= 2 ^ 1024); [| assumption].
  rewrite (two_nat 1024) by lia. change 1 with (inject_Z 1).
  rewrite <- !inject_Z_plus, <- Zle_Qle.
  assert (2 ^ Z.of_nat n <= 2 ^ 1023)%Z by (apply Z.pow_le_mono_r; lia).
  assert (2 ^ 1024 = 2 * 2 ^ 1023)%Z as -> by reflexivity.
  assert (2 <= 2 ^ 1023)%Z; [| lia].
  change 2%Z with (2 ^ 1)%Z at 1. apply Z.pow_le_mono_r; lia.
Qed.

Lemma sum_infinite (n : nat) (r : Q) : (1024 <= n)%nat -> add (pow2 n) (Finite r) = Infinity.
Proof.
  intros Hn. unfold pow2.
  assert ((n <? 1024)%nat = false) as -> by (apply Nat.ltb_ge; exact Hn). reflexivity.
Qed.

(** The timer of a delay between two whole numbers of milliseconds below the
    limit lies between them. *)
Lemma timeout_exact (d : Q) (lo hi : Z) :
  (1 <= lo)%Z -> (hi <= Timers.TIMEOUT_MAX)%Z ->
  inject_Z lo <= d * 1000 -> d * 1000 <= inject_Z hi ->
  timeout (Finite d) = Qfloor (round (d * 1000))
  /\ (lo <= Qfloor (round (d * 1000)) <= hi)%Z.
Proof.
  intros Hlo Hhi H1 H2.
  assert (hi < 2 ^ 53)%Z as Hh by (unfold Timers.TIMEOUT_MAX in Hhi; simpl in Hhi; simpl; lia).
  assert (0 <= inject_Z lo) as Hl0 by (change 0 with (inject_Z 0); rewrite <- Zle_Qle; lia).
  assert (lo <= hi)%Z as Hlh by (rewrite Zle_Qle; now apply Qle_trans with (d * 1000)).
  destruct (round_between (inject_Z lo) (inject_Z hi) (d * 1000) Hl0) as [Ha Hb];
    try assumption; try (apply round_int; lia).
  unfold timeout, mul. rewrite of_Q_finite.
  2:{ apply Qle_lt_trans with (inject_Z hi); [exact Hb |].
      rewrite (two_nat 1024) by lia. rewrite <- Zlt_Qlt.
      apply Z.lt_trans with (2 ^ 53)%Z; [exact Hh |]. apply Z.pow_lt_mono_r; lia. }
  unfold Timers.setTimeout.
  assert (Qle_bool 1 (round (d * 1000)) = true) as ->.
  { apply Qle_bool_iff. apply Qle_trans with (inject_Z lo); [| exact Ha].
    change 1 with (inject_Z 1). rewrite <- Zle_Qle. exact Hlo. }
  assert (Qle_bool (round (d * 1000)) (inject_Z Timers.TIMEOUT_MAX) = true) as ->.
  { apply Qle_bool_iff. apply Qle_trans with (inject_Z hi); [exact Hb |].
    rewrite <- Zle_Qle. exact Hhi. }
  simpl andb. cbv iota. split; [reflexivity |].
  apply Qfloor_resp_le in Ha, Hb. rewrite Qfloor_Z in Ha, Hb. lia.
Qed.

Lemma timeout_between (d : Q) (lo hi : Z) :
  (1 <= lo)%Z -> (hi <= Timers.TIMEOUT_MAX)%Z ->
  inject_Z lo <= d * 1000 -> d * 1000 <= inject_Z hi ->
  (lo <= timeout (Finite d) <= hi)%Z.
Proof.
  intros Hlo Hhi H1 H2.
  destruct (timeout_exact d lo hi Hlo Hhi H1 H2) as [-> H]. exact H.
Qed.

(** A delay above the limit of the timers is replaced by one millisecond. *)
Lemma timeout_above (a : number) :
  match a with Finite d => inject_Z (2 ^ 22) <= d | Infinity => True end ->
  timeout a = 1%Z.
Proof.
  destruct a as [d |]; [| reflexivity]. intros Hd.
  unfold timeout, mul, of_Q.
  destruct (Qle_bool (2 ^ 1024) (round (d * 1000))); [reflexivity |].
  unfold Timers.setTimeout.
  assert (Qle_bool (round (d * 1000)) (inject_Z Timers.TIMEOUT_MAX) = false) as ->;
    [| now rewrite andb_false_r].
  destruct (Qle_bool (round (d * 1000)) (inject_Z Timers.TIMEOUT_MAX)) eqn:E;
    [| reflexivity].
  apply Qle_bool_iff in E. exfalso.
  assert (inject_Z (2 ^ 22 * 1000) <= round (d * 1000)) as H.
  { rewrite <- (round_int (2 ^ 22 * 1000)) by (simpl; lia).
    apply round_mono; [discriminate |]. rewrite inject_Z_mult.
    apply Qmult_le_compat_r; [exact Hd | discriminate]. }
  assert (inject_Z (2 ^ 22 * 1000) <= inject_Z Timers.TIMEOUT_MAX) as H'
    by now apply Qle_trans with (round (d * 1000)).
  rewrite <- Zle_Qle in H'. unfold Timers.TIMEOUT_MAX in H'. simpl in H'. lia.
Qed.

End DelayFacts.

Section Delays.
Import Js Effects Common Variants Float.

Lemma pow2_step (n m : nat) : (n < m)%nat -> 2 ^ Z.of_nat n + 1 <= 2 ^ Z.of_nat m.
Proof.
  intros H. assert (2 ^ Z.of_nat n < 2 ^ Z.of_nat m); [| lia].
  apply Z.pow_lt_mono_r; lia.
Qed.

Lemma pow2_double (n m : nat) :
  (1 <= n)%nat -> (n < m)%nat -> 2 ^ Z.of_nat n + 1 < 2 ^ Z.of_nat m.
Proof.
  intros H1 H.
  assert (2 ^ 1 <= 2 ^ Z.of_nat n) by (apply Z.pow_le_mono_r; lia).
  assert (2 ^ (Z.of_nat n + 1) <= 2 ^ Z.of_nat m) by (apply Z.pow_le_mono_r; lia).
  rewrite Z.pow_add_r in * by lia. lia.
Qed.

(** Up to attempt 1023 the delay of the backoff is a finite double, the
    rounded sum; from attempt 1024 on [Math.pow] gives [Infinity]. *)
Lemma backoff_finite (w : world) (n : nat) :
  random_in_range w -> (n < 1024)%nat ->
  backoff w n = Finite (round (inject_Z (2 ^ Z.of_nat n) + random w n))
  /\ (inject_Z (2 ^ Z.of_nat n) <= round (inject_Z (2 ^ Z.of_nat n) + random w n))%Q
  /\ (round (inject_Z (2 ^ Z.of_nat n) + random w n) <= inject_Z (2 ^ Z.of_nat n) + 1)%Q.
Proof.
  intros Hr Hn. destruct (Hr n) as [H0 H1]. unfold backoff.
  split; [now apply sum_finite | now apply round_sum].
Qed.

Lemma backoff_infinite (w : world) (n : nat) : (1024 <= n)%nat -> backoff w n = Infinity.
Proof. intros Hn. unfold backoff. now apply sum_infinite. Qed.

(** Up to attempt 21 the timer is set for the delay; from attempt 22 on the
    delay is above the limit of the timers. *)
Lemma backoff_timeout (w : world) (n : nat) :
  random_in_range w -> (n <= 21)%nat ->
  timeout (backoff w n)
  = Qfloor (round (round (inject_Z (2 ^ Z.of_nat n) + random w n) * 1000))
  /\ 1000 * 2 ^ Z.of_nat n <= timeout (backoff w n) <= 1000 * (2 ^ Z.of_nat n + 1).
Proof.
  intros Hr Hn. destruct (backoff_finite w n Hr) as (-> & Hlo & Hhi); [lia |].
  assert (0 < 2 ^ Z.of_nat n) by (apply Z.pow_pos_nonneg; lia).
  assert (2 ^ Z.of_nat n <= 2 ^ 21) by (apply Z.pow_le_mono_r; lia).
  assert (timeout (Finite (round (inject_Z (2 ^ Z.of_nat n) + random w n)))
          = Qfloor (round (round (inject_Z (2 ^ Z.of_nat n) + random w n) * 1000))
          /\ 1000 * 2 ^ Z.of_nat n
             <= Qfloor (round (round (inject_Z (2 ^ Z.of_nat n) + random w n) * 1000))
             <= 1000 * (2 ^ Z.of_nat n + 1)) as [E H']; [| now rewrite E].
  apply timeout_exact.
  - lia.
  - unfold Timers.TIMEOUT_MAX. change (2 ^ 31) with 2147483648.
    change (2 ^ 21) with 2097152 in *. lia.
  - rewrite inject_Z_mult. change (inject_Z 1000) with 1000%Q. lra.
  - rewrite inject_Z_mult, inject_Z_plus. change (inject_Z 1000) with 1000%Q.
    change (inject_Z 1) with 1%Q. lra.
Qed.

Lemma backoff_timeout_clamped (w : world) (n : nat) :
  random_in_range w -> (22 <= n)%nat -> timeout (backoff w n) = 1.
Proof.
  intros Hr Hn. apply timeout_above.
  destruct (Nat.lt_ge_cases n 1024) as [Hlt | Hge].
  - destruct (backoff_finite w n Hr Hlt) as (-> & Hlo & _).
    apply Qle_trans with (inject_Z (2 ^ Z.of_nat n)); [| exact Hlo].
    rewrite <- Zle_Qle. apply Z.pow_le_mono_r; lia.
  - now rewrite backoff_infinite.
Qed.

Lemma backoff_less (w : world) (n m : nat) :
  random_in_range w -> (1 <= n)%nat -> (n < m)%nat -> (n < 1024)%nat ->
  less (backoff w n) (backoff w m).
Proof.
  intros Hr H1 Hnm Hn. destruct (backoff_finite w n Hr Hn) as (-> & _ & Hhi).
  destruct (Nat.lt_ge_cases m 1024) as [Hlt | Hge].
  - destruct (backoff_finite w m Hr Hlt) as (-> & Hlo & _). simpl.
    assert (inject_Z (2 ^ Z.of_nat n) + 1 < inject_Z (2 ^ Z.of_nat m))%Q as Hp.
    { change 1%Q with (inject_Z 1). rewrite <- inject_Z_plus, <- Zlt_Qlt.
      now apply pow2_double. }
    lra.
  - rewrite backoff_infinite by exact Hge. exact I.
Qed.

Lemma backoff_timeout_increasing (w : world) (n m : nat) :
  random_in_range w -> (1 <= n)%nat -> (n < m)%nat -> (m <= 21)%nat ->
  timeout (backoff w n) < timeout (backoff w m).
Proof.
  intros Hr H1 Hnm Hm.
  pose proof (backoff_timeout w n Hr ltac:(lia)) as [_ [_ Hn]].
  pose proof (backoff_timeout w m Hr Hm) as [_ [Hm' _]].
  pose proof (pow2_double n m H1 Hnm). lia.
Qed.

Lemma server_timeout (n : nat) :
  (n <= 21)%nat -> timeout (Server.delaySeconds n) = 1000 * (2 + Z.of_nat n).
Proof.
  intros Hn. unfold Server.delaySeconds.
  assert (1000 * (2 + Z.of_nat n) <= timeout (Finite (inject_Z (2 + Z.of_nat n)))
          <= 1000 * (2 + Z.of_nat n)); [| lia].
  apply timeout_between.
  - lia.
  - unfold Timers.TIMEOUT_MAX. change (2 ^ 31) with 2147483648. lia.
  - rewrite inject_Z_mult. change (inject_Z 1000) with 1000%Q. lra.
  - rewrite inject_Z_mult. change (inject_Z 1000) with 1000%Q. lra.
Qed.

Lemma delay_increasing (v : variant) (w : world) (n m : nat) :
  random_in_range w -> (1 <= n)%nat -> (n < m)%nat -> (m <= 21)%nat ->
  less (Variants.delaySeconds v w n) (Variants.delaySeconds v w m)
  /\ timeout (Variants.delaySeconds v w n) < timeout (Variants.delaySeconds v w m).
Proof.
  intros Hr H1 Hnm Hm.
  destruct v; simpl;
    try (split; [apply backoff_less; [assumption | lia | lia | lia]
                | now apply backoff_timeout_increasing]).
  split.
  - unfold Server.delaySeconds. simpl. rewrite <- Zlt_Qlt. lia.
  - rewrite !server_timeout by lia. lia.
Qed.

End Delays.

Section OrchestratorTheorems.
Import Str Js Effects Common Variants Samples.

(** C1. When every attempt of a lookup fails (and, in [server1.js], the
    cache has nothing to return), [getCaseDetailsProcess] makes exactly
    [MAX_ATTEMPTS] attempts, each from the state the one before has left:
    it logs the failure of each, in order, waits after each but the last,
    and throws the error of the last attempt. This holds of all four
    variants. *)
Theorem C1_retry_exhaustion (v : variant) (lib : library) (w : world)
    (diaryNo year : string) (st : state) (err : nat -> js_error) :
  cache_miss v w diaryNo year st ->
  (forall n st', (1 <= n <= Variants.MAX_ATTEMPTS v)%nat ->
     snd (Variants.cycle v lib w diaryNo year n st') = Throw (err n)) ->
  let run := Variants.getCaseDetailsProcess v lib w diaryNo year st in
  let log := failures (Variants.MAX_ATTEMPTS v) (Variants.delaySeconds v w) err
               (Variants.MAX_ATTEMPTS v) in
  fst run
  = failed_run (Variants.MAX_ATTEMPTS v) (Variants.delaySeconds v w)
      (Variants.cycle v lib w diaryNo year) err (Variants.MAX_ATTEMPTS v)
      (after_cache_check v w diaryNo year st)
  /\ control (trace (fst run)) = control (trace st) ++ log
  /\ failed_attempts log = Variants.MAX_ATTEMPTS v
  /\ sleeps log
     = map (Variants.delaySeconds v w) (seq 1 (Variants.MAX_ATTEMPTS v - 1))
  /\ (forall k, Variants.MAX_ATTEMPTS v = S k ->
        exists before, log = before ++ [EvAttemptFailed (S k) (err (S k))])
  /\ snd run = Throw (match Variants.MAX_ATTEMPTS v with
                      | O => Error "Process not attempted."
                      | S _ => err (Variants.MAX_ATTEMPTS v)
                      end).
Proof.
  intros Hmiss Hfail run log. subst run log.
  destruct (lookup_is_retry lib w v diaryNo year st Hmiss) as (st0 & Hst0 & Htr & ->).
  destruct (retry_exhausted (Variants.MAX_ATTEMPTS v) (Variants.delaySeconds v w)
              (Variants.cycle v lib w diaryNo year)
              (quiet_cycle lib w v diaryNo year) err st0 Hfail) as [Hc Hres].
  repeat split.
  - rewrite <- Hst0. now apply retry_failed_run.
  - now rewrite Hc, Htr.
  - apply failed_attempts_failures.
  - rewrite sleeps_failures. f_equal. f_equal. lia.
  - intros k Hk. rewrite Hk. eexists. apply failures_last.
  - exact Hres.
Qed.

(** With the network down, the five attempts of [server.js] fail one after
    the other, and the error thrown is the fifth one. *)
Lemma C1_retry_exhaustion_witness :
  let run := Server.getCaseDetailsProcess (lib_with results_empty) world_down
               "2444" "2023" start in
  let log := failures 5 Server.delaySeconds down_error 5 in
  fst run
  = failed_run 5 Server.delaySeconds
      (Server.cycle (lib_with results_empty) world_down "2444" "2023") down_error 5 start
  /\ control (trace (fst run)) = control (trace start) ++ log
  /\ failed_attempts log = 5%nat
  /\ sleeps log = map Server.delaySeconds (seq 1 4)
  /\ (forall k, 5%nat = S k ->
        exists before, log = before ++ [EvAttemptFailed (S k) (down_error (S k))])
  /\ snd run = Throw (down_error 5).
Proof.
  exact (C1_retry_exhaustion ServerJs (lib_with results_empty) world_down
           "2444" "2023" start down_error I (fun n st' _ => eq_refl)).
Defined.

(** C2, as the code has it. In [server1.js] and the two unnamed variants,
    when the attempts 1 to [n] fail and [n < MAX_ATTEMPTS], the delay after
    attempt [n] is the sum of [2^n] and the jitter [Math.random()] gave, a
    number in [0, 1), as doubles add: up to attempt 1023 it is the double
    nearest to the sum, which lies in [2^n, 2^n + 1], the upper end
    included. Up to attempt 21 the timer is set for the whole milliseconds
    of the delay. In [server.js] the delay is [2 + n] seconds. In all four
    the delays, and the waits of the timers, grow strictly from one attempt
    to the next, up to attempt 21. *)
Theorem C2_backoff_delays (v : variant) (lib : library) (w : world)
    (diaryNo year : string) (st : state) (err : nat -> js_error) (n : nat) :
  random_in_range w ->
  cache_miss v w diaryNo year st ->
  (1 <= n < Variants.MAX_ATTEMPTS v)%nat ->
  (forall k st', (1 <= k <= n)%nat ->
     snd (Variants.cycle v lib w diaryNo year k st') = Throw (err k)) ->
  (exists rest,
     control (trace (fst (Variants.getCaseDetailsProcess v lib w diaryNo year st)))
     = control (trace st)
       ++ failures (Variants.MAX_ATTEMPTS v) (Variants.delaySeconds v w) err (n - 1)
       ++ [EvAttemptFailed n (err n); EvSleep (Variants.delaySeconds v w n)] ++ rest)
  /\ match v with
     | ServerJs =>
         Variants.delaySeconds v w n = Float.Finite (inject_Z (2 + Z.of_nat n))
         /\ timeout (Variants.delaySeconds v w n) = 1000 * (2 + Z.of_nat n)
     | _ =>
         Variants.delaySeconds v w n
         = Float.add (Float.pow2 n) (Float.Finite (random w n))
         /\ (0 <= random w n)%Q /\ (random w n < 1)%Q
         /\ ((n < 1024)%nat ->
             exists d,
               Variants.delaySeconds v w n = Float.Finite d
               /\ d = Float.round (inject_Z (2 ^ Z.of_nat n) + random w n)
               /\ (inject_Z (2 ^ Z.of_nat n) <= d)%Q
               /\ (d <= inject_Z (2 ^ Z.of_nat n) + 1)%Q)
         /\ ((n <= 21)%nat ->
             timeout (Variants.delaySeconds v w n)
             = Qfloor (Float.round
                         (Float.round (inject_Z (2 ^ Z.of_nat n) + random w n) * 1000))
             /\ 1000 * 2 ^ Z.of_nat n <= timeout (Variants.delaySeconds v w n)
                <= 1000 * (2 ^ Z.of_nat n + 1))
     end
  /\ (forall m, (n < m)%nat -> (m <= 21)%nat ->
        Float.less (Variants.delaySeconds v w n) (Variants.delaySeconds v w m)
        /\ timeout (Variants.delaySeconds v w n) < timeout (Variants.delaySeconds v w m)).
Proof.
  intros Hr Hmiss Hn Hfail. split; [| split].
  - destruct (lookup_is_retry lib w v diaryNo year st Hmiss) as (st0 & _ & Htr & ->).
    destruct (retry_prefix (Variants.MAX_ATTEMPTS v) (Variants.delaySeconds v w)
                (Variants.cycle v lib w diaryNo year)
                (quiet_cycle lib w v diaryNo year) err n st0) as [rest Hrest];
      [lia | exact Hfail |].
    destruct n as [|k]; [lia |]. simpl in Hrest.
    assert ((S k <? Variants.MAX_ATTEMPTS v)%nat = true) as Hlt
      by (apply Nat.ltb_lt; lia).
    rewrite Hlt in Hrest. exists rest.
    replace (S k - 1)%nat with k by lia.
    rewrite Hrest, Htr, <- !app_assoc. reflexivity.
  - assert (Float.add (Float.pow2 n) (Float.Finite (random w n)) = backoff w n) as Hb
      by reflexivity.
    destruct v as [|cfg| |]; cbn [Variants.delaySeconds].
    + split; [reflexivity |]. apply server_timeout.
      unfold Variants.MAX_ATTEMPTS, Server.MAX_ATTEMPTS in Hn. lia.
    + rewrite Hb. split; [reflexivity |]. split; [apply Hr |]. split; [apply Hr |]. split.
      * intros H. destruct (backoff_finite w n Hr H) as (E & Hlo & Hhi). eauto.
      * intros H. now apply backoff_timeout.
    + rewrite Hb. split; [reflexivity |]. split; [apply Hr |]. split; [apply Hr |]. split.
      * intros H. destruct (backoff_finite w n Hr H) as (E & Hlo & Hhi). eauto.
      * intros H. now apply backoff_timeout.
    + rewrite Hb. split; [reflexivity |]. split; [apply Hr |]. split; [apply Hr |]. split.
      * intros H. destruct (backoff_finite w n Hr H) as (E & Hlo & Hhi). eauto.
      * intros H. now apply backoff_timeout.
  - intros m Hm Hm'. apply delay_increasing; [exact Hr | lia | exact Hm | exact Hm'].
Qed.

Lemma sample_random_in_range (ajax : nat -> outcome response) :
  random_in_range (world_with ajax).
Proof. intros n. simpl. split; lra. Qed.

(** In a world where the search endpoint answers [null], the first delay of
    [part_000] is [2^1 + 1/2] seconds, and its timer is set for 2500
    milliseconds. *)
Lemma C2_backoff_delays_witness :
  (exists rest,
     control (trace (fst (Part000.getCaseDetailsProcess (lib_with results_one)
                            (world_with (answers JNull)) "2444" "2023" start)))
     = control (trace start)
       ++ failures Part000.MAX_ATTEMPTS (backoff (world_with (answers JNull)))
            (fun _ => TypeError "Cannot read properties of null (reading 'success')")
            (1 - 1)
       ++ [EvAttemptFailed 1 (TypeError "Cannot read properties of null (reading 'success')");
           EvSleep (backoff (world_with (answers JNull)) 1)] ++ rest)
  /\ (backoff (world_with (answers JNull)) 1
      = Float.add (Float.pow2 1) (Float.Finite (random (world_with (answers JNull)) 1))
      /\ (0 <= random (world_with (answers JNull)) 1)%Q
      /\ (random (world_with (answers JNull)) 1 < 1)%Q
      /\ ((1 < 1024)%nat ->
          exists d,
            backoff (world_with (answers JNull)) 1 = Float.Finite d
            /\ d = Float.round (inject_Z (2 ^ Z.of_nat 1)
                                + random (world_with (answers JNull)) 1)
            /\ (inject_Z (2 ^ Z.of_nat 1) <= d)%Q
            /\ (d <= inject_Z (2 ^ Z.of_nat 1) + 1)%Q)
      /\ ((1 <= 21)%nat ->
          timeout (backoff (world_with (answers JNull)) 1)
          = Qfloor (Float.round
                      (Float.round (inject_Z (2 ^ Z.of_nat 1)
                                    + random (world_with (answers JNull)) 1) * 1000))
          /\ 1000 * 2 ^ Z.of_nat 1 <= timeout (backoff (world_with (answers JNull)) 1)
             <= 1000 * (2 ^ Z.of_nat 1 + 1)))
  /\ (forall m, (1 < m)%nat -> (m <= 21)%nat ->
        Float.less (backoff (world_with (answers JNull)) 1)
                   (backoff (world_with (answers JNull)) m)
        /\ timeout (backoff (world_with (answers JNull)) 1)
           < timeout (backoff (world_with (answers JNull)) m)).
Proof.
  exact (C2_backoff_delays Part000Js (lib_with results_one) (world_with (answers JNull))
           "2444" "2023" start
           (fun _ => TypeError "Cannot read properties of null (reading 'success')")
           1 (sample_random_in_range (answers JNull)) I
           (conj (le_n 1) (le_S 2 2 (le_n 2)))
           (fun k st' _ => eq_refl)).
Defined.

(** C2 does not hold as it is stated. In [server.js] the first delay is 3
    seconds, which is not [2^1] seconds plus a jitter below one second. In
    [part_000], when [Math.random()] gives [1 - 2^-52], the sum [2 + jitter]
    is no double and the delay is the nearest one, 3 seconds: [2^1] plus a
    full second. In [server1.js] with 24 attempts allowed, the delay after
    attempt 21 is set as a timer of 2097152500 milliseconds, and the one
    after attempt 22, above the limit of the timers, as a timer of one
    millisecond: the waits do not grow. *)
Lemma C2_counterexample_delays :
  (sleeps (trace (fst (Server.getCaseDetailsProcess (lib_with results_empty) world_down
                         "2444" "2023" start)))
   = [Float.Finite 3; Float.Finite 4; Float.Finite 5; Float.Finite 6]
   /\ ~ (exists jitter : Q, (0 <= jitter)%Q /\ (jitter < 1)%Q
                            /\ (3 == inject_Z (2 ^ 1) + jitter)%Q))
  /\ (random_in_range (Scenarios.world_down_random Scenarios.almost_one)
      /\ sleeps (trace (fst (Part000.getCaseDetailsProcess (lib_with results_one)
                               (Scenarios.world_down_random Scenarios.almost_one) "2444" "2023" start)))
         = [Float.Finite 3; Float.Finite 5]
      /\ ~ (exists jitter : Q, (0 <= jitter)%Q /\ (jitter < 1)%Q
                               /\ (3 == inject_Z (2 ^ 1) + jitter)%Q))
  /\ (let waits :=
        map timeout
          (sleeps (trace (fst (Server1.getCaseDetailsProcess (Server1.mkConfig 24 3600 30000)
                                 (lib_with results_one) world_down "2444" "2023" start))))
      in length waits = 23%nat
         /\ nth 20 waits 0 = 2097152500 /\ nth 21 waits 0 = 1
         /\ ~ (nth 20 waits 0 < nth 21 waits 0)).
Proof.
  assert (~ (exists jitter : Q, (0 <= jitter)%Q /\ (jitter < 1)%Q
                                /\ (3 == inject_Z (2 ^ 1) + jitter)%Q)) as Hno.
  { intros (j & H0 & H1 & He). change (inject_Z (2 ^ 1)) with (2 # 1)%Q in He. lra. }
  split; [split; [vm_compute; reflexivity | exact Hno] |].
  split.
  - split; [| split; [vm_compute; reflexivity | exact Hno]].
    intros n. split; vm_compute; congruence.
  - vm_compute. repeat split; congruence.
Qed.

(** C3, the code at a failing input. The search endpoint answers [null]
    with status 200 in every attempt: each attempt stores [null] under the
    key and then fails on reading [responseData.success]; the lookup ends in
    failure and the cache, empty before, holds an entry for the key. *)
Theorem C3_failed_lookup_writes_cache :
  let run := Server1.getCaseDetailsProcess Server1.default_config
               (lib_with results_one) (world_with (answers JNull))
               "2444" "2023" start in
  snd run = Throw (TypeError "Cannot read properties of null (reading 'success')")
  /\ failed_attempts (trace (fst run)) = 3%nat
  /\ cache start !! "2444/2023" = None
  /\ cache (fst run) !! "2444/2023" = Some (JNull, 1700003600000).
Proof. vm_compute. repeat split. Qed.

(** A cached entry that is falsy (here the number 0, which never expires)
    is not returned: the lookup runs an attempt all the same. *)
Lemma falsy_cache_entry_not_served :
  let st := initial {[ "2444/2023" := (JNum 0, 0) ]} in
  let run := Server1.getCaseDetailsProcess Server1.default_config
               (lib_with results_one) (world_with (answers envelope_ok))
               "2444" "2023" st in
  fst (NodeCache.get 1700000000000 "2444/2023" (cache st)) = Some (JNum 0)
  /\ length (trace (fst run)) = 4%nat
  /\ snd run = Return envelope_ok.
Proof. vm_compute. repeat split. Qed.

(** A cached entry that is truthy is returned as it is, and nothing is
    sent. *)
Lemma truthy_cache_entry_served (cfg : Server1.config) (lib : library) (w : world)
    (diaryNo year : string) (st : state) (v : json) (c' : gmap string (json * Z)) :
  NodeCache.get (date_now w 0 0) (Server1.cacheKey diaryNo year) (cache st) = (Some v, c') ->
  truthy (Some v) = true ->
  Server1.getCaseDetailsProcess cfg lib w diaryNo year st
  = (mkState (trace st) c', Return v).
Proof.
  intros Hget Ht. unfold Server1.getCaseDetailsProcess. unfold_M.
  rewrite Hget. simpl. simpl in Ht. now rewrite Ht.
Qed.

End OrchestratorTheorems.

Section ComposerTheorems.
Import Str Js Effects Common Variants Samples.

(** C4. For every choice of the five inputs, the query string of
    [buildFinalUrl] carries exactly nine pairs: [diary_no], [year], [scid],
    the token's own name and value, [siwp_captcha_value], [es_ajax_request=1],
    [submit=Search], [action=get_case_status_diary_no] and [language=en];
    for the inputs of the specification it is the text given there. *)
Theorem C4_buildFinalUrl_fields :
  (forall (diaryNo year scid : string) (tok : token) (captchaAnswer : string),
     URLSearchParams.parse (query_of (buildFinalUrl diaryNo year scid tok captchaAnswer))
     = [("diary_no", diaryNo); ("year", year); ("scid", scid);
        (name tok, value tok); ("siwp_captcha_value", captchaAnswer);
        ("es_ajax_request", "1"); ("submit", "Search");
        ("action", "get_case_status_diary_no"); ("language", "en")])
  /\ buildFinalUrl "2444" "2023" "77" (mkToken "tok_abc" "xyz") "11"
     = "https://www.sci.gov.in/wp-admin/admin-ajax.php?diary_no=2444&year=2023&scid=77&tok_abc=xyz&siwp_captcha_value=11&es_ajax_request=1&submit=Search&action=get_case_status_diary_no&language=en"
  /\ URLSearchParams.fields
       (query_of (buildFinalUrl "2444" "2023" "77" (mkToken "tok_abc" "xyz") "11"))
     = [("diary_no", "2444"); ("year", "2023"); ("scid", "77"); ("tok_abc", "xyz");
        ("siwp_captcha_value", "11"); ("es_ajax_request", "1"); ("submit", "Search");
        ("action", "get_case_status_diary_no"); ("language", "en")].
Proof.
  repeat split.
  intros diaryNo year scid tok captchaAnswer.
  rewrite query_of_buildFinalUrl, parse_toString. reflexivity.
Qed.

End ComposerTheorems.

Section ValidatorTheorems.
Import Str Js Effects Common Variants Samples.

(** The reply of the normalizing endpoint to an accepted body. *)
Lemma part001_valid (lib : library) (w : world) body d y st :
  validate (field "diaryData" body) = Valid d y ->
  exists r,
    Part001.post_case_details lib w body st
    = (fst (Part001.getCaseDetailsProcess lib w d y st), Return r)
    /\ Part001.timeTakenMs r = calculateTimeTaken (hrtime w)
    /\ match snd (Part001.getCaseDetailsProcess lib w d y st) with
       | Throw e =>
           Part001.code r = 500 /\ Part001.success r = false
           /\ Part001.error r
              = Some (JStr ("Failed to retrieve case details: " +:+ err_message e))
       | Return envelope =>
           match Part001.resultsHtml_of (Some envelope) with
           | Some html =>
               match Part001.parseCaseDetailsHtml lib html with
               | Return records =>
                   Part001.code r = 200 /\ Part001.success r = true
                   /\ Part001.data r = Some records
                   /\ Part001.pagination r
                      = prop (prop (Some envelope) "data") "pagination"
               | Throw e =>
                   Part001.code r = 500 /\ Part001.success r = false
                   /\ Part001.error r
                      = Some (JStr ("Failed to retrieve case details: "
                                    +:+ err_message e))
               end
           | None =>
               if truthy (Some envelope) && Part001.is_false (prop (Some envelope) "success")
               then
                 match template (Some (Part001.errorMessage (Some envelope))) with
                 | Return _ =>
                     Part001.code r = 422 /\ Part001.success r = false
                     /\ Part001.error r = Some (Part001.errorMessage (Some envelope))
                 | Throw e =>
                     Part001.code r = 500 /\ Part001.success r = false
                     /\ Part001.error r
                        = Some (JStr ("Failed to retrieve case details: "
                                      +:+ err_message e))
                 end
               else Part001.code r = 500 /\ Part001.success r = false
           end
       end.
Proof.
  intros H. destruct (callStart_valid w _ d y H) as [line Hl].
  unfold Part001.post_case_details. rewrite H, Hl. unfold_M.
  destruct (Part001.getCaseDetailsProcess lib w d y st) as [st' [envelope | e]];
    cbn [fst snd].
  - unfold Part001.respond. unfold_M.
    destruct (Part001.resultsHtml_of (Some envelope)) as [html|].
    + destruct (Part001.parseCaseDetailsHtml lib html) as [records | e];
        cbn [fst snd]; eexists; repeat split.
    + destruct (truthy (Some envelope) && _); cbn [fst snd];
        [| eexists; repeat split].
      destruct (template (Some (Part001.errorMessage (Some envelope))));
        eexists; repeat split.
  - eexists; repeat split.
Qed.

(** The endpoint of every variant either lets an error of the lines before
    the validation escape, or answers 400 without touching anything, or
    runs the lookup for the two parts of the body and answers with another
    status. *)
Lemma endpoint_cases (v : variant) (lib : library) (w : world) body st :
  match validate (field "diaryData" body) with
  | Valid d y =>
      exists code time st',
        Variants.post_case_details v lib w body st = (st', Return (code, time))
        /\ trace st' = trace (fst (Variants.getCaseDetailsProcess v lib w d y st))
        /\ time = calculateTimeTaken (hrtime w)
        /\ (code = 200 \/ code = 422 \/ code = 500)
  | Invalid _ =>
      match before_validation v w (field "diaryData" body) with
      | Return _ =>
          Variants.post_case_details v lib w body st
          = (st, Return (400, calculateTimeTaken (hrtime w)))
      | Throw e => Variants.post_case_details v lib w body st = (st, Throw e)
      end
  end.
Proof.
  destruct (validate (field "diaryData" body)) as [message | d y] eqn:E.
  - destruct v as [|cfg| |]; cbn [before_validation Variants.post_case_details]; unfold_M.
    + destruct (server_invalid lib w body message st E) as (r & -> & <- & <-).
      reflexivity.
    + destruct (Server1.requestIdentifier w (field "diaryData" body)) as [text | e] eqn:Ht.
      * destruct (server1_invalid lib w cfg body message text st E Ht) as (r & -> & <- & <-).
        reflexivity.
      * now rewrite (server1_escapes lib w cfg body e st Ht).
    + destruct (Part000.callStart w (field "diaryData" body)) as [text | e] eqn:Ht.
      * destruct (part000_invalid lib w body message text st E Ht) as (r & -> & <- & <-).
        reflexivity.
      * now rewrite (part000_escapes lib w body e st Ht).
    + destruct (Part000.callStart w (field "diaryData" body)) as [text | e] eqn:Ht.
      * destruct (part001_invalid lib w body message text st E Ht) as (r & -> & <- & <-).
        reflexivity.
      * now rewrite (part001_escapes lib w body e st Ht).
  - destruct v as [|cfg| |]; simpl; unfold_M.
    + destruct (server_valid lib w body d y st E) as (r & -> & Ht & Hc).
      eexists _, _, _. split; [reflexivity |]. repeat split; [exact Ht |].
      destruct (snd (Server.getCaseDetailsProcess lib w d y st)); tauto.
    + destruct (server1_valid lib w cfg body d y st E) as (r & st' & -> & Htr & Ht & Hc).
      eexists _, _, _. split; [reflexivity |]. repeat split; [exact Htr | exact Ht |].
      destruct (snd (Server1.getCaseDetailsProcess cfg lib w d y st)); tauto.
    + destruct (part000_valid lib w body d y st E) as (r & -> & Ht & Hc).
      eexists _, _, _. split; [reflexivity |]. repeat split; [exact Ht |].
      destruct (snd (Part000.getCaseDetailsProcess lib w d y st)); tauto.
    + destruct (part001_valid lib w body d y st E) as (r & -> & Ht & Hc).
      eexists _, _, _. split; [reflexivity |]. repeat split; [exact Ht |].
      destruct (snd (Part001.getCaseDetailsProcess lib w d y st)) as [envelope | e];
        [| tauto].
      destruct (Part001.resultsHtml_of (Some envelope)) as [html|].
      * destruct (Part001.parseCaseDetailsHtml lib html); tauto.
      * destruct (truthy (Some envelope) && _); [| tauto].
        destruct (template (Some (Part001.errorMessage (Some envelope)))); tauto.
Qed.

(** The lines before the validation throw exactly when the endpoint is not
    that of [server.js] and [diaryData] has no text form. *)
Lemma before_validation_cases (v : variant) (w : world) (diaryData : Js.value) :
  if escapes v diaryData
  then before_validation v w diaryData = Throw unprintable
  else exists text, before_validation v w diaryData = Return text.
Proof.
  assert (forall j, truthy (Some j) = false -> no_text j = false) as Hfalsy
    by (intros [| | | | |]; simpl; congruence).
  destruct v as [|cfg| |]; [eexists; reflexivity | | |];
    cbn [before_validation escapes];
    unfold Server1.requestIdentifier, Part000.callStart, Part000.requestIdentifierLog;
    (destruct diaryData as [j|]; [| eexists; reflexivity]);
    pose proof (ToString_cases j) as Hj;
    (destruct (truthy (Some j)) eqn:Ht;
     [| rewrite (Hfalsy j Ht) in *; cbn [template ToString];
        try (destruct Hj as [text ->]); eexists; reflexivity]);
    cbn [template]; (destruct (no_text j);
                     [now rewrite Hj | destruct Hj as [text ->]; eexists; reflexivity]).
Qed.

(** The handler ends with the error of the lines before the validation, or
    with a reply. *)
Lemma endpoint_outcome (v : variant) (lib : library) (w : world) body st :
  if escapes v (field "diaryData" body)
  then Variants.post_case_details v lib w body st = (st, Throw unprintable)
  else exists code time st',
         Variants.post_case_details v lib w body st = (st', Return (code, time)).
Proof.
  pose proof (endpoint_cases v lib w body st) as H.
  pose proof (before_validation_cases v w (field "diaryData" body)) as Hb.
  destruct (validate (field "diaryData" body)) as [message | d y] eqn:E.
  - destruct (escapes v (field "diaryData" body)).
    + rewrite Hb in H. exact H.
    + destruct Hb as [text Hb]. rewrite Hb in H. eauto.
  - destruct (valid_is_string _ d y E) as [Hs _]. rewrite Hs.
    assert (escapes v (Some (JStr (d +:+ "/" +:+ y))) = false) as ->
      by (destruct v; reflexivity).
    destruct H as (code & time & st' & H & _). eauto.
Qed.

(** C5, the validator and the code at a failing input. The validator
    accepts exactly the strings matching [^\d+/\d{4}$], and the lookup runs
    for an accepted body. A rejected body is answered 400, and nothing else
    happens, by [server.js] always, and by the other three variants when
    [diaryData] has a text form. When it has none (an object with a property
    named [toString], or an array holding one), the line these variants
    write before they validate throws, and the handler ends without a
    reply: so for the body [{"diaryData": {"toString": 1}}], which
    [server.js] answers 400. *)
Theorem C5_unprintable_input_escapes (v : variant) (lib : library) (w : world)
    (body : list (string * json)) (st : state) :
  let diaryData := field "diaryData" body in
  ((exists d y, validate diaryData = Valid d y)
   <-> (exists s, diaryData = Some (JStr s) /\ Spec.matches_diary_pattern s))
  /\ match validate diaryData with
     | Valid d y =>
         diaryData = Some (JStr (d +:+ "/" +:+ y))
         /\ exists code time st',
              Variants.post_case_details v lib w body st = (st', Return (code, time))
              /\ trace st' = trace (fst (Variants.getCaseDetailsProcess v lib w d y st))
              /\ code <> 400
     | Invalid _ =>
         if escapes v diaryData
         then Variants.post_case_details v lib w body st
              = (st, Throw (TypeError "Cannot convert object to primitive value"))
         else exists time,
                Variants.post_case_details v lib w body st = (st, Return (400, time))
     end
  /\ (let unprintable := [("diaryData", JObj [("toString", JNum 1)])] in
      validate (field "diaryData" unprintable)
      = Invalid "Invalid payload: 'diaryData' (string 'number/year') is required."
      /\ Variants.post_case_details ServerJs lib w unprintable st
         = (st, Return (400, calculateTimeTaken (hrtime w)))
      /\ Variants.post_case_details (Server1Js Server1.default_config) lib w unprintable st
         = (st, Throw (TypeError "Cannot convert object to primitive value"))
      /\ Variants.post_case_details Part000Js lib w unprintable st
         = (st, Throw (TypeError "Cannot convert object to primitive value"))
      /\ Variants.post_case_details Part001Js lib w unprintable st
         = (st, Throw (TypeError "Cannot convert object to primitive value"))).
Proof.
  intros diaryData. subst diaryData. split; [apply validate_accepts |]. split.
  - pose proof (endpoint_cases v lib w body st) as H.
    pose proof (before_validation_cases v w (field "diaryData" body)) as Hb.
    destruct (validate (field "diaryData" body)) as [message | d y] eqn:E.
    + destruct (escapes v (field "diaryData" body)).
      * rewrite Hb in H. exact H.
      * destruct Hb as [text Hb]. rewrite Hb in H. eexists. exact H.
    + split; [now apply validate_valid in E as [-> _] |].
      destruct H as (code & time & st' & Hrun & Htr & _ & Hcode).
      exists code, time, st'. repeat apply conj; [exact Hrun | exact Htr | lia].
  - repeat apply conj; reflexivity.
Qed.

End ValidatorTheorems.

Section SolverTheorems.
Import Str Js Effects Common Variants Samples.

(** C6. The answer of the solver is the first signed integer of the reply
    of the oracle, as it stands in the reply; a reply that holds none fails
    the call, and so does a failing oracle; and an attempt of any variant
    returns only when the reply held a signed integer. The replies ["11"],
    ["The answer is 11."] and ["-3"] give ["11"], ["11"] and ["-3"], and
    ["I cannot determine this"] gives no answer. *)
Theorem C6_captcha_answer_parsing :
  (forall text m, cleanedAnswer text = Some m <-> Spec.first_signed_int text m)
  /\ (forall text, cleanedAnswer text = None <-> ~ Spec.has_signed_int text)
  /\ (forall (w : world) (unclear failed : string) (n : nat) (image : string) (st : state),
        snd (Common.solveCaptchaWithGemini w unclear failed n image st)
        = match generateContent w n image with
          | Return text =>
              match cleanedAnswer text with
              | Some answer => Return answer
              | None => Throw (Error (failed +:+ unclear))
              end
          | Throw e => Throw (Error (failed +:+ err_message e))
          end)
  /\ (forall (v : variant) (lib : library) (w : world) (diaryNo year : string)
             (n : nat) (st : state) (result : payload v),
        snd (Variants.cycle v lib w diaryNo year n st) = Return result ->
        exists image text answer,
          generateContent w n image = Return text /\ cleanedAnswer text = Some answer)
  /\ cleanedAnswer "11" = Some "11"
  /\ cleanedAnswer "The answer is 11." = Some "11"
  /\ cleanedAnswer "-3" = Some "-3"
  /\ cleanedAnswer "I cannot determine this" = None.
Proof.
  repeat split; try reflexivity.
  - apply cleanedAnswer_first.
  - apply cleanedAnswer_first.
  - rewrite cleanedAnswer_eq. apply match_signed_int_none.
  - rewrite cleanedAnswer_eq. apply match_signed_int_none.
  - intros. apply solveCaptchaWithGemini_outcome.
  - intros v lib w diaryNo year n st result H.
    exact (cycle_needs_answer v lib w diaryNo year n st result H).
Qed.

End SolverTheorems.

Section TokenTheorems.
Import Str Dom Js Effects Common Variants Samples.

(** C7, as the code has it. [extractToken] is a function of the document
    the page loads as. What it returns is the name and the value of the
    first hidden input whose name begins with [tok_], both not empty. It
    fails exactly when there is no such input or the first of them has no
    value or an empty one, whatever the later ones hold. *)
Theorem C7_extractToken (lib : library) (message html : string) :
  let inputs := select (cheerio_load lib html) token_selector in
  (forall html', cheerio_load lib html' = cheerio_load lib html ->
     Common.extractToken lib message html' = Common.extractToken lib message html)
  /\ (forall tok, Common.extractToken lib message html = Return tok ->
        exists first rest,
          inputs = first :: rest
          /\ attr_lookup "name" (el_attrs (snd first)) = Some (name tok)
          /\ attr_lookup "value" (el_attrs (snd first)) = Some (value tok)
          /\ starts_with "tok_" (name tok) = true
          /\ name tok <> EmptyString /\ value tok <> EmptyString)
  /\ ((exists e, Common.extractToken lib message html = Throw e)
      <-> match inputs with
          | [] => True
          | first :: _ => present (attr_lookup "value" (el_attrs (snd first))) = false
          end)
  /\ (forall e, Common.extractToken lib message html = Throw e -> e = Error message).
Proof.
  intros inputs. subst inputs.
  pose proof (extractToken_cases lib message html) as H.
  split; [| split; [| split]].
  - intros html' Heq. unfold Common.extractToken. now rewrite Heq.
  - intros tok Htok.
    destruct (select (cheerio_load lib html) token_selector) as [|first rest];
      [congruence |].
    destruct H as (n & Hn & Hpre & Hne & Hrun). rewrite Hrun in Htok.
    destruct (attr_lookup "value" (el_attrs (snd first))) as [v|] eqn:Hv;
      [| discriminate].
    destruct (is_empty v) eqn:Ev; [discriminate |].
    injection Htok as <-. exists first, rest. simpl.
    repeat split; try assumption. now apply is_empty_false.
  - destruct (select (cheerio_load lib html) token_selector) as [|first rest].
    + split; [trivial | intros _; eauto].
    + destruct H as (n & Hn & Hpre & Hne & ->).
      destruct (attr_lookup "value" (el_attrs (snd first))) as [v|]; simpl.
      * destruct (is_empty v); simpl; split; intros H; eauto; try discriminate.
        destruct H; discriminate.
      * split; eauto.
  - intros e He.
    destruct (select (cheerio_load lib html) token_selector) as [|first rest].
    + congruence.
    + destruct H as (n & Hn & Hpre & Hne & Hrun). rewrite Hrun in He.
      destruct (attr_lookup "value" (el_attrs (snd first))) as [v|]; [| congruence].
      destruct (is_empty v); congruence.
Qed.

(** C7 does not hold as it is stated: on a page whose first token field has
    an empty value and whose second has one, [extractToken] fails although
    a hidden [tok_] input with a name and a value is there. *)
Lemma C7_counterexample_second_token :
  Common.extractToken lib_tokens "CSRF token not found." "<page>"
  = Throw (Error "CSRF token not found.")
  /\ exists it,
       it ∈ select (cheerio_load lib_tokens "<page>") token_selector
       /\ present (attr [it] "name") = true /\ present (attr [it] "value") = true.
Proof.
  split; [reflexivity |].
  exists (List.nth 1 (select (cheerio_load lib_tokens "<page>") token_selector)
            ([], mkElement "" [] 0 [])).
  split; [| split; reflexivity].
  vm_compute. right. left.
Qed.

End TokenTheorems.

Section ParserTheorems.
Import Str Dom Js Effects Common Variants Samples.

Lemma parseRow_short (lib : library) (row : item) :
  (length (find row [tag_is "td"]) < 7)%nat -> Part001.parseRow lib row = [].
Proof.
  unfold Part001.parseRow.
  destruct (find row [tag_is "td"]) as [|c0 [|c1 [|c2 [|c3 [|c4 [|c5 [|c6 cells]]]]]]];
    simpl; intros H; try reflexivity; lia.
Qed.

Lemma parseRow_full (lib : library) (row : item) :
  (7 <= length (find row [tag_is "td"]))%nat ->
  exists c0 c1 c2 c3 c4 c5 c6 cells,
    find row [tag_is "td"] = c0 :: c1 :: c2 :: c3 :: c4 :: c5 :: c6 :: cells
    /\ Part001.parseRow lib row
       = [Part001.mkCaseDetail (Part001.cellText c0) (Part001.cellText c1)
            (fst (Part001.splitCaseInfo (Part001.cellText c2)))
            (snd (Part001.splitCaseInfo (Part001.cellText c2)))
            (Part001.cellText c3) (Part001.cellText c4) (Part001.cellText c5)
            (Part001.viewLink lib c6)].
Proof.
  unfold Part001.parseRow.
  destruct (find row [tag_is "td"]) as [|c0 [|c1 [|c2 [|c3 [|c4 [|c5 [|c6 cells]]]]]]];
    simpl; intros H; try lia.
  exists c0, c1, c2, c3, c4, c5, c6, cells. split; reflexivity.
Qed.

Lemma parseCaseDetailsDocument_rows (lib : library) (doc : document) :
  Part001.parseCaseDetailsDocument lib doc
  = flat_map (Part001.parseRow lib) (select doc Server.rows_selector).
Proof.
  unfold Part001.parseCaseDetailsDocument.
  destruct (select doc Server.rows_selector); reflexivity.
Qed.

(** C8, as the code has it. The case-info text
    ["W.P.(C) No. 123/2020 Registered on 05-01-2020"] is split into the case
    number ["W.P.(C) No. 123/2020"] and the date ["05-01-2020"]; a text
    without the pattern becomes the case number whole, its runs of white
    space collapsed to one space each, and the date stays empty. A document
    without matching rows parses to the empty list, and parsing a string
    never throws. The records are those of the rows with at least seven
    cells, in order: a row with fewer gives none and the rows after it are
    parsed all the same. *)
Theorem C8_table_parsing (lib : library) :
  Part001.splitCaseInfo "W.P.(C) No. 123/2020 Registered on 05-01-2020"
  = ("W.P.(C) No. 123/2020", "05-01-2020")
  /\ (forall text, Regex.match_registered_on text = None ->
        Part001.splitCaseInfo text = (trim (collapse_spaces text), EmptyString))
  /\ (forall doc, select doc Server.rows_selector = [] ->
        Part001.parseCaseDetailsDocument lib doc = [])
  /\ (forall html,
        Part001.parseCaseDetailsHtml lib (JStr html)
        = Return (Part001.parseCaseDetailsDocument lib (cheerio_load lib html)))
  /\ (forall doc,
        Part001.parseCaseDetailsDocument lib doc
        = flat_map (Part001.parseRow lib) (select doc Server.rows_selector))
  /\ (forall row, (length (find row [tag_is "td"]) < 7)%nat ->
        Part001.parseRow lib row = [])
  /\ (forall row, (7 <= length (find row [tag_is "td"]))%nat ->
        exists c0 c1 c2 c3 c4 c5 c6 cells,
          find row [tag_is "td"] = c0 :: c1 :: c2 :: c3 :: c4 :: c5 :: c6 :: cells
          /\ Part001.parseRow lib row
             = [Part001.mkCaseDetail (Part001.cellText c0) (Part001.cellText c1)
                  (fst (Part001.splitCaseInfo (Part001.cellText c2)))
                  (snd (Part001.splitCaseInfo (Part001.cellText c2)))
                  (Part001.cellText c3) (Part001.cellText c4) (Part001.cellText c5)
                  (Part001.viewLink lib c6)])
  /\ map (fun r => (Part001.caseNumber r, Part001.registeredOn r))
         (Part001.parseCaseDetailsDocument (lib_with results_one) results_one)
     = [("W.P.(C) No. 123/2020", "05-01-2020")]
  /\ map Part001.caseNumber
         (Part001.parseCaseDetailsDocument (lib_with results_short_row) results_short_row)
     = ["C.A. No. 1/2020"; "C.A. No. 2/2020"].
Proof.
  split; [reflexivity |]. split.
  { intros text H. unfold Part001.splitCaseInfo. now rewrite H. }
  split.
  { intros doc H. rewrite parseCaseDetailsDocument_rows, H. reflexivity. }
  split; [reflexivity |]. split; [apply parseCaseDetailsDocument_rows |].
  split; [apply parseRow_short |]. split; [apply parseRow_full |].
  split; reflexivity.
Qed.

(** C8 does not hold as it is stated: a case-info text without the pattern
    does not become the case number as it is. The cell text ["A  B"], with
    two spaces, gives the case number ["A B"]. *)
Lemma C8_counterexample_whole_text :
  Regex.match_registered_on "A  B" = None
  /\ map (fun row => Part001.cellText (List.nth 2 (find row [tag_is "td"]) row))
         (select results_spaces Server.rows_selector)
     = ["A  B"]
  /\ map Part001.caseNumber
         (Part001.parseCaseDetailsDocument (lib_with results_spaces) results_spaces)
     = ["A B"]
  /\ "A B" <> "A  B".
Proof. repeat split; try reflexivity. discriminate. Qed.

End ParserTheorems.

Section ReplyTheorems.
Import Str Dom Js Effects Common Variants Samples.

Lemma resultsHtml_of_failed (envelope : json) :
  prop (Some envelope) "success" = Some (JBool false) ->
  Part001.resultsHtml_of (Some envelope) = None
  /\ truthy (Some envelope) && Part001.is_false (prop (Some envelope) "success") = true.
Proof.
  intros H. unfold Part001.resultsHtml_of. rewrite H. simpl.
  rewrite andb_false_r. split; [reflexivity |].
  destruct envelope; simpl in *; try discriminate. reflexivity.
Qed.

Lemma resultsHtml_of_string (envelope : json) (html : string) :
  prop (Some envelope) "success" = Some (JBool true) ->
  prop (prop (Some envelope) "data") "resultsHtml" = Some (JStr html) ->
  html <> EmptyString ->
  Part001.resultsHtml_of (Some envelope) = Some (JStr html).
Proof.
  intros Hs Hh Hne. unfold Part001.resultsHtml_of. rewrite Hs, Hh. simpl.
  apply is_empty_false in Hne. rewrite Hne. simpl.
  destruct envelope; simpl in *; try discriminate.
  destruct (field "data" fields) as [[| | | | |dfields]|]; simpl in *;
    try discriminate. reflexivity.
Qed.

Lemma resultsHtml_of_missing (envelope : json) :
  truthy (prop (prop (Some envelope) "data") "resultsHtml") = false ->
  Part001.resultsHtml_of (Some envelope) = None.
Proof.
  intros H. unfold Part001.resultsHtml_of. rewrite H.
  now rewrite !andb_false_r.
Qed.

(** C9, as the code has it. Every reply of the normalizing endpoint, and of
    the endpoint of [server1.js], carries the elapsed time as [timeTakenMs],
    whatever its status, and a request whose [diaryData] has a text form is
    given a reply. In normalizing mode the status is 500 when the lookup
    throws, exhausted retries included; 422 when the envelope has
    [success === false] and its error message has a text form; 200 with
    [success: true] and the parsed records when the envelope has
    [success === true] and a non-empty string as [data.resultsHtml]; and 500
    when the envelope has [success === true] and no [data.resultsHtml], or
    a [success] that is neither [true] nor [false]. *)
Theorem C9_reply_statuses (lib : library) (w : world) (body : list (string * json))
    (st : state) :
  (forall r st',
     Part001.post_case_details lib w body st = (st', Return r) ->
     Part001.timeTakenMs r = calculateTimeTaken (hrtime w)
     /\ (Part001.code r = 400 \/ Part001.code r = 200 \/ Part001.code r = 422
         \/ Part001.code r = 500))
  /\ (forall cfg r st',
        Server1.post_case_details cfg lib w body st = (st', Return r) ->
        Server1.timeTakenMs r = calculateTimeTaken (hrtime w)
        /\ (Server1.code r = 400 \/ Server1.code r = 200 \/ Server1.code r = 500))
  /\ (escapes Part001Js (field "diaryData" body) = false ->
      (exists r st', Part001.post_case_details lib w body st = (st', Return r))
      /\ (forall cfg, exists r st',
            Server1.post_case_details cfg lib w body st = (st', Return r)))
  /\ (forall d y r st',
        validate (field "diaryData" body) = Valid d y ->
        Part001.post_case_details lib w body st = (st', Return r) ->
        match snd (Part001.getCaseDetailsProcess lib w d y st) with
        | Throw e =>
            Part001.code r = 500 /\ Part001.success r = false
            /\ Part001.error r
               = Some (JStr ("Failed to retrieve case details: " +:+ err_message e))
        | Return envelope =>
            (prop (Some envelope) "success" = Some (JBool false) ->
             no_text (Part001.errorMessage (Some envelope)) = false ->
             Part001.code r = 422 /\ Part001.success r = false
             /\ Part001.error r = Some (Part001.errorMessage (Some envelope)))
            /\ (forall html,
                  prop (Some envelope) "success" = Some (JBool true) ->
                  prop (prop (Some envelope) "data") "resultsHtml" = Some (JStr html) ->
                  html <> EmptyString ->
                  Part001.code r = 200 /\ Part001.success r = true
                  /\ Part001.data r
                     = Some (Part001.parseCaseDetailsDocument lib (cheerio_load lib html))
                  /\ Part001.pagination r
                     = prop (prop (Some envelope) "data") "pagination")
            /\ (prop (Some envelope) "success" = Some (JBool true) ->
                truthy (prop (prop (Some envelope) "data") "resultsHtml") = false ->
                Part001.code r = 500 /\ Part001.success r = false)
            /\ (Part001.is_true (prop (Some envelope) "success") = false ->
                Part001.is_false (prop (Some envelope) "success") = false ->
                Part001.code r = 500 /\ Part001.success r = false)
        end).
Proof.
  split; [| split; [| split]].
  - intros r st' Hrun.
    destruct (validate (field "diaryData" body)) as [message | d y] eqn:E.
    + destruct (Part000.callStart w (field "diaryData" body)) as [text | e] eqn:Hl.
      * destruct (part001_invalid lib w body message text st E Hl) as (r' & Hr & Hc & Ht).
        rewrite Hr in Hrun. injection Hrun as _ <-. split; [exact Ht | now left].
      * rewrite (part001_escapes lib w body e st Hl) in Hrun. discriminate.
    + destruct (part001_valid lib w body d y st E) as (r' & Hr & Ht & Hc).
      rewrite Hr in Hrun. injection Hrun as _ <-. split; [exact Ht |].
      destruct (snd (Part001.getCaseDetailsProcess lib w d y st)) as [envelope | e];
        [| tauto].
      destruct (Part001.resultsHtml_of (Some envelope)) as [html|].
      * destruct (Part001.parseCaseDetailsHtml lib html); tauto.
      * destruct (truthy (Some envelope) && _); [| tauto].
        destruct (template (Some (Part001.errorMessage (Some envelope)))); tauto.
  - intros cfg r st' Hrun.
    destruct (validate (field "diaryData" body)) as [message | d y] eqn:E.
    + destruct (Server1.requestIdentifier w (field "diaryData" body)) as [text | e] eqn:Hl.
      * destruct (server1_invalid lib w cfg body message text st E Hl) as (r' & Hr & Hc & Ht).
        rewrite Hr in Hrun. injection Hrun as _ <-. split; [exact Ht | now left].
      * rewrite (server1_escapes lib w cfg body e st Hl) in Hrun. discriminate.
    + destruct (server1_valid lib w cfg body d y st E) as (r' & st'' & Hr & _ & Ht & Hc).
      rewrite Hr in Hrun. injection Hrun as _ <-. split; [exact Ht |].
      destruct (snd (Server1.getCaseDetailsProcess cfg lib w d y st)); tauto.
  - intros Hesc. split; [| intros cfg].
    + pose proof (endpoint_cases Part001Js lib w body st) as H.
      pose proof (before_validation_cases Part001Js w (field "diaryData" body)) as Hb.
      rewrite Hesc in Hb. destruct Hb as [text Hb]. rewrite Hb in H.
      cbn [Variants.post_case_details] in H. unfold_M.
      destruct (Part001.post_case_details lib w body st) as [st' [r | e]].
      * eauto.
      * destruct (validate (field "diaryData" body));
          [discriminate | destruct H as (? & ? & ? & ? & _); discriminate].
    + pose proof (endpoint_cases (Server1Js cfg) lib w body st) as H.
      pose proof (before_validation_cases (Server1Js cfg) w (field "diaryData" body)) as Hb.
      cbn [escapes] in Hesc, Hb. rewrite Hesc in Hb. destruct Hb as [text Hb].
      rewrite Hb in H. cbn [Variants.post_case_details] in H. unfold_M.
      destruct (Server1.post_case_details cfg lib w body st) as [st' [r | e]].
      * eauto.
      * destruct (validate (field "diaryData" body));
          [discriminate | destruct H as (? & ? & ? & ? & _); discriminate].
  - intros d y r st' E Hrun.
    destruct (part001_valid lib w body d y st E) as (r' & Hr & _ & Hc).
    rewrite Hr in Hrun. injection Hrun as _ <-.
    destruct (snd (Part001.getCaseDetailsProcess lib w d y st)) as [envelope | e];
      [| exact Hc].
    split; [| split; [| split]].
    + intros Hs Htext. destruct (resultsHtml_of_failed envelope Hs) as [Hn Hf].
      rewrite Hn, Hf in Hc.
      pose proof (ToString_cases (Part001.errorMessage (Some envelope))) as Hm.
      rewrite Htext in Hm. destruct Hm as [text Hm].
      cbn [template] in Hc. rewrite Hm in Hc. exact Hc.
    + intros html Hs Hh Hne.
      rewrite (resultsHtml_of_string envelope html Hs Hh Hne) in Hc. exact Hc.
    + intros Hs Hm. rewrite (resultsHtml_of_missing envelope Hm) in Hc.
      assert (Part001.is_false (prop (Some envelope) "success") = false) as Hf
        by now rewrite Hs.
      rewrite Hf, andb_false_r in Hc. exact Hc.
    + intros Ht Hf. unfold Part001.resultsHtml_of in Hc.
      rewrite Ht, Hf, andb_false_r in Hc. simpl in Hc. exact Hc.
Qed.

(** C9 does not hold as it is stated: an envelope that reports success and
    carries no results is answered 500, not 200. *)
Lemma C9_counterexample_success_without_results :
  let run := Part001.post_case_details (lib_with results_one)
               (world_with (answers envelope_bare)) (body_of "2444/2023") start in
  snd (Part001.getCaseDetailsProcess (lib_with results_one)
         (world_with (answers envelope_bare)) "2444" "2023" start)
  = Return envelope_bare
  /\ prop (Some envelope_bare) "success" = Some (JBool true)
  /\ exists r, snd run = Return r /\ Part001.code r = 500 /\ Part001.success r = false.
Proof.
  cbv zeta. split; [reflexivity |]. split; [reflexivity |].
  eexists. split; [vm_compute; reflexivity |]. split; reflexivity.
Qed.

End ReplyTheorems.

Section SingleRecord.
Import Str Dom Js Effects Common Variants Samples.
Context (lib : library) (w : world).

Lemma parse_no_rows (doc : document) :
  select doc Server.rows_selector = [] ->
  Server.parseCaseDetailsFromDocument lib doc = Throw Server.parse_error.
Proof. intros H. unfold Server.parseCaseDetailsFromDocument. now rewrite H. Qed.

(** What a successful parse returns is read from the first row, and its
    diary number is not empty. *)
Lemma parse_returns (doc : document) (v : Server.caseData) :
  Server.parseCaseDetailsFromDocument lib doc = Return v ->
  exists row rest,
    select doc Server.rows_selector = row :: rest
    /\ Server.diaryNumber v = trim (text (find_all [row] (Server.td 2)))
    /\ Server.diaryNumber v <> EmptyString.
Proof.
  unfold Server.parseCaseDetailsFromDocument.
  destruct (select doc Server.rows_selector) as [|row rest]; [discriminate |].
  cbn [first length Nat.ltb Nat.leb].
  set (link := attr _ "href").
  intros H. exists row, rest. split; [reflexivity |].
  destruct (present link).
  - destruct link as [href|].
    + destruct (url_href lib href INITIAL_PAGE_URL) as [absolute | e]; [| discriminate].
      cbn [Server.diaryNumber] in H.
      destruct (is_empty (trim (text (find_all [row] (Server.td 2))))) eqn:E;
        [discriminate |].
      injection H as <-. split; [reflexivity | now apply is_empty_false].
    + cbn [Server.diaryNumber] in H.
      destruct (is_empty (trim (text (find_all [row] (Server.td 2))))) eqn:E;
        [discriminate |].
      injection H as <-. split; [reflexivity | now apply is_empty_false].
  - cbn [Server.diaryNumber] in H.
    destruct (is_empty (trim (text (find_all [row] (Server.td 2))))) eqn:E;
      [discriminate |].
    injection H as <-. split; [reflexivity | now apply is_empty_false].
Qed.

Lemma parse_empty_diary (doc : document) (row : item) (rest : list item) :
  select doc Server.rows_selector = row :: rest ->
  trim (text (find_all [row] (Server.td 2))) = EmptyString ->
  exists e, Server.parseCaseDetailsFromDocument lib doc = Throw e.
Proof.
  intros Hrows Hd.
  destruct (Server.parseCaseDetailsFromDocument lib doc) as [v | e] eqn:E; [| eauto].
  apply parse_returns in E as (row' & rest' & Hrows' & Hv & Hne).
  rewrite Hrows in Hrows'. injection Hrows' as <- <-. congruence.
Qed.

Lemma parse_first_row_only (doc1 doc2 : document) :
  first (select doc1 Server.rows_selector) = first (select doc2 Server.rows_selector) ->
  Server.parseCaseDetailsFromDocument lib doc1
  = Server.parseCaseDetailsFromDocument lib doc2.
Proof. intros H. unfold Server.parseCaseDetailsFromDocument. now rewrite H. Qed.

Lemma conclude_string (jsonData : json) (html : string) :
  Server.resultsHtml_of (Some jsonData) = Some (JStr html) ->
  Server.conclude lib jsonData
  = Server.parseCaseDetailsFromDocument lib (cheerio_load lib html).
Proof. intros H. unfold Server.conclude. now rewrite H. Qed.

End SingleRecord.

Section SingleRecordTheorems.
Import Str Dom Js Effects Common Variants Samples.

(** C10. In [server.js] a results table without rows, or whose first row
    has an empty diary-number cell, makes [parseCaseDetailsFromHtml] throw;
    the parse is the last statement of the attempt, so the attempt fails and
    the loop goes on. An attempt returns only a record that the parse
    returned: it is read from the first row alone and its diary number is
    not empty, so no empty result is ever returned. When all five attempts
    fail, the endpoint answers 500 with the message of the fifth error. *)
Theorem C10_single_record_variant (lib : library) (w : world) :
  (forall doc, select doc Server.rows_selector = [] ->
     Server.parseCaseDetailsFromDocument lib doc = Throw Server.parse_error)
  /\ (forall doc row rest,
        select doc Server.rows_selector = row :: rest ->
        trim (text (find_all [row] (Server.td 2))) = EmptyString ->
        exists e, Server.parseCaseDetailsFromDocument lib doc = Throw e)
  /\ (forall doc v,
        Server.parseCaseDetailsFromDocument lib doc = Return v ->
        exists row rest,
          select doc Server.rows_selector = row :: rest
          /\ Server.diaryNumber v = trim (text (find_all [row] (Server.td 2)))
          /\ Server.diaryNumber v <> EmptyString)
  /\ (forall doc1 doc2,
        first (select doc1 Server.rows_selector) = first (select doc2 Server.rows_selector) ->
        Server.parseCaseDetailsFromDocument lib doc1
        = Server.parseCaseDetailsFromDocument lib doc2)
  /\ (forall jsonData html,
        Server.resultsHtml_of (Some jsonData) = Some (JStr html) ->
        Server.conclude lib jsonData
        = Server.parseCaseDetailsFromDocument lib (cheerio_load lib html))
  /\ (forall d y n st v,
        snd (Server.cycle lib w d y n st) = Return v ->
        exists url response jsonData,
          fetch w n url = Return response /\ body_json response = Return jsonData
          /\ Server.conclude lib jsonData = Return v)
  /\ (forall body d y st err,
        validate (field "diaryData" body) = Valid d y ->
        (forall n st', (1 <= n <= Server.MAX_ATTEMPTS)%nat ->
           snd (Server.cycle lib w d y n st') = Throw (err n)) ->
        exists r st',
          Server.post_case_details lib w body st = (st', Return r)
          /\ control (trace st')
             = control (trace st)
               ++ failures Server.MAX_ATTEMPTS Server.delaySeconds err Server.MAX_ATTEMPTS
          /\ Server.code r = 500 /\ Server.success r = false
          /\ Server.data r = None
          /\ Server.error r
             = Some ("Failed to retrieve case details: "
                     +:+ err_message (err Server.MAX_ATTEMPTS)))
  /\ (let run := Server.post_case_details (lib_with results_empty)
                   (world_with (answers envelope_ok)) (body_of "2444/2023") start in
      control (trace (fst run))
      = failures 5 Server.delaySeconds (fun _ => Server.parse_error) 5
      /\ failed_attempts (trace (fst run)) = 5%nat
      /\ exists r, snd run = Return r /\ Server.code r = 500
                   /\ Server.error r
                      = Some ("Failed to retrieve case details: "
                              +:+ err_message Server.parse_error)).
Proof.
  split; [apply parse_no_rows |]. split; [apply parse_empty_diary |].
  split; [apply parse_returns |]. split; [apply parse_first_row_only |].
  split; [apply conclude_string |]. split; [apply server_cycle_returns |]. split.
  - intros body d y st err Hv Hfail.
    destruct (server_valid lib w body d y st Hv) as (r & Hr & _ & Hc).
    destruct (retry_exhausted Server.MAX_ATTEMPTS Server.delaySeconds
                (Server.cycle lib w d y) (quiet_server_cycle lib w d y) err st Hfail)
      as [Htr Hres].
    unfold Server.getCaseDetailsProcess in Hr, Hc. rewrite Hres in Hc.
    exists r, (fst (retry Server.MAX_ATTEMPTS Server.delaySeconds
                      (Server.cycle lib w d y) st)).
    destruct Hc as (Hcode & Hs & He).
    repeat split; try assumption.
    destruct r as [code success data error time]. simpl in *.
    revert Hr. unfold Server.post_case_details. rewrite Hv. unfold_M.
    unfold Server.getCaseDetailsProcess.
    destruct (retry _ _ _ st) as [st' o]. simpl in Hres. subst o. simpl.
    intros H. now injection H.
  - cbv zeta. split; [reflexivity |]. split; [reflexivity |].
    eexists. split; [vm_compute; reflexivity |]. split; reflexivity.
Qed.

End SingleRecordTheorems.

(** * Further properties of the code *)

Ltac exec_step :=
  match goal with
  | |- context [match ?x with _ => _ end] =>
      lazymatch x with
      | context [match _ with _ => _ end] => fail
      | _ => destruct x eqn:?
      end
  end; cbn beta iota zeta delta [fst snd Effects.trace Effects.cache].

Ltac exec := repeat exec_step.

Section AttemptShape.
Import Str Js Effects Common Variants Footprint.
Context (lib : library) (w : world).

Lemma starts_with_append (p s : string) : starts_with p (p +:+ s) = true.
Proof.
  induction p as [|c p IH]; simpl; [reflexivity |].
  unfold starts_with in *. simpl. now rewrite Ascii.eqb_refl, IH.
Qed.

Lemma final_url_base d y scid tok answer :
  starts_with (AJAX_URL_BASE +:+ "?") (buildFinalUrl d y scid tok answer) = true.
Proof.
  unfold buildFinalUrl.
  replace (AJAX_URL_BASE +:+ "?" +:+ URLSearchParams.toString (finalParams d y scid tok answer))
    with ((AJAX_URL_BASE +:+ "?") +:+ URLSearchParams.toString (finalParams d y scid tok answer)).
  - apply starts_with_append.
  - reflexivity.
Qed.

Ltac shape_done :=
  rewrite <- ?app_assoc; simpl;
  eexists; split; [reflexivity |]; split;
  [ cbn [attempt_events]; rewrite String.eqb_refl, ?final_url_base; reflexivity
  | intros ? ?; first [discriminate | reflexivity] ].

Lemma server_attempt_events d y n st :
  exists evs,
    trace (fst (Server.cycle lib w d y n st)) = trace st ++ evs
    /\ attempt_events INITIAL_PAGE_URL evs = true
    /\ (forall r, snd (Server.cycle lib w d y n st) = Return r -> length evs = 4%nat).
Proof.
  unfold Server.cycle, Server.fetchHtml, Server.fetchImageBuffer,
    Server.solveCaptchaWithGemini, Common.solveCaptchaWithGemini.
  unfold_M. cbn beta iota zeta delta [fst snd Effects.trace Effects.cache].
  exec; shape_done.
Qed.

Lemma part000_attempt_events d y n st :
  exists evs,
    trace (fst (Part000.cycle lib w d y n st)) = trace st ++ evs
    /\ attempt_events (Server1.initialPageUrlWithCacheBuster (date_now w n 0)) evs = true
    /\ (forall r, snd (Part000.cycle lib w d y n st) = Return r -> length evs = 4%nat).
Proof.
  unfold Part000.cycle, Part000.fetchHtml, Part000.fetchImageBuffer,
    Part000.solveCaptchaWithGemini, Common.solveCaptchaWithGemini.
  unfold_M. cbn beta iota zeta delta [fst snd Effects.trace Effects.cache].
  exec; shape_done.
Qed.

Lemma server1_attempt_events cfg d y n st :
  exists evs,
    trace (fst (Server1.cycle cfg lib w d y n st)) = trace st ++ evs
    /\ attempt_events (Server1.initialPageUrlWithCacheBuster (date_now w n 0)) evs = true
    /\ (forall r, snd (Server1.cycle cfg lib w d y n st) = Return r -> length evs = 4%nat).
Proof.
  unfold Server1.cycle, Server1.fetchHtml, Server1.fetchImageBuffer,
    Server1.solveCaptchaWithGemini, Common.solveCaptchaWithGemini, Server1.on_abort.
  unfold_M. cbn beta iota zeta delta [fst snd Effects.trace Effects.cache].
  exec; shape_done.
Qed.

Lemma attempt_events_of (v : variant) d y n st :
  exists evs,
    trace (fst (Variants.cycle v lib w d y n st)) = trace st ++ evs
    /\ attempt_events (pageUrl v w n) evs = true
    /\ (forall r, snd (Variants.cycle v lib w d y n st) = Return r -> length evs = 4%nat).
Proof.
  destruct v as [|cfg| |]; simpl;
    [apply server_attempt_events | apply server1_attempt_events
     | apply part000_attempt_events | apply part000_attempt_events].
Qed.

Lemma attempt_events_counts page evs :
  attempt_events page evs = true ->
  (1 <= fetches evs <= 3)%nat /\ (solves evs <= 1)%nat
  /\ failed_attempts evs = 0%nat /\ sleeps evs = [].
Proof.
  unfold attempt_events.
  destruct evs as [|[] [|[] [|[] [|[] [|? ?]]]]]; simpl;
    rewrite ?andb_false_r; try discriminate; intros _; repeat split; lia.
Qed.

End AttemptShape.
Section Counting.
Import Str Js Effects Common Variants Footprint.

Lemma fetches_app (a b : list event) : fetches (a ++ b) = (fetches a + fetches b)%nat.
Proof.
  induction a as [|ev a IH]; simpl; [reflexivity |].
  destruct ev; simpl; now rewrite IH.
Qed.

Lemma solves_app (a b : list event) : solves (a ++ b) = (solves a + solves b)%nat.
Proof.
  induction a as [|ev a IH]; simpl; [reflexivity |].
  destruct ev; simpl; now rewrite IH.
Qed.

Lemma total_app (a b : list Float.number) : (total (a ++ b) == total a + total b)%Q.
Proof.
  induction a as [|d a IH]; simpl; [lra |]. rewrite IH. lra.
Qed.

(** A timer waits one millisecond at least. *)
Lemma timeout_pos (d : Float.number) : 1 <= timeout d.
Proof.
  unfold timeout, Timers.setTimeout.
  destruct (Float.mul d (Float.Finite 1000)) as [ms|]; [| lia].
  destruct (Qle_bool 1 ms) eqn:E; simpl; [| lia].
  destruct (Qle_bool ms (inject_Z Timers.TIMEOUT_MAX)); [| lia].
  apply Qle_bool_iff, Qfloor_resp_le in E. exact E.
Qed.

Lemma waited_nonneg (d : Float.number) : (0 <= waited d)%Q.
Proof.
  unfold waited. apply Qle_shift_div_l; [reflexivity |].
  rewrite Qmult_0_l. change 0%Q with (inject_Z 0). rewrite <- Zle_Qle.
  pose proof (timeout_pos d). lia.
Qed.

Lemma total_nonneg (ds : list Float.number) : (0 <= total ds)%Q.
Proof.
  induction ds as [|d ds IH]; simpl; [lra |]. pose proof (waited_nonneg d). lra.
Qed.

Lemma trace_after_failure M delay attempts error st :
  trace (after_failure M delay attempts error st)
  = trace st ++ EvAttemptFailed attempts error
      :: (if (attempts <? M)%nat then [EvSleep (delay attempts)] else []).
Proof.
  unfold after_failure. destruct (attempts <? M)%nat; simpl;
    rewrite <- ?app_assoc; reflexivity.
Qed.

End Counting.

Section LoopBounds.
Import Str Js Effects Common Variants Footprint.
Context {A : Type} (MAX_ATTEMPTS : nat) (delay : nat -> Float.number) (cycle : nat -> M A).

Hypothesis cycle_bounded : forall n st,
  exists evs, trace (fst (cycle n st)) = trace st ++ evs
              /\ (1 <= fetches evs <= 3)%nat /\ (solves evs <= 1)%nat
              /\ failed_attempts evs = 0%nat /\ sleeps evs = [].

Lemma delays_nonneg (a r : nat) : (0 <= total (map delay (seq a r)))%Q.
Proof. apply total_nonneg. Qed.

(** Whatever the attempts do, the loop makes no more turns than it has
    left, and waits only between two of them. *)
Lemma retry_loop_bounds remaining attempts e st :
  (attempts + remaining = MAX_ATTEMPTS)%nat ->
  exists evs,
    trace (fst (retry_loop MAX_ATTEMPTS delay cycle remaining attempts e st))
    = trace st ++ evs
    /\ (fetches evs <= 3 * remaining)%nat
    /\ (1 <= remaining -> 1 <= fetches evs)%nat
    /\ (solves evs <= remaining)%nat
    /\ (failed_attempts evs <= remaining)%nat
    /\ (length (sleeps evs) <= remaining - 1)%nat
    /\ (length (sleeps evs) <= failed_attempts evs)%nat
    /\ (total (sleeps evs) <= total (map delay (seq (S attempts) (remaining - 1))))%Q.
Proof.
  revert attempts e st. induction remaining as [|r IH]; intros attempts e st Hsum.
  - exists []. simpl. rewrite app_nil_r. repeat split; try lia. lra.
  - destruct (cycle_bounded (S attempts) st) as (evs & Htr & Hf & Hs & Hfa & Hsl).
    destruct (snd (cycle (S attempts) st)) as [v | error] eqn:E.
    + rewrite (retry_loop_returns MAX_ATTEMPTS delay cycle r attempts e st v E).
      exists evs. simpl fst. rewrite Hsl, Hfa. simpl length. simpl total.
      repeat split; try lia; [exact Htr |]. apply delays_nonneg.
    + rewrite (retry_loop_fails MAX_ATTEMPTS delay cycle r attempts e st error E).
      destruct (IH (S attempts) error
                  (after_failure MAX_ATTEMPTS delay (S attempts) error
                     (fst (cycle (S attempts) st)))) as (rest & Hr & Hrf & Hrf1 & Hrs & Hrfa & Hrl & Hrlf & Hrt);
        [lia |].
      rewrite trace_after_failure, Htr, <- !app_assoc in Hr.
      eexists. split; [exact Hr |].
      rewrite !fetches_app, !solves_app, !failed_attempts_app, !sleeps_app, Hsl, Hfa.
      destruct (S attempts <? MAX_ATTEMPTS)%nat eqn:Hlt; simpl.
      * apply Nat.ltb_lt in Hlt. destruct r as [|r']; [lia |].
        simpl in Hrl, Hrt |- *. rewrite Nat.sub_0_r in *.
        repeat split; try lia. lra.
      * apply Nat.ltb_ge in Hlt. assert (r = 0%nat) as -> by lia.
        simpl in *. repeat split; try lia. exact Hrt.
Qed.

Lemma retry_bounds st :
  exists evs,
    trace (fst (retry MAX_ATTEMPTS delay cycle st)) = trace st ++ evs
    /\ (fetches evs <= 3 * MAX_ATTEMPTS)%nat
    /\ (1 <= MAX_ATTEMPTS -> 1 <= fetches evs)%nat
    /\ (solves evs <= MAX_ATTEMPTS)%nat
    /\ (failed_attempts evs <= MAX_ATTEMPTS)%nat
    /\ (length (sleeps evs) <= MAX_ATTEMPTS - 1)%nat
    /\ (length (sleeps evs) <= failed_attempts evs)%nat
    /\ (total (sleeps evs) <= total (map delay (seq 1 (MAX_ATTEMPTS - 1))))%Q.
Proof. apply retry_loop_bounds. lia. Qed.

End LoopBounds.
Section FirstSuccess.
Import Str Js Effects Common Variants Footprint.
Context {A : Type} (MAX_ATTEMPTS : nat) (delay : nat -> Float.number) (cycle : nat -> M A).

(** When the attempts [attempts + 1 .. attempts + j] fail and the next one
    returns, the loop returns what that attempt returns, in the state it
    leaves, and makes no further turn. *)
Lemma retry_loop_succeeds err j remaining attempts e st v :
  (forall n st', (attempts < n <= attempts + j)%nat -> snd (cycle n st') = Throw (err n)) ->
  (forall st', snd (cycle (S (attempts + j)) st') = Return v) ->
  retry_loop MAX_ATTEMPTS delay cycle (j + S remaining) attempts e
    (failed_run MAX_ATTEMPTS delay cycle err attempts st)
  = (fst (cycle (S (attempts + j))
            (failed_run MAX_ATTEMPTS delay cycle err (attempts + j) st)),
     Return v).
Proof.
  revert attempts e. induction j as [|j IH]; intros attempts e Hfail Hok.
  - rewrite Nat.add_0_r in *. simpl Nat.add. now apply retry_loop_returns.
  - simpl Nat.add.
    rewrite (retry_loop_fails MAX_ATTEMPTS delay cycle (j + S remaining) attempts e _
               (err (S attempts))) by (apply Hfail; lia).
    replace (attempts + S j)%nat with (S attempts + j)%nat in * by lia.
    apply (IH (S attempts)); [| exact Hok].
    intros n st' Hn. apply Hfail. lia.
Qed.

Lemma retry_succeeds err j st v :
  (S j <= MAX_ATTEMPTS)%nat ->
  (forall n st', (1 <= n <= j)%nat -> snd (cycle n st') = Throw (err n)) ->
  (forall st', snd (cycle (S j) st') = Return v) ->
  retry MAX_ATTEMPTS delay cycle st
  = (fst (cycle (S j) (failed_run MAX_ATTEMPTS delay cycle err j st)), Return v).
Proof.
  intros Hj Hfail Hok. unfold retry.
  assert (forall remaining, remaining = (j + S (MAX_ATTEMPTS - S j))%nat ->
            retry_loop MAX_ATTEMPTS delay cycle remaining 0
              (Error "Process not attempted.") st
            = (fst (cycle (S j) (failed_run MAX_ATTEMPTS delay cycle err j st)),
               Return v)) as H.
  { intros remaining ->.
    apply (retry_loop_succeeds err j (MAX_ATTEMPTS - S j) 0 _ st v).
    - intros n st' Hn. apply Hfail. lia.
    - exact Hok. }
  apply H. lia.
Qed.

Hypothesis cycle_quiet : forall n, quiet (cycle n).

Lemma control_failed_run err k st :
  control (trace (failed_run MAX_ATTEMPTS delay cycle err k st))
  = control (trace st) ++ failures MAX_ATTEMPTS delay err k.
Proof.
  induction k as [|k IH]; simpl; [now rewrite app_nil_r |].
  rewrite control_after_failure, cycle_quiet, IH, <- app_assoc. reflexivity.
Qed.

End FirstSuccess.

Section FootprintTheorems.
Import Str Js Effects Common Variants Footprint Samples Scenarios.


Lemma variant_cycle_bounded (v : variant) (lib : library) (w : world) (d y : string) n st :
  exists evs, trace (fst (Variants.cycle v lib w d y n st)) = trace st ++ evs
              /\ (1 <= fetches evs <= 3)%nat /\ (solves evs <= 1)%nat
              /\ failed_attempts evs = 0%nat /\ sleeps evs = [].
Proof.
  destruct (attempt_events_of lib w v d y n st) as (evs & Htr & Hshape & _).
  exists evs. destruct (attempt_events_counts _ _ Hshape) as (Hf & Hs & Hfa & Hsl).
  repeat split; try assumption; lia.
Qed.

(** A lookup is the cache check followed, on a miss, by the retry loop. *)
Lemma lookup_cases (v : variant) (lib : library) (w : world) (d y : string) (st : state) :
  (cache_miss v w d y st
   /\ exists st0, trace st0 = trace st
     /\ Variants.getCaseDetailsProcess v lib w d y st
        = retry (Variants.MAX_ATTEMPTS v) (Variants.delaySeconds v w)
            (Variants.cycle v lib w d y) st0)
  \/ (~ cache_miss v w d y st
      /\ trace (fst (Variants.getCaseDetailsProcess v lib w d y st)) = trace st
      /\ exists result, snd (Variants.getCaseDetailsProcess v lib w d y st) = Return result).
Proof.
  destruct v as [|cfg| |]; simpl;
    try (left; split; [exact I | exists st; split; reflexivity]).
  unfold Server1.getCaseDetailsProcess. unfold_M.
  destruct (NodeCache.get (date_now w 0 0) (Server1.cacheKey d y) (cache st))
    as [cachedData c'] eqn:E.
  simpl. destruct (truthy cachedData) eqn:Ht.
  - right. split; [congruence |]. destruct cachedData as [x|]; [| discriminate].
    simpl. eauto.
  - left. split; [reflexivity |]. eexists. split; [| reflexivity]. reflexivity.
Qed.

(** X2. A lookup sends at most [3 * MAX_ATTEMPTS] requests and consults the
    oracle at most [MAX_ATTEMPTS] times, whatever the outside answers; a
    lookup that [server1.js] serves from its cache sends nothing at all. *)
Theorem lookup_request_budget (v : variant) (lib : library) (w : world)
    (diaryNo year : string) (st : state) :
  exists evs,
    trace (fst (Variants.getCaseDetailsProcess v lib w diaryNo year st)) = trace st ++ evs
    /\ (fetches evs <= 3 * Variants.MAX_ATTEMPTS v)%nat
    /\ (solves evs <= Variants.MAX_ATTEMPTS v)%nat
    /\ (cache_miss v w diaryNo year st -> (1 <= Variants.MAX_ATTEMPTS v)%nat ->
        (1 <= fetches evs)%nat)
    /\ (failed_attempts evs <= Variants.MAX_ATTEMPTS v)%nat
    /\ (length (sleeps evs) <= Variants.MAX_ATTEMPTS v - 1)%nat
    /\ (~ cache_miss v w diaryNo year st -> evs = []).
Proof.
  destruct (lookup_cases v lib w diaryNo year st) as [(Hmiss & st0 & Htr & ->) | (Hhit & Htr & _)].
  - destruct (retry_bounds (Variants.MAX_ATTEMPTS v) (Variants.delaySeconds v w)
                (Variants.cycle v lib w diaryNo year)
                (variant_cycle_bounded v lib w diaryNo year) st0)
      as (evs & He & Hf & Hf1 & Hs & Hfa & Hsl & _ & _).
    exists evs. rewrite He, Htr.
    split; [reflexivity |]. split; [exact Hf |]. split; [exact Hs |].
    split; [intros _ H1; exact (Hf1 H1) |]. split; [exact Hfa |].
    split; [exact Hsl |]. intros Hhit. contradiction.
  - exists []. rewrite app_nil_r. simpl.
    split; [exact Htr |]. split; [lia |]. split; [lia |].
    split; [intros Hm; contradiction |]. split; [lia |]. split; [lia |]. reflexivity.
Qed.

(** The backoff never waits longer than [2^n + 1] seconds: up to attempt 21
    the timer is set for the delay, and after that for one millisecond. *)
Lemma backoff_waited (w : world) (n : nat) :
  random_in_range w -> (waited (backoff w n) <= inject_Z (2 ^ Z.of_nat n + 1))%Q.
Proof.
  intros Hr. unfold waited. apply Qle_shift_div_r; [reflexivity |].
  change 1000%Q with (inject_Z 1000). rewrite <- inject_Z_mult, <- Zle_Qle.
  assert (0 < 2 ^ Z.of_nat n) by (apply Z.pow_pos_nonneg; lia).
  destruct (Nat.le_gt_cases n 21) as [Hn | Hn].
  - pose proof (backoff_timeout w n Hr Hn) as [_ H']. lia.
  - rewrite (backoff_timeout_clamped w n Hr) by lia. lia.
Qed.

Lemma backoff_total (w : world) (k : nat) :
  random_in_range w ->
  (total (map (backoff w) (seq 1 k))
   <= inject_Z (2 ^ (Z.of_nat k + 1) - 2 + Z.of_nat k))%Q.
Proof.
  intros Hr. induction k as [|k IH].
  - simpl. change 0%Q with (inject_Z 0). rewrite <- Zle_Qle. simpl. lia.
  - rewrite seq_S, map_app, total_app. simpl map. simpl total.
    pose proof (backoff_waited w (S k) Hr) as Hb.
    replace (Z.of_nat (S k)) with (Z.of_nat k + 1) in Hb by lia.
    apply Qle_trans with (inject_Z (2 ^ (Z.of_nat k + 1) - 2 + Z.of_nat k)
                          + inject_Z (2 ^ (Z.of_nat k + 1) + 1))%Q; [lra |].
    rewrite <- inject_Z_plus, <- Zle_Qle.
    replace (Z.of_nat (S k) + 1) with (Z.succ (Z.of_nat k + 1)) by lia.
    rewrite Z.pow_succ_r by lia. lia.
Qed.

Lemma delays_within_budget (v : variant) (w : world) :
  random_in_range w ->
  (total (map (Variants.delaySeconds v w) (seq 1 (Variants.MAX_ATTEMPTS v - 1)))
   <= wait_budget v)%Q.
Proof.
  intros Hr. destruct v as [|cfg| |];
    [vm_compute; discriminate | now apply backoff_total ..].
Qed.

(** X3. The waits of a lookup are at most [MAX_ATTEMPTS - 1], each after a
    failed attempt that is not the last, and they add up to no more than the
    delays after the attempts 1 to [MAX_ATTEMPTS - 1]: 18 seconds in
    [server.js], 8 seconds in the two unnamed variants and in [server1.js]
    as it is configured by default. *)
Theorem lookup_wait_budget (v : variant) (lib : library) (w : world)
    (diaryNo year : string) (st : state) :
  random_in_range w ->
  exists evs,
    trace (fst (Variants.getCaseDetailsProcess v lib w diaryNo year st)) = trace st ++ evs
    /\ (length (sleeps evs) <= Variants.MAX_ATTEMPTS v - 1)%nat
    /\ (length (sleeps evs) <= failed_attempts evs)%nat
    /\ (total (sleeps evs) <= wait_budget v)%Q
    /\ wait_budget ServerJs = 18%Q
    /\ wait_budget Part000Js = inject_Z 8
    /\ wait_budget Part001Js = inject_Z 8
    /\ wait_budget (Server1Js Server1.default_config) = inject_Z 8.
Proof.
  intros Hr.
  assert (exists evs,
    trace (fst (Variants.getCaseDetailsProcess v lib w diaryNo year st)) = trace st ++ evs
    /\ (length (sleeps evs) <= Variants.MAX_ATTEMPTS v - 1)%nat
    /\ (length (sleeps evs) <= failed_attempts evs)%nat
    /\ (total (sleeps evs) <= wait_budget v)%Q) as (evs & H1 & H2 & H3 & H4).
  { destruct (lookup_cases v lib w diaryNo year st)
      as [(Hmiss & st0 & Htr & ->) | (Hhit & Htr & _)].
    - destruct (retry_bounds (Variants.MAX_ATTEMPTS v) (Variants.delaySeconds v w)
                  (Variants.cycle v lib w diaryNo year)
                  (variant_cycle_bounded v lib w diaryNo year) st0)
        as (evs & He & _ & _ & _ & _ & Hsl & Hsf & Ht).
      exists evs. rewrite He, Htr. repeat split; try assumption.
      eapply Qle_trans; [apply Ht |].
      now apply delays_within_budget.
    - exists []. rewrite app_nil_r. simpl. repeat split; try lia; try exact Htr.
      eapply Qle_trans; [| now apply delays_within_budget].
      apply delays_nonneg. }
  exists evs. repeat split; assumption.
Qed.

(** In a world where nothing answers, the three attempts of [part_000] are
    separated by two waits of [2 + 1/2] and [4 + 1/2] seconds. *)
Lemma lookup_wait_budget_witness :
  exists evs,
    trace (fst (Part000.getCaseDetailsProcess (lib_with results_one) world_down
                  "2444" "2023" start)) = trace start ++ evs
    /\ (length (sleeps evs) <= 3 - 1)%nat
    /\ (length (sleeps evs) <= failed_attempts evs)%nat
    /\ (total (sleeps evs) <= wait_budget Part000Js)%Q
    /\ wait_budget ServerJs = 18%Q
    /\ wait_budget Part000Js = inject_Z 8
    /\ wait_budget Part001Js = inject_Z 8
    /\ wait_budget (Server1Js Server1.default_config) = inject_Z 8.
Proof.
  apply (lookup_wait_budget Part000Js (lib_with results_one) world_down "2444" "2023" start).
  intros n. simpl. split; lra.
Defined.

End FootprintTheorems.

Section SuccessTheorems.
Import Str Js Effects Common Variants Footprint Samples Scenarios.

(** X4. When the attempts 1 to [k - 1] of a lookup fail and attempt [k] returns
    (and, in [server1.js], the cache has nothing to return), the lookup
    returns what attempt [k] returned and stops there: its final state is
    the one attempt [k] leaves, the loop has logged the [k - 1] failures in
    order, and it has waited once after each of them. *)
Theorem lookup_returns_first_success (v : variant) (lib : library) (w : world)
    (diaryNo year : string) (st : state) (err : nat -> js_error) (k : nat)
    (result : payload v) :
  cache_miss v w diaryNo year st ->
  (1 <= k <= Variants.MAX_ATTEMPTS v)%nat ->
  (forall n st', (1 <= n < k)%nat ->
     snd (Variants.cycle v lib w diaryNo year n st') = Throw (err n)) ->
  (forall st', snd (Variants.cycle v lib w diaryNo year k st') = Return result) ->
  let run := Variants.getCaseDetailsProcess v lib w diaryNo year st in
  let log := failures (Variants.MAX_ATTEMPTS v) (Variants.delaySeconds v w) err (k - 1) in
  snd run = Return result
  /\ fst run
     = fst (Variants.cycle v lib w diaryNo year k
              (failed_run (Variants.MAX_ATTEMPTS v) (Variants.delaySeconds v w)
                 (Variants.cycle v lib w diaryNo year) err (k - 1)
                 (after_cache_check v w diaryNo year st)))
  /\ control (trace (fst run)) = control (trace st) ++ log
  /\ failed_attempts log = (k - 1)%nat
  /\ sleeps log = map (Variants.delaySeconds v w) (seq 1 (k - 1)).
Proof.
  intros Hmiss Hk Hfail Hok run log. subst run log.
  destruct (lookup_is_retry lib w v diaryNo year st Hmiss) as (st0 & Hst0 & Htr & ->).
  destruct k as [|j]; [lia |]. replace (S j - 1)%nat with j by lia.
  rewrite (retry_succeeds (Variants.MAX_ATTEMPTS v) (Variants.delaySeconds v w)
             (Variants.cycle v lib w diaryNo year) err j st0 result);
    [| lia | intros n st' Hn; apply Hfail; lia | exact Hok].
  simpl. rewrite <- Hst0. repeat split.
  - rewrite quiet_cycle.
    rewrite (control_failed_run _ _ _ (quiet_cycle lib w v diaryNo year)).
    now rewrite Htr.
  - apply failed_attempts_failures.
  - rewrite sleeps_failures. f_equal. f_equal. lia.
Qed.

(** With the network down during the first attempt only, [part_000]
    returns the envelope its second attempt receives, after one logged
    failure and one wait. *)
Lemma lookup_returns_first_success_witness :
  let run := Part000.getCaseDetailsProcess (lib_with results_one) world_recovering
               "2444" "2023" start in
  let log := failures 3 (backoff world_recovering) fetch_failed (2 - 1) in
  snd run = Return envelope_ok
  /\ fst run
     = fst (Part000.cycle (lib_with results_one) world_recovering "2444" "2023" 2
              (failed_run 3 (backoff world_recovering)
                 (Part000.cycle (lib_with results_one) world_recovering "2444" "2023")
                 fetch_failed (2 - 1) start))
  /\ control (trace (fst run)) = control (trace start) ++ log
  /\ failed_attempts log = (2 - 1)%nat
  /\ sleeps log = map (backoff world_recovering) (seq 1 (2 - 1)).
Proof.
  apply (lookup_returns_first_success Part000Js (lib_with results_one) world_recovering
           "2444" "2023" start fetch_failed 2 envelope_ok).
  - exact I.
  - unfold Variants.MAX_ATTEMPTS, Part000.MAX_ATTEMPTS. lia.
  - intros n st' Hn. assert (n = 1%nat) as -> by lia. reflexivity.
  - intros st'. reflexivity.
Defined.

End SuccessTheorems.

Section ReturningAttempt.
Import Str Js Effects Common Variants Footprint Samples Scenarios.

Lemma read_prop_returns (v : json) (name : string) (x : Js.value) :
  read_prop (Some v) name = Return x -> v <> JNull.
Proof. intros H ->. discriminate. Qed.

Lemma read_prop_not_null (v : json) (name : string) :
  v <> JNull -> read_prop (Some v) name = Return (prop (Some v) name).
Proof. destruct v; simpl; congruence. Qed.

(** What an attempt of [part_000] that returns has been through. *)
Lemma part000_attempt_returned (lib : library) (w : world)
    (diaryNo year : string) (n : nat) (st : state) (result : json) :
  snd (Part000.cycle lib w diaryNo year n st) = Return result ->
  exists page html scid tok imageResponse image text answer ajaxResponse,
    fetch w n (Server1.initialPageUrlWithCacheBuster (date_now w n 0)) = Return page
    /\ ok page = true /\ body page = Return html
    /\ Part000.extractSCID lib html = Return scid
    /\ Part000.extractToken lib html = Return tok
    /\ fetch w n (Server1.captchaImageUrl scid (date_now w n 1)) = Return imageResponse
    /\ ok imageResponse = true /\ body imageResponse = Return image
    /\ generateContent w n image = Return text
    /\ cleanedAnswer text = Some answer
    /\ fetch w n (buildFinalUrl diaryNo year scid tok answer) = Return ajaxResponse
    /\ ok ajaxResponse = true
    /\ body_json ajaxResponse = Return result
    /\ result <> JNull
    /\ printable (prop (Some result) "success") = true.
Proof.
  unfold Part000.cycle, Part000.fetchHtml, Part000.fetchImageBuffer,
    Part000.solveCaptchaWithGemini, Common.solveCaptchaWithGemini.
  unfold_M. cbn beta iota zeta delta [fst snd Effects.trace Effects.cache].
  exec; intros H; try discriminate H.
  injection H as <-.
  repeat match goal with
         | H : negb _ = false |- _ => apply negb_false_iff in H
         end.
  match goal with
  | Hr : read_prop (Some ?r) "success" = Return ?x |- _ =>
      pose proof (read_prop_returns _ _ _ Hr) as Hnull;
      rewrite (read_prop_not_null _ _ Hnull) in Hr; injection Hr as <-
  end.
  do 9 eexists. repeat split; try eassumption.
  apply template_returns. eauto.
Qed.

(** X5. An attempt of [part_000] (and of [part_001], which has the same text)
    returns exactly when each of its steps goes through, every step fed by
    the ones before it: the page is fetched; the SCID and the token are read
    from that page; the image is requested for that SCID; the oracle's reply
    to that image holds a signed integer; the search request built from the
    inputs, that SCID, that token and that integer is answered with a 2xx
    status and a JSON body other than [null], whose [success], which the
    attempt logs, has a text form. What it returns is that JSON body,
    unchanged. *)
Theorem part000_attempt_returns_iff (lib : library) (w : world)
    (diaryNo year : string) (n : nat) (st : state) (result : json) :
  snd (Part000.cycle lib w diaryNo year n st) = Return result
  <-> exists page html scid tok imageResponse image text answer ajaxResponse,
        fetch w n (Server1.initialPageUrlWithCacheBuster (date_now w n 0)) = Return page
        /\ ok page = true /\ body page = Return html
        /\ Part000.extractSCID lib html = Return scid
        /\ Part000.extractToken lib html = Return tok
        /\ fetch w n (Server1.captchaImageUrl scid (date_now w n 1)) = Return imageResponse
        /\ ok imageResponse = true /\ body imageResponse = Return image
        /\ generateContent w n image = Return text
        /\ cleanedAnswer text = Some answer
        /\ fetch w n (buildFinalUrl diaryNo year scid tok answer) = Return ajaxResponse
        /\ ok ajaxResponse = true
        /\ body_json ajaxResponse = Return result
        /\ result <> JNull
        /\ printable (prop (Some result) "success") = true.
Proof.
  split; [apply part000_attempt_returned |].
  - intros (page & html & scid & tok & imageResponse & image & text & answer
            & ajaxResponse & H1 & H2 & H3 & H4 & H5 & H6 & H7 & H8 & H9 & H10
            & H11 & H12 & H13 & H14 & H15).
    apply template_returns in H15 as [line H15].
    unfold Part000.cycle, Part000.fetchHtml, Part000.fetchImageBuffer,
      Part000.solveCaptchaWithGemini, Common.solveCaptchaWithGemini.
    unfold_M. cbn beta iota zeta delta [fst snd Effects.trace Effects.cache].
    rewrite H1, H2. cbn beta iota zeta delta [fst snd Effects.trace Effects.cache negb].
    rewrite H3, H4, H5. cbn beta iota zeta delta [fst snd Effects.trace Effects.cache negb].
    rewrite H6, H7. cbn beta iota zeta delta [fst snd Effects.trace Effects.cache negb].
    rewrite H8, H9. cbn beta iota zeta delta [fst snd Effects.trace Effects.cache negb].
    rewrite H10, (cleanedAnswer_not_empty _ _ H10).
    cbn beta iota zeta delta [fst snd Effects.trace Effects.cache negb].
    rewrite H11, H12. cbn beta iota zeta delta [fst snd Effects.trace Effects.cache negb].
    rewrite H13, (read_prop_not_null _ _ H14).
    cbn beta iota zeta delta [fst snd Effects.trace Effects.cache negb].
    rewrite H15. reflexivity.
Qed.

(** X6. The same holds of an attempt of [server1.js], whose requests are
    wrapped in timeouts: it returns exactly when every step goes through,
    and then it returns the JSON body of the search endpoint, unchanged. *)
Theorem server1_attempt_returns_iff (cfg : Server1.config) (lib : library) (w : world)
    (diaryNo year : string) (n : nat) (st : state) (result : json) :
  snd (Server1.cycle cfg lib w diaryNo year n st) = Return result
  <-> exists page html scid tok imageResponse image text answer ajaxResponse,
        fetch w n (Server1.initialPageUrlWithCacheBuster (date_now w n 0)) = Return page
        /\ ok page = true /\ body page = Return html
        /\ Server1.extractSCID lib html = Return scid
        /\ Server1.extractToken lib html = Return tok
        /\ fetch w n (Server1.captchaImageUrl scid (date_now w n 1)) = Return imageResponse
        /\ ok imageResponse = true /\ body imageResponse = Return image
        /\ generateContent w n image = Return text
        /\ cleanedAnswer text = Some answer
        /\ fetch w n (buildFinalUrl diaryNo year scid tok answer) = Return ajaxResponse
        /\ ok ajaxResponse = true
        /\ body_json ajaxResponse = Return result
        /\ result <> JNull.
Proof.
  split.
  - unfold Server1.cycle, Server1.fetchHtml, Server1.fetchImageBuffer,
      Server1.solveCaptchaWithGemini, Common.solveCaptchaWithGemini, Server1.on_abort.
    unfold_M. cbn beta iota zeta delta [fst snd Effects.trace Effects.cache].
    exec; intros H; try discriminate H.
    injection H as <-.
    repeat match goal with
           | H : negb _ = false |- _ => apply negb_false_iff in H
           end.
    do 9 eexists. repeat split; try eassumption.
    eapply read_prop_returns; eassumption.
  - intros (page & html & scid & tok & imageResponse & image & text & answer
            & ajaxResponse & H1 & H2 & H3 & H4 & H5 & H6 & H7 & H8 & H9 & H10
            & H11 & H12 & H13 & H14).
    unfold Server1.cycle, Server1.fetchHtml, Server1.fetchImageBuffer,
      Server1.solveCaptchaWithGemini, Common.solveCaptchaWithGemini, Server1.on_abort.
    unfold_M. cbn beta iota zeta delta [fst snd Effects.trace Effects.cache].
    rewrite H1, H2. cbn beta iota zeta delta [fst snd Effects.trace Effects.cache negb].
    rewrite H3, H4, H5. cbn beta iota zeta delta [fst snd Effects.trace Effects.cache negb].
    rewrite H6, H7. cbn beta iota zeta delta [fst snd Effects.trace Effects.cache negb].
    rewrite H8, H9. cbn beta iota zeta delta [fst snd Effects.trace Effects.cache negb].
    rewrite H10, (cleanedAnswer_not_empty _ _ H10).
    cbn beta iota zeta delta [fst snd Effects.trace Effects.cache negb].
    rewrite H11, H12. cbn beta iota zeta delta [fst snd Effects.trace Effects.cache negb].
    rewrite H13, (read_prop_not_null _ _ H14). reflexivity.
Qed.

(** X7. An attempt of [server.js] returns exactly when every step goes through:
    the page is fetched; the token and the CAPTCHA image are read from that
    page; that image is fetched and the oracle's reply to it holds a signed
    integer; the search request, built with the [id] of that image as SCID,
    is answered with a 2xx status and a JSON body from which a record can be
    read. What it returns is that record. *)
Theorem server_attempt_returns_iff (lib : library) (w : world)
    (diaryNo year : string) (n : nat) (st : state) (result : Server.caseData) :
  snd (Server.cycle lib w diaryNo year n st) = Return result
  <-> exists page html tok captcha imageResponse image text answer ajaxResponse jsonData,
        fetch w n INITIAL_PAGE_URL = Return page
        /\ ok page = true /\ body page = Return html
        /\ Server.extractToken lib html = Return tok
        /\ Server.extractCaptchaInfo lib html = Return captcha
        /\ fetch w n (Server.imageUrl captcha) = Return imageResponse
        /\ ok imageResponse = true /\ body imageResponse = Return image
        /\ generateContent w n image = Return text
        /\ cleanedAnswer text = Some answer
        /\ fetch w n (buildFinalUrl diaryNo year (Server.imgId captcha) tok answer)
           = Return ajaxResponse
        /\ ok ajaxResponse = true
        /\ body_json ajaxResponse = Return jsonData
        /\ Server.conclude lib jsonData = Return result.
Proof.
  split.
  - unfold Server.cycle, Server.fetchHtml, Server.fetchImageBuffer,
      Server.solveCaptchaWithGemini, Common.solveCaptchaWithGemini.
    unfold_M. cbn beta iota zeta delta [fst snd Effects.trace Effects.cache].
    exec; intros H; try discriminate H.
    repeat match goal with
           | H : negb _ = false |- _ => apply negb_false_iff in H
           end.
    do 10 eexists. repeat split; eassumption.
  - intros (page & html & tok & captcha & imageResponse & image & text & answer
            & ajaxResponse & jsonData & H1 & H2 & H3 & H4 & H5 & H6 & H7 & H8 & H9 & H10
            & H11 & H12 & H13 & H14).
    unfold Server.cycle, Server.fetchHtml, Server.fetchImageBuffer,
      Server.solveCaptchaWithGemini, Common.solveCaptchaWithGemini.
    unfold_M. cbn beta iota zeta delta [fst snd Effects.trace Effects.cache].
    rewrite H1, H2. cbn beta iota zeta delta [fst snd Effects.trace Effects.cache negb].
    rewrite H3, H4, H5. cbn beta iota zeta delta [fst snd Effects.trace Effects.cache negb].
    rewrite H6, H7. cbn beta iota zeta delta [fst snd Effects.trace Effects.cache negb].
    rewrite H8, H9. cbn beta iota zeta delta [fst snd Effects.trace Effects.cache negb].
    rewrite H10, (cleanedAnswer_not_empty _ _ H10).
    cbn beta iota zeta delta [fst snd Effects.trace Effects.cache negb].
    rewrite H11, H12. cbn beta iota zeta delta [fst snd Effects.trace Effects.cache negb].
    rewrite H13, H14. reflexivity.
Qed.

End ReturningAttempt.

Section CacheFacts.
Import Str Js Effects Common Variants Footprint.

(** An attempt of [server1.js] that returns has stored what it returns
    under the key of the lookup, and touched nothing else of the cache. *)
Lemma server1_cycle_stores cfg lib w d y n st st' v :
  Server1.cycle cfg lib w d y n st = (st', Return v) ->
  cache st'
  = NodeCache.set (Server1.CACHE_TTL cfg) (date_now w n 2) (Server1.cacheKey d y) v
      (cache st).
Proof.
  unfold Server1.cycle, Server1.fetchHtml, Server1.fetchImageBuffer,
    Server1.solveCaptchaWithGemini, Common.solveCaptchaWithGemini, Server1.on_abort.
  unfold_M. cbn beta iota zeta delta [fst snd Effects.trace Effects.cache].
  exec; intros H; try discriminate H; injection H as <- <-; reflexivity.
Qed.

(** Whatever an attempt of [server1.js] does, the entries of the other keys
    stay as they are. *)
Lemma server1_cycle_frame cfg lib w d y n st key :
  key <> Server1.cacheKey d y ->
  cache (fst (Server1.cycle cfg lib w d y n st)) !! key = cache st !! key.
Proof.
  intros Hkey.
  unfold Server1.cycle, Server1.fetchHtml, Server1.fetchImageBuffer,
    Server1.solveCaptchaWithGemini, Common.solveCaptchaWithGemini, Server1.on_abort.
  unfold_M. cbn beta iota zeta delta [fst snd Effects.trace Effects.cache].
  exec; try reflexivity; unfold NodeCache.set; apply lookup_insert_ne; congruence.
Qed.

Lemma cache_after_failure M delay attempts error st :
  cache (after_failure M delay attempts error st) = cache st.
Proof. unfold after_failure. destruct (attempts <? M)%nat; reflexivity. Qed.

Lemma get_live now key (c : NodeCache.t) entry :
  c !! key = Some entry -> NodeCache.live now entry = true ->
  NodeCache.get now key c = (Some (fst entry), c).
Proof. intros H Hl. unfold NodeCache.get. now rewrite H, Hl. Qed.

Lemma has_live now key (c : NodeCache.t) entry :
  c !! key = Some entry -> NodeCache.live now entry = true ->
  NodeCache.has now key c = (true, c).
Proof. intros H Hl. unfold NodeCache.has. now rewrite H, Hl. Qed.

Lemma get_frame now key key' c :
  key' <> key -> snd (NodeCache.get now key c) !! key' = c !! key'.
Proof.
  intros H. unfold NodeCache.get. destruct (c !! key) as [entry|]; [| reflexivity].
  destruct (NodeCache.live now entry); simpl; [reflexivity |].
  apply lookup_delete_ne; congruence.
Qed.

Lemma has_frame now key key' c :
  key' <> key -> snd (NodeCache.has now key c) !! key' = c !! key'.
Proof.
  intros H. unfold NodeCache.has. destruct (c !! key) as [entry|]; [| reflexivity].
  destruct (NodeCache.live now entry); simpl; [reflexivity |].
  apply lookup_delete_ne; congruence.
Qed.

End CacheFacts.

Section LoopCache.
Import Str Js Effects Common Variants Footprint.
Context {A : Type} (MAX_ATTEMPTS : nat) (delay : nat -> Float.number) (cycle : nat -> M A).

(** What the loop returns, one of its attempts has returned, and the loop
    has ended in the state that attempt left. *)
Lemma retry_loop_returned remaining attempts e st v :
  snd (retry_loop MAX_ATTEMPTS delay cycle remaining attempts e st) = Return v ->
  exists n st',
    (attempts < n <= attempts + remaining)%nat
    /\ cycle n st' = (fst (retry_loop MAX_ATTEMPTS delay cycle remaining attempts e st),
                      Return v).
Proof.
  revert attempts e st. induction remaining as [|r IH]; intros attempts e st H.
  - discriminate H.
  - destruct (snd (cycle (S attempts) st)) as [v' | error] eqn:E.
    + rewrite (retry_loop_returns MAX_ATTEMPTS delay cycle r attempts e st v' E) in *.
      simpl in H. injection H as ->.
      exists (S attempts), st. split; [lia |].
      rewrite <- E. now destruct (cycle (S attempts) st).
    + rewrite (retry_loop_fails MAX_ATTEMPTS delay cycle r attempts e st error E) in *.
      apply IH in H as (n & st' & Hn & Hc). exists n, st'. split; [lia | exact Hc].
Qed.

Lemma retry_loop_frame (key : string) remaining attempts e st :
  (forall n st', cache (fst (cycle n st')) !! key = cache st' !! key) ->
  cache (fst (retry_loop MAX_ATTEMPTS delay cycle remaining attempts e st)) !! key
  = cache st !! key.
Proof.
  intros Hc. revert attempts e st. induction remaining as [|r IH]; intros attempts e st.
  - reflexivity.
  - destruct (snd (cycle (S attempts) st)) as [v | error] eqn:E.
    + rewrite (retry_loop_returns MAX_ATTEMPTS delay cycle r attempts e st v E).
      apply Hc.
    + rewrite (retry_loop_fails MAX_ATTEMPTS delay cycle r attempts e st error E).
      now rewrite IH, cache_after_failure, Hc.
Qed.

End LoopCache.

Section CacheTheorems.
Import Str Js Effects Common Variants Footprint Samples Scenarios.

Lemma live_entry (ttl now later : Z) (v : json) :
  ttl = 0 \/ later <= now + ttl * 1000 ->
  NodeCache.live later (v, if Z.eqb ttl 0 then 0 else now + ttl * 1000) = true.
Proof.
  intros H. unfold NodeCache.live. simpl.
  destruct (Z.eqb ttl 0) eqn:E; [reflexivity |].
  apply Z.eqb_neq in E. destruct H as [H | H]; [contradiction |].
  apply orb_true_iff. right. now apply Z.leb_le.
Qed.

(** A lookup of [server1.js] that had to fetch and returns has left what it
    returns in the cache, under the key of the lookup, with the expiry time
    of the attempt that returned. *)
Lemma server1_lookup_stores cfg lib w d y st v :
  truthy (fst (NodeCache.get (date_now w 0 0) (Server1.cacheKey d y) (cache st))) = false ->
  snd (Server1.getCaseDetailsProcess cfg lib w d y st) = Return v ->
  exists n,
    cache (fst (Server1.getCaseDetailsProcess cfg lib w d y st)) !! Server1.cacheKey d y
    = Some (v, if Z.eqb (Server1.CACHE_TTL cfg) 0 then 0
               else date_now w n 2 + Server1.CACHE_TTL cfg * 1000).
Proof.
  intros Hmiss.
  destruct (lookup_is_retry lib w (Server1Js cfg) d y st Hmiss) as (st0 & _ & _ & Hrun).
  simpl in Hrun. rewrite Hrun. unfold retry. intros H.
  apply retry_loop_returned in H as (n & st' & _ & Hc).
  apply server1_cycle_stores in Hc. rewrite Hc. exists n.
  unfold NodeCache.set. apply lookup_insert_eq.
Qed.

(** X8. Round trip through the cache of [server1.js]. When a lookup had to
    fetch and returned a truthy payload, a later lookup for the same diary
    number and year, made before that entry expires, returns the same
    payload and sends nothing: its state is the state the first lookup
    left. *)
Theorem server1_second_lookup_from_cache (cfg : Server1.config) (lib lib' : library)
    (w w' : world) (diaryNo year : string) (st : state) (v : json) :
  truthy (fst (NodeCache.get (date_now w 0 0) (Server1.cacheKey diaryNo year) (cache st)))
  = false ->
  snd (Server1.getCaseDetailsProcess cfg lib w diaryNo year st) = Return v ->
  truthy (Some v) = true ->
  (Server1.CACHE_TTL cfg = 0
   \/ forall n, date_now w' 0 0 <= date_now w n 2 + Server1.CACHE_TTL cfg * 1000) ->
  let st1 := fst (Server1.getCaseDetailsProcess cfg lib w diaryNo year st) in
  Server1.getCaseDetailsProcess cfg lib' w' diaryNo year st1 = (st1, Return v).
Proof.
  intros Hmiss Hret Hv Hlive st1.
  destruct (server1_lookup_stores cfg lib w diaryNo year st v Hmiss Hret) as [n Hn].
  fold st1 in Hn.
  rewrite (truthy_cache_entry_served cfg lib' w' diaryNo year st1 v (cache st1)).
  - now destruct st1.
  - apply (get_live _ _ _ _ Hn), live_entry.
    destruct Hlive as [H | H]; [now left | right; apply H].
  - exact Hv.
Qed.

Lemma server1_second_lookup_from_cache_witness :
  let st1 := fst (Server1.getCaseDetailsProcess Server1.default_config
                    (lib_with results_one) (world_with (answers envelope_ok))
                    "2444" "2023" start) in
  Server1.getCaseDetailsProcess Server1.default_config (lib_with results_empty)
    world_down "2444" "2023" st1
  = (st1, Return envelope_ok).
Proof.
  apply (server1_second_lookup_from_cache Server1.default_config (lib_with results_one)
           (lib_with results_empty) (world_with (answers envelope_ok)) world_down
           "2444" "2023" start envelope_ok).
  - reflexivity.
  - reflexivity.
  - reflexivity.
  - right. intros n. simpl. lia.
Defined.

(** X9. The [cached] field of a 200 reply of [server1.js] tells whether the
    cache holds the entry when the reply is written, not whether the reply
    was served from it: a lookup that had to fetch has just stored its
    result, so its reply says [cached: true] as well. *)
Theorem server1_fresh_reply_says_cached (cfg : Server1.config) (lib : library)
    (w : world) (body : list (string * json)) (diaryNo year : string) (st : state)
    (v : json) :
  validate (field "diaryData" body) = Valid diaryNo year ->
  truthy (fst (NodeCache.get (date_now w 0 0) (Server1.cacheKey diaryNo year) (cache st)))
  = false ->
  snd (Server1.getCaseDetailsProcess cfg lib w diaryNo year st) = Return v ->
  (Server1.CACHE_TTL cfg = 0
   \/ forall n, date_now w 0 1 <= date_now w n 2 + Server1.CACHE_TTL cfg * 1000) ->
  exists r,
    Server1.post_case_details cfg lib w body st
    = (fst (Server1.getCaseDetailsProcess cfg lib w diaryNo year st), Return r)
    /\ Server1.code r = 200 /\ Server1.data r = Some v
    /\ Server1.cached r = Some true.
Proof.
  intros Hvalid Hmiss Hret Hlive.
  destruct (server1_lookup_stores cfg lib w diaryNo year st v Hmiss Hret) as [n Hn].
  unfold Server1.post_case_details.
  rewrite Hvalid, (requestIdentifier_valid w _ _ _ Hvalid). unfold_M.
  destruct (Server1.getCaseDetailsProcess cfg lib w diaryNo year st) as [st1 o] eqn:E.
  simpl in *. subst o.
  rewrite (has_live _ _ _ _ Hn).
  - destruct st1. eexists. repeat split.
  - apply live_entry. destruct Hlive as [H | H]; [now left | right; apply H].
Qed.

(** A first request for a diary number is answered [cached: true]. *)
Lemma server1_fresh_reply_says_cached_witness :
  exists r,
    Server1.post_case_details Server1.default_config (lib_with results_one)
      (world_with (answers envelope_ok)) (body_of "2444/2023") start
    = (fst (Server1.getCaseDetailsProcess Server1.default_config (lib_with results_one)
              (world_with (answers envelope_ok)) "2444" "2023" start), Return r)
    /\ Server1.code r = 200 /\ Server1.data r = Some envelope_ok
    /\ Server1.cached r = Some true.
Proof.
  apply (server1_fresh_reply_says_cached Server1.default_config (lib_with results_one)
           (world_with (answers envelope_ok)) (body_of "2444/2023") "2444" "2023" start
           envelope_ok).
  - reflexivity.
  - reflexivity.
  - reflexivity.
  - right. intros n. simpl. lia.
Defined.

Lemma server1_lookup_frame cfg lib w d y st key :
  key <> Server1.cacheKey d y ->
  cache (fst (Server1.getCaseDetailsProcess cfg lib w d y st)) !! key = cache st !! key.
Proof.
  intros Hkey. unfold Server1.getCaseDetailsProcess. unfold_M.
  pose proof (get_frame (date_now w 0 0) (Server1.cacheKey d y) key (cache st) Hkey) as Hg.
  destruct (NodeCache.get (date_now w 0 0) (Server1.cacheKey d y) (cache st))
    as [cachedData c']. simpl in *.
  destruct (truthy cachedData).
  - destruct cachedData; exact Hg.
  - unfold retry. rewrite retry_loop_frame; [exact Hg |].
    intros n st'. now apply server1_cycle_frame.
Qed.

(** X10. A request to [server1.js] reads and writes the cache entry of its own
    [diaryData] only: whatever happens during the lookup, the entry of every
    other key is afterwards what it was before. *)
Theorem server1_request_keeps_other_entries (cfg : Server1.config) (lib : library)
    (w : world) (body : list (string * json)) (st : state) (key : string) :
  field "diaryData" body <> Some (JStr key) ->
  cache (fst (Server1.post_case_details cfg lib w body st)) !! key = cache st !! key.
Proof.
  intros Hkey. unfold Server1.post_case_details.
  destruct (Server1.requestIdentifier w (field "diaryData" body)) as [text | e];
    [| reflexivity].
  destruct (validate (field "diaryData" body)) as [message | d y] eqn:E; [reflexivity |].
  apply validate_valid in E as (Hbody & _).
  assert (key <> Server1.cacheKey d y) as Hne.
  { intros ->. apply Hkey. exact Hbody. }
  unfold_M.
  pose proof (server1_lookup_frame cfg lib w d y st key Hne) as Hl.
  destruct (Server1.getCaseDetailsProcess cfg lib w d y st) as [st1 [v | e]]; simpl in *;
    [| exact Hl].
  pose proof (has_frame (date_now w 0 1) (Server1.cacheKey d y) key (cache st1) Hne) as Hh.
  destruct (NodeCache.has (date_now w 0 1) (Server1.cacheKey d y) (cache st1)) as [b c'].
  simpl in *. exact (eq_trans Hh Hl).
Qed.

(** A request for 2444/2023 leaves the entry of 1/2024 alone. *)
Lemma server1_request_keeps_other_entries_witness :
  cache (fst (Server1.post_case_details Server1.default_config (lib_with results_one)
                (world_with (answers envelope_ok)) (body_of "2444/2023")
                (initial {[ "1/2024" := (JNum 5, 0) ]}))) !! "1/2024"
  = cache (initial {[ "1/2024" := (JNum 5, 0) ]}) !! "1/2024".
Proof.
  apply (server1_request_keeps_other_entries Server1.default_config (lib_with results_one)
           (world_with (answers envelope_ok)) (body_of "2444/2023")
           (initial {[ "1/2024" := (JNum 5, 0) ]}) "1/2024").
  discriminate.
Defined.

End CacheTheorems.

(** ** The texts of the parsed records *)

Section NormalTexts.
Import Str Regex Normal.

Lemma head_drop_while (s : string) : head_space (drop_while is_space s) = false.
Proof.
  induction s as [|c s IH]; simpl; [reflexivity |].
  destruct (is_space c) eqn:E; [exact IH | simpl; exact E].
Qed.

Lemma head_trim_end (s : string) : head_space s = false -> head_space (trim_end s) = false.
Proof.
  destruct s as [|c s]; simpl; [reflexivity |]. intros H.
  destruct (is_space c && is_empty (trim_end s)); simpl; [reflexivity | exact H].
Qed.

Lemma last_trim_end (s : string) : last_space (trim_end s) = false.
Proof.
  induction s as [|c s IH]; simpl; [reflexivity |].
  destruct (is_space c) eqn:Ec; simpl.
  - destruct (trim_end s) as [|d r] eqn:Er; simpl; [reflexivity | exact IH].
  - destruct (trim_end s) as [|d r] eqn:Er; simpl; [exact Ec | exact IH].
Qed.

(** What [trim] returns has no white space at either end. *)
Lemma trim_trimmed (s : string) : trimmed (trim s) = true.
Proof.
  unfold trimmed, trim.
  now rewrite (head_trim_end _ (head_drop_while s)), last_trim_end.
Qed.

Lemma head_collapse_spaces (s : string) :
  head_space (collapse_spaces s) = head_space s.
Proof.
  induction s as [|c s IH]; simpl; [reflexivity |].
  destruct (is_space c) eqn:Ec; simpl; [| exact Ec].
  destruct s as [|d s']; [reflexivity |].
  destruct (is_space d) eqn:Ed; [| reflexivity].
  rewrite IH. simpl. exact Ed.
Qed.

Lemma collapse_spaces_single (s : string) : single_spaced (collapse_spaces s) = true.
Proof.
  induction s as [|c s IH]; simpl; [reflexivity |].
  destruct (is_space c) eqn:Ec.
  - destruct s as [|d s']; [reflexivity |].
    destruct (is_space d) eqn:Ed; [exact IH |].
    cbn [single_spaced]. rewrite IH, head_collapse_spaces. simpl. rewrite Ed. reflexivity.
  - cbn [single_spaced]. rewrite Ec, IH. reflexivity.
Qed.

Lemma single_spaced_tail (c : ascii) (s : string) :
  single_spaced (String c s) = true -> single_spaced s = true.
Proof. simpl. intros H. now apply andb_prop in H as [_ H]. Qed.

Lemma drop_while_single (s : string) :
  single_spaced s = true -> single_spaced (drop_while is_space s) = true.
Proof.
  induction s as [|c s IH]; [reflexivity |]. intros H. simpl.
  destruct (is_space c); [apply IH; now apply single_spaced_tail in H | exact H].
Qed.

Lemma head_trim_end_le (s : string) :
  head_space (trim_end s) = true -> head_space s = true.
Proof.
  destruct s as [|c s]; simpl; [discriminate |].
  destruct (is_space c && is_empty (trim_end s)); simpl; [discriminate | auto].
Qed.

Lemma trim_end_single (s : string) :
  single_spaced s = true -> single_spaced (trim_end s) = true.
Proof.
  induction s as [|c s IH]; [reflexivity |]. intros H.
  cbn [single_spaced] in H. apply andb_prop in H as [Hc Hs].
  simpl. destruct (is_space c && is_empty (trim_end s)); [reflexivity |].
  cbn [single_spaced]. rewrite (IH Hs), andb_true_r.
  destruct (negb (is_space c)); [reflexivity |]. simpl in *.
  apply andb_prop in Hc as [Hsp Hh]. rewrite Hsp. simpl.
  destruct (head_space (trim_end s)) eqn:E; [| reflexivity].
  apply head_trim_end_le in E. now rewrite E in Hh.
Qed.

Lemma trim_single (s : string) : single_spaced s = true -> single_spaced (trim s) = true.
Proof. intros H. unfold trim. now apply trim_end_single, drop_while_single. Qed.

(** A single-spaced, trimmed text is left as it is by the normalisation. *)
Lemma collapse_spaces_fixed (s : string) :
  single_spaced s = true -> collapse_spaces s = s.
Proof.
  induction s as [|c s IH]; [reflexivity |]. intros H.
  cbn [single_spaced] in H. apply andb_prop in H as [Hc Hs].
  simpl. rewrite (IH Hs).
  destruct (is_space c) eqn:Ec; [| reflexivity].
  simpl in Hc. apply andb_prop in Hc as [Hsp Hh].
  apply Ascii.eqb_eq in Hsp. subst c.
  destruct s as [|d s']; [reflexivity |].
  simpl in Hh. apply negb_true_iff in Hh. now rewrite Hh.
Qed.

Lemma drop_while_fixed (s : string) : head_space s = false -> drop_while is_space s = s.
Proof. destruct s as [|c s]; simpl; [reflexivity |]. now intros ->. Qed.

Lemma trim_end_fixed (s : string) : last_space s = false -> trim_end s = s.
Proof.
  induction s as [|c s IH]; [reflexivity |]. intros H. simpl.
  destruct s as [|d s'].
  - simpl in *. now rewrite H.
  - rewrite IH by exact H. now rewrite andb_false_r.
Qed.

Lemma trim_fixed (s : string) : trimmed s = true -> trim s = s.
Proof.
  unfold trimmed, trim. intros H. apply andb_prop in H as [Hh Hl].
  apply negb_true_iff in Hh, Hl.
  now rewrite (drop_while_fixed _ Hh), (trim_end_fixed _ Hl).
Qed.

Lemma digits_exactly_spec (n : nat) (s d r : string) :
  digits_exactly n s = Some (d, r) ->
  String.length d = n /\ all is_digit d = true.
Proof.
  revert s d r. induction n as [|n IH]; intros s d r; simpl.
  - intros H. injection H as <- <-. split; reflexivity.
  - destruct s as [|c s]; [discriminate |].
    destruct (is_digit c) eqn:Ec; [| discriminate].
    destruct (digits_exactly n s) as [[d' r']|] eqn:E; [| discriminate].
    intros H. injection H as <- <-. apply IH in E as [Hl Hd].
    simpl. now rewrite Hl, Ec, Hd.
Qed.

Lemma date_at_shaped (s date rest : string) :
  date_at s = Some (date, rest) -> date_shaped date = true.
Proof.
  unfold date_at.
  destruct (digits_exactly 2 s) as [[d r1]|] eqn:E1; [| discriminate].
  destruct (expect "-" r1) as [r2|]; [| discriminate].
  destruct (digits_exactly 2 r2) as [[m r3]|] eqn:E2; [| discriminate].
  destruct (expect "-" r3) as [r4|]; [| discriminate].
  destruct (digits_exactly 4 r4) as [[y r5]|] eqn:E3; [| discriminate].
  intros H. injection H as <- <-.
  apply digits_exactly_spec in E1 as [L1 D1].
  apply digits_exactly_spec in E2 as [L2 D2].
  apply digits_exactly_spec in E3 as [L3 D3].
  destruct d as [|d1 [|d2 [|? ?]]]; try discriminate.
  destruct m as [|m1 [|m2 [|? ?]]]; try discriminate.
  destruct y as [|y1 [|y2 [|y3 [|y4 [|? ?]]]]]; try discriminate.
  unfold date_shaped. simpl in *. now rewrite D1, D2, D3.
Qed.

Lemma match_registered_on_shaped (s whole date : string) :
  match_registered_on s = Some (whole, date) -> date_shaped date = true.
Proof.
  induction s as [|c s IH]; simpl.
  - unfold registered_on_at. simpl. discriminate.
  - destruct (registered_on_at (String c s)) as [[w d]|] eqn:E.
    + intros H. injection H as <- <-. unfold registered_on_at in E.
      destruct (starts_with_by ascii_eqb_ci "Registered on" (String c s)); [| discriminate].
      destruct (date_at _) as [[date' rest]|] eqn:Ed; [| discriminate].
      injection E as <- <-. now apply date_at_shaped in Ed.
    + exact IH.
Qed.

End NormalTexts.

Section CollapsedRuns.
Import Str Regex Normal.

Lemma head_runs_true (s : string) : head_space (collapse_runs_from true s) = false.
Proof.
  induction s as [|c s IH]; simpl; [reflexivity |].
  destruct (is_space c) eqn:Ec; [exact IH | simpl; exact Ec].
Qed.

Lemma head_runs_false (s : string) :
  head_space (collapse_runs_from false s) = head_space s.
Proof.
  destruct s as [|c s]; simpl; [reflexivity |].
  destruct (is_space c) eqn:Ec; [| simpl; exact Ec].
  destruct s as [|d s']; simpl; [exact Ec |].
  destruct (is_space d); simpl; [reflexivity | exact Ec].
Qed.

(** What [replace(/\s\s+/g, ' ')] returns holds no two white space
    characters in a row. *)
Lemma collapse_runs_from_no_runs (b : bool) (s : string) :
  no_space_runs (collapse_runs_from b s) = true.
Proof.
  revert b. induction s as [|c s IH]; intros b; simpl; [reflexivity |].
  destruct (is_space c) eqn:Ec.
  - destruct b; [apply IH |].
    destruct s as [|d s']; [simpl; now rewrite andb_false_r |].
    destruct (is_space d) eqn:Ed.
    + cbn [no_space_runs]. rewrite IH, head_runs_true, andb_false_r. reflexivity.
    + cbn [no_space_runs]. rewrite IH, head_runs_false. simpl. rewrite Ed, andb_false_r.
      reflexivity.
  - cbn [no_space_runs]. now rewrite IH, Ec.
Qed.

Lemma last_space_cons (c : ascii) (s : string) :
  last_space s = true -> last_space (String c s) = true.
Proof. destruct s; simpl; [discriminate | auto]. Qed.

Lemma runs_true_empty (s : string) :
  collapse_runs_from true s = EmptyString -> s = EmptyString \/ last_space s = true.
Proof.
  induction s as [|c s IH]; simpl; [now left |].
  destruct (is_space c) eqn:Ec; [| discriminate].
  intros H. right. destruct (IH H) as [-> | Hl]; [reflexivity | now destruct s].
Qed.

Lemma last_collapse_runs_from (b : bool) (s : string) :
  last_space (collapse_runs_from b s) = true -> last_space s = true.
Proof.
  revert b. induction s as [|c s IH]; intros b; [simpl; discriminate |].
  cbn [collapse_runs_from].
  destruct (is_space c) eqn:Ec.
  - destruct b.
    + intros H. now apply last_space_cons, (IH true).
    + destruct s as [|d s']; [simpl; auto |].
      destruct (is_space d) eqn:Ed.
      * intros H. apply last_space_cons.
        destruct (collapse_runs_from true (String d s')) as [|x r] eqn:Er.
        -- apply runs_true_empty in Er as [Er | Er]; [discriminate | exact Er].
        -- apply (IH true). rewrite Er. exact H.
      * intros H. apply last_space_cons. apply (IH false).
        destruct (collapse_runs_from false (String d s')) as [|x r] eqn:Er;
          [simpl in Er; rewrite Ed in Er; discriminate |].
        exact H.
  - intros H.
    destruct (collapse_runs_from false s) as [|x r] eqn:Er.
    + simpl in H. congruence.
    + apply last_space_cons, (IH false). rewrite Er. exact H.
Qed.

Lemma collapse_runs_trimmed (s : string) :
  trimmed s = true -> trimmed (collapse_runs s) = true.
Proof.
  unfold trimmed, collapse_runs. intros H. apply andb_prop in H as [Hh Hl].
  rewrite head_runs_false, Hh. simpl.
  destruct (last_space (collapse_runs_from false s)) eqn:E; [| reflexivity].
  apply last_collapse_runs_from in E. now rewrite E in Hl.
Qed.

End CollapsedRuns.

Section ParsedTexts.
Import Str Regex Dom Js Effects Common Normal Samples.

Lemma splitCaseInfo_normal (text : string) :
  trimmed (fst (Part001.splitCaseInfo text)) = true
  /\ single_spaced (fst (Part001.splitCaseInfo text)) = true
  /\ (is_empty (snd (Part001.splitCaseInfo text))
      || date_shaped (snd (Part001.splitCaseInfo text))) = true.
Proof.
  unfold Part001.splitCaseInfo.
  destruct (match_registered_on text) as [[whole date]|] eqn:E; simpl.
  - rewrite trim_trimmed, (trim_single _ (collapse_spaces_single _)).
    apply match_registered_on_shaped in E. rewrite E. now rewrite orb_true_r.
  - now rewrite trim_trimmed, (trim_single _ (collapse_spaces_single _)).
Qed.

Lemma parseRow_normal (lib : library) (row : item) :
  Forall (fun r => detail_normal r = true) (Part001.parseRow lib row).
Proof.
  unfold Part001.parseRow.
  destruct (find row [tag_is "td"]) as [|c0 [|c1 [|c2 [|c3 [|c4 [|c5 [|c6 cells]]]]]]];
    try constructor; [| constructor].
  unfold detail_normal, Part001.cellText. simpl.
  destruct (splitCaseInfo_normal (trim (Dom.text [c2]))) as (H1 & H2 & H3).
  now rewrite !trim_trimmed, H1, H2, H3.
Qed.

(** X11. Every record [parseCaseDetailsHtml] returns is tidy, whatever the
    markup holds: its serial number, diary number, case number, petitioner,
    respondent and status have no white space at either end; its case number
    holds no white space but single spaces; and its registration date is
    either empty or two digits, a hyphen, two digits, a hyphen and four
    digits. Normalising a case number again changes nothing. So the
    records of every 200 reply of the endpoint are tidy. *)
Theorem part001_records_are_normal (lib : library) :
  (forall doc,
     Forall (fun r => detail_normal r = true) (Part001.parseCaseDetailsDocument lib doc))
  /\ (forall htmlString records,
        Part001.parseCaseDetailsHtml lib htmlString = Return records ->
        Forall (fun r => detail_normal r = true) records)
  /\ (forall text,
        let caseNumber := fst (Part001.splitCaseInfo text) in
        let registeredOn := snd (Part001.splitCaseInfo text) in
        trimmed caseNumber = true /\ single_spaced caseNumber = true
        /\ trim (collapse_spaces caseNumber) = caseNumber
        /\ (registeredOn = EmptyString \/ date_shaped registeredOn = true))
  /\ (forall w body st st' reply records,
        Part001.post_case_details lib w body st = (st', Return reply) ->
        Part001.data reply = Some records ->
        Forall (fun r => detail_normal r = true) records).
Proof.
  assert (forall doc,
            Forall (fun r => detail_normal r = true)
              (Part001.parseCaseDetailsDocument lib doc)) as Hdoc.
  { intros doc. rewrite parseCaseDetailsDocument_rows.
    induction (select doc Server.rows_selector) as [|row rows IH]; simpl;
      [constructor |].
    apply Forall_app. split; [apply parseRow_normal | exact IH]. }
  assert (forall htmlString records,
            Part001.parseCaseDetailsHtml lib htmlString = Return records ->
            Forall (fun r => detail_normal r = true) records) as Hhtml.
  { intros htmlString records. unfold Part001.parseCaseDetailsHtml.
    destruct htmlString; try (destruct (cheerio_load_value lib _); [| discriminate]);
      intros H; injection H as <-; apply Hdoc. }
  split; [exact Hdoc |]. split; [exact Hhtml |]. split.
  - intros text. cbv zeta.
    destruct (splitCaseInfo_normal text) as (H1 & H2 & H3).
    repeat split; try assumption.
    + rewrite (collapse_spaces_fixed _ H2). now apply trim_fixed.
    + apply orb_prop in H3 as [H3 | H3]; [left; now apply is_empty_true | now right].
  - intros w body st st' reply records.
    unfold Part001.post_case_details, Part001.respond. unfold_M.
    cbn beta iota zeta delta [fst snd Effects.trace Effects.cache].
    exec; intros H; try discriminate H; injection H as <- <-; simpl; intros Hd;
      try discriminate Hd.
    injection Hd as <-. eapply Hhtml. eassumption.
Qed.

Lemma or_else_trimmed (a b : string) :
  trimmed a = true -> trimmed b = true -> trimmed (Server.or_else a b) = true.
Proof. unfold Server.or_else. destruct (negb (is_empty a)); auto. Qed.

(** The record of a successful parse in [server.js], field by field. *)
Lemma server_parse_fields (lib : library) (doc : document) (r : Server.caseData) :
  Server.parseCaseDetailsFromDocument lib doc = Return r ->
  exists a b c p1 p2 q1 q2 s link,
    r = Server.mkCaseData (trim a) (trim b) (trim c)
          (collapse_runs (Server.or_else (trim p1) (trim p2)))
          (collapse_runs (Server.or_else (trim q1) (trim q2)))
          (trim s) link
    /\ is_empty (trim b) = false.
Proof.
  unfold Server.parseCaseDetailsFromDocument.
  destruct (0 <? length (first (select doc Server.rows_selector)))%nat; [| discriminate].
  set (link := attr _ "href"). cbv zeta. cbn [Server.diaryNumber].
  destruct (is_empty (trim (text (find_all (first (select doc Server.rows_selector))
                                    (Server.td 2))))) eqn:Hd; simpl.
  - destruct (present link); [| discriminate].
    destruct link as [href|]; [| discriminate].
    destruct (url_href lib href INITIAL_PAGE_URL); discriminate.
  - intros H.
    assert (exists l, r = Server.mkCaseData
              (trim (text (find_all (first (select doc Server.rows_selector)) (Server.td 1))))
              (trim (text (find_all (first (select doc Server.rows_selector)) (Server.td 2))))
              (trim (text (find_all (first (select doc Server.rows_selector)) (Server.td 3))))
              (collapse_runs (Server.or_else
                 (trim (text (find_all (first (select doc Server.rows_selector))
                                (Server.td_class "petitioners"))))
                 (trim (text (find_all (first (select doc Server.rows_selector))
                                (Server.td 4))))))
              (collapse_runs (Server.or_else
                 (trim (text (find_all (first (select doc Server.rows_selector))
                                (Server.td_class "respondents"))))
                 (trim (text (find_all (first (select doc Server.rows_selector))
                                (Server.td 5))))))
              (trim (text (find_all (first (select doc Server.rows_selector)) (Server.td 6))))
              l) as [l ->].
    { destruct (present link).
      - destruct link as [href|].
        + destruct (url_href lib href INITIAL_PAGE_URL); [| discriminate].
          injection H as <-. eauto.
        + injection H as <-. eauto.
      - injection H as <-. eauto. }
    do 9 eexists. split; [reflexivity | exact Hd].
Qed.

(** X12. The record [parseCaseDetailsFromHtml] returns in [server.js] is tidy:
    its texts have no white space at either end, its diary number is not
    empty, and the names of the petitioner and the respondent hold no two
    white space characters in a row. A lookup returns only such a record,
    and the endpoint replies no other. *)
Theorem server_record_is_normal (lib : library) :
  (forall doc r,
     Server.parseCaseDetailsFromDocument lib doc = Return r -> record_normal r = true)
  /\ (forall htmlString r,
        Server.parseCaseDetailsFromHtml lib htmlString = Return r ->
        record_normal r = true)
  /\ (forall w diaryNo year st r,
        snd (Server.getCaseDetailsProcess lib w diaryNo year st) = Return r ->
        record_normal r = true)
  /\ (forall w body st st' reply r,
        Server.post_case_details lib w body st = (st', Return reply) ->
        Server.data reply = Some r ->
        record_normal r = true)
  /\ (exists r,
        Server.parseCaseDetailsFromDocument (lib_with results_one) results_one = Return r
        /\ Server.petitionerName r = "A").
Proof.
  assert (forall doc r,
            Server.parseCaseDetailsFromDocument lib doc = Return r ->
            record_normal r = true) as Hdoc.
  { intros doc r H.
    apply server_parse_fields in H
      as (a & b & c & p1 & p2 & q1 & q2 & s & link & -> & Hd).
    unfold record_normal. simpl.
    rewrite Hd, !trim_trimmed, !collapse_runs_trimmed
      by (apply or_else_trimmed; apply trim_trimmed).
    unfold collapse_runs. now rewrite !collapse_runs_from_no_runs. }
  assert (forall htmlString r,
            Server.parseCaseDetailsFromHtml lib htmlString = Return r ->
            record_normal r = true) as Hhtml.
  { intros htmlString r. unfold Server.parseCaseDetailsFromHtml.
    destruct htmlString; try (destruct (cheerio_load_value lib _); [| discriminate]);
      apply Hdoc. }
  assert (forall w diaryNo year st r,
            snd (Server.getCaseDetailsProcess lib w diaryNo year st) = Return r ->
            record_normal r = true) as Hlookup.
  { intros w d y st r H. unfold Server.getCaseDetailsProcess, retry in H.
    apply retry_loop_returned in H as (n & st1 & _ & Hc).
    apply (f_equal snd) in Hc. simpl in Hc.
    apply server_cycle_returns in Hc as (url & response & jsonData & _ & _ & Hc).
    unfold Server.conclude in Hc.
    destruct (Server.resultsHtml_of (Some jsonData)) as [html|]; [| discriminate].
    now apply Hhtml in Hc. }
  split; [exact Hdoc |]. split; [exact Hhtml |]. split; [exact Hlookup |].
  split; [| eexists; split; reflexivity].
  intros w body st st' reply r. unfold Server.post_case_details. unfold_M.
  destruct (validate (field "diaryData" body)) as [message | d y].
  - intros H. injection H as <- <-. discriminate.
  - pose proof (Hlookup w d y st) as Hl.
    destruct (Server.getCaseDetailsProcess lib w d y st) as [st1 [v | e]]; simpl in *;
      intros H; injection H as <- <-; simpl; intros Hd; [| discriminate Hd].
    injection Hd as <-. now apply Hl.
Qed.

End ParsedTexts.

(** ** The SCID field and the CAPTCHA image *)

Section FieldsOfThePage.
Import Str Dom Js Effects Common Samples.

Lemma attr_of_plain (e : element) (name : string) :
  String.eqb name "value" = false -> attr_of e name = attr_lookup name (el_attrs e).
Proof.
  intros H. unfold attr_of. rewrite H, andb_false_r. simpl.
  now destruct (attr_lookup name (el_attrs e)).
Qed.

Lemma scid_input_attrs (e : element) :
  both (tag_is "input")
    (both (has_id "input_siwp_captcha_id_0") (attr_is "name" "scid")) e = true ->
  el_tag e = "input"
  /\ attr_lookup "id" (el_attrs e) = Some "input_siwp_captcha_id_0"
  /\ attr_lookup "name" (el_attrs e) = Some "scid".
Proof.
  unfold both, tag_is, has_id, attr_is. intros H.
  apply andb_prop in H as [Ht H]. apply andb_prop in H as [Hi Hn].
  apply String.eqb_eq in Ht.
  destruct (attr_lookup "id" (el_attrs e)) as [i|]; [| discriminate].
  destruct (attr_lookup "name" (el_attrs e)) as [m|]; [| discriminate].
  apply String.eqb_eq in Hi, Hn. now subst.
Qed.

(** X13. [extractSCID] of [server1.js] and the SCID lines of the unnamed variants
    read the same field: the first [input] with the id
    [input_siwp_captcha_id_0] and the name [scid]. They return its value
    when it has one that is not empty, and only then; they fail with a
    message of their own when the page has no such field, and with
    "SCID value is empty." when the first such field has no value, whatever
    fields follow it. *)
Theorem extractSCID_cases (lib : library) (html : string) :
  let inputs := select (cheerio_load lib html) Server1.scid_selector in
  (forall scid, Server1.extractSCID lib html = Return scid
                <-> Part000.extractSCID lib html = Return scid)
  /\ (forall scid, Server1.extractSCID lib html = Return scid
        <-> scid <> EmptyString
            /\ exists first rest, inputs = first :: rest
                                  /\ attr_of (snd first) "value" = Some scid)
  /\ (forall first rest, inputs = first :: rest ->
        el_tag (snd first) = "input"
        /\ attr_lookup "id" (el_attrs (snd first)) = Some "input_siwp_captcha_id_0"
        /\ attr_lookup "name" (el_attrs (snd first)) = Some "scid")
  /\ (inputs = [] ->
        Server1.extractSCID lib html = Throw (Error "SCID input field not found.")
        /\ Part000.extractSCID lib html
           = Throw (Error ("SCID input field (input#input_siwp_captcha_id_0[name="
                           +:+ dquote +:+ "scid" +:+ dquote +:+ "]) not found.")))
  /\ (forall first rest, inputs = first :: rest ->
        present (attr_of (snd first) "value") = false ->
        Server1.extractSCID lib html = Throw (Error "SCID value is empty.")
        /\ Part000.extractSCID lib html = Throw (Error "SCID value is empty.")).
Proof.
  intros inputs. subst inputs.
  unfold Server1.extractSCID, Part000.extractSCID.
  destruct (select (cheerio_load lib html) Server1.scid_selector) as [|first rest] eqn:E;
    cbn [length Nat.eqb attr].
  - split; [| split; [| split; [| split]]].
    + intros scid. split; discriminate.
    + intros scid. split; [discriminate |]. intros (_ & f & r & Hf & _). discriminate.
    + intros f r Hf. discriminate.
    + intros _. split; reflexivity.
    + intros f r Hf. discriminate.
  - pose proof (scid_input_attrs _ (matches_single _ _ (select_head_matches _ _ _ _ E)))
      as Hattrs.
    split; [| split; [| split; [| split]]].
    + intros scid. reflexivity.
    + intros scid. split.
      * intros H. destruct (attr_of (snd first) "value") as [v|] eqn:Ev; [| discriminate].
        destruct (is_empty v) eqn:Hv; [discriminate |].
        injection H as <-. split; [now apply is_empty_false |].
        exists first, rest. split; [reflexivity | exact Ev].
      * intros (Hne & f & r & Hf & Hval). injection Hf as <- <-. rewrite Hval.
        apply is_empty_false in Hne. now rewrite Hne.
    + intros f r Hf. injection Hf as <- <-. exact Hattrs.
    + discriminate.
    + intros f r Hf Hp. injection Hf as <- <-.
      destruct (attr_of (snd first) "value") as [v|]; [| split; reflexivity].
      simpl in Hp. apply negb_false_iff in Hp. rewrite Hp. split; reflexivity.
Qed.

(** X14. [extractCaptchaInfo] of [server.js] reads the first
    [img#siwp_captcha_image_0]: it returns the absolute URL of its [src] and
    the [id] parameter of that URL, which is never empty. An image without a
    [src] is reported like a missing image; a [src] without an [id]
    parameter has a message of its own; and a [src] the URL parser refuses
    makes the parser's error come out as it is. *)
Theorem extractCaptchaInfo_cases (lib : library) (html : string) :
  let images := select (cheerio_load lib html)
                  [both (tag_is "img") (has_id "siwp_captcha_image_0")] in
  let not_found := Error "CAPTCHA image element (img#siwp_captcha_image_0) not found." in
  let no_id := Error ("CAPTCHA image ID (" +:+ dquote +:+ "id" +:+ dquote
                      +:+ " param) not found in src.") in
  (forall info, Server.extractCaptchaInfo lib html = Return info
     <-> Server.imgId info <> EmptyString
         /\ exists first rest src,
              images = first :: rest
              /\ attr_lookup "src" (el_attrs (snd first)) = Some src
              /\ src <> EmptyString
              /\ url_href lib src INITIAL_PAGE_URL = Return (Server.imageUrl info)
              /\ url_search_get lib (Server.imageUrl info) "id"
                 = Some (Server.imgId info))
  /\ (images = [] -> Server.extractCaptchaInfo lib html = Throw not_found)
  /\ (forall first rest, images = first :: rest ->
        present (attr_lookup "src" (el_attrs (snd first))) = false ->
        Server.extractCaptchaInfo lib html = Throw not_found)
  /\ (forall first rest src absolute, images = first :: rest ->
        attr_lookup "src" (el_attrs (snd first)) = Some src -> src <> EmptyString ->
        url_href lib src INITIAL_PAGE_URL = Return absolute ->
        present (url_search_get lib absolute "id") = false ->
        Server.extractCaptchaInfo lib html = Throw no_id)
  /\ (forall first rest src e, images = first :: rest ->
        attr_lookup "src" (el_attrs (snd first)) = Some src -> src <> EmptyString ->
        url_href lib src INITIAL_PAGE_URL = Throw e ->
        Server.extractCaptchaInfo lib html = Throw e).
Proof.
  intros images not_found no_id. subst images not_found no_id.
  unfold Server.extractCaptchaInfo.
  destruct (select (cheerio_load lib html)
              [both (tag_is "img") (has_id "siwp_captcha_image_0")])
    as [|first rest] eqn:E; cbn [length Nat.ltb Nat.leb attr].
  - split; [| split; [| split; [| split]]].
    + intros info. split; [discriminate |].
      intros (_ & f & r & src & Hf & _). discriminate.
    + reflexivity.
    + intros f r Hf. discriminate.
    + intros f r src absolute Hf. discriminate.
    + intros f r src e Hf. discriminate.
  - rewrite (attr_of_plain (snd first) "src" eq_refl).
    split; [| split; [| split; [| split]]].
    + intros info. split.
      * intros H. destruct (attr_lookup "src" (el_attrs (snd first))) as [src|] eqn:Es;
          [| discriminate].
        destruct (is_empty src) eqn:Hs; [discriminate |]. simpl in H.
        destruct (url_href lib src INITIAL_PAGE_URL) as [absolute|] eqn:Hu; [| discriminate].
        destruct (url_search_get lib absolute "id") as [id|] eqn:Hi; [| discriminate].
        destruct (is_empty id) eqn:Hid; [discriminate |]. simpl in H.
        injection H as <-. simpl. split; [now apply is_empty_false |].
        exists first, rest, src. repeat split; try assumption. now apply is_empty_false.
      * intros (Hne & f & r & src & Hf & Hsrc & Hs & Hu & Hi).
        injection Hf as <- <-. rewrite Hsrc.
        apply is_empty_false in Hs, Hne. rewrite Hs. simpl. rewrite Hu, Hi, Hne. simpl.
        now destruct info.
    + discriminate.
    + intros f r Hf Hp. injection Hf as <- <-.
      destruct (attr_lookup "src" (el_attrs (snd first))) as [src|]; [| reflexivity].
      simpl in Hp. apply negb_false_iff in Hp. now rewrite Hp.
    + intros f r src absolute Hf Hsrc Hs Hu Hp. injection Hf as <- <-.
      rewrite Hsrc. apply is_empty_false in Hs. rewrite Hs. simpl. rewrite Hu.
      destruct (url_search_get lib absolute "id") as [id|]; [| reflexivity].
      simpl in Hp. apply negb_false_iff in Hp. now rewrite Hp.
    + intros f r src e Hf Hsrc Hs Hu. injection Hf as <- <-.
      rewrite Hsrc. apply is_empty_false in Hs. rewrite Hs. simpl. now rewrite Hu.
Qed.

End FieldsOfThePage.

(** ** The fetch helpers *)

Section FetchHelpers.
Import Str Js Effects Common Variants Footprint Samples Scenarios.

Lemma includes_unfold (p s : string) :
  includes p s
  = starts_with p s || match s with
                       | EmptyString => false
                       | String _ s' => includes p s'
                       end.
Proof. destruct s; reflexivity. Qed.

Lemma includes_here (p s : string) : includes p (p +:+ s) = true.
Proof. now rewrite includes_unfold, starts_with_append. Qed.

Lemma includes_later (p a s : string) : includes p s = true -> includes p (a +:+ s) = true.
Proof.
  intros H. induction a as [|c a IH]; [exact H |].
  simpl. rewrite IH. apply orb_true_r.
Qed.

Lemma includes_end (p : string) : includes p p = true.
Proof.
  rewrite <- (append_empty_r p) at 2. apply includes_here.
Qed.

Ltac helper_tac w :=
  intros n url st; unfold_M;
  cbn beta iota zeta delta [fst snd Effects.trace Effects.cache];
  destruct (fetch w n url) as [response | e] eqn:Ef;
  cbn beta iota zeta delta [fst snd Effects.trace Effects.cache];
  [ destruct (ok response) eqn:Eok;
    cbn beta iota zeta delta [fst snd Effects.trace Effects.cache negb];
    [ destruct (body response) as [content' | e] eqn:Eb | ]
  | ];
  cbn beta iota zeta delta [fst snd Effects.trace Effects.cache negb];
  try (destruct (String.eqb (err_name e) "AbortError"));
  (split; [reflexivity |]); (split; [reflexivity |]); split;
  try (intros content; split;
       [ intros H; first [discriminate H | injection H as <-; eauto]
       | intros (r & Hr & Hok & Hb); congruence ]);
  intros r Hr Hok; try congruence; injection Hr as <-;
  eexists; (split; [reflexivity |]);
  (split; [apply includes_later, includes_here | repeat apply includes_later; apply includes_end]).

(** X15. The six fetch helpers of the sources ([fetchHtml] and
    [fetchImageBuffer] of [server.js], of [server1.js] and of the unnamed
    variants) each send exactly one request per call, never a second one;
    they return the body exactly when the response has a 2xx status and its
    body can be read; and on any other status they throw an [Error] whose
    message names the status and the URL. *)
Theorem fetch_helpers_send_one_request (cfg : Server1.config) (w : world) :
  fetch_helper w (Server.fetchHtml w)
  /\ fetch_helper w (Server.fetchImageBuffer w)
  /\ fetch_helper w (Server1.fetchHtml cfg w)
  /\ fetch_helper w (Server1.fetchImageBuffer cfg w)
  /\ fetch_helper w (Part000.fetchHtml w)
  /\ fetch_helper w (Part000.fetchImageBuffer w).
Proof.
  unfold Server.fetchHtml, Server.fetchImageBuffer, Server1.fetchHtml,
    Server1.fetchImageBuffer, Part000.fetchHtml, Part000.fetchImageBuffer,
    Server1.on_abort.
  repeat apply conj; unfold fetch_helper.
  all: helper_tac w.
Qed.

End FetchHelpers.

Section Thrown.
Import Str Js Effects Common Variants Footprint.
Context {A : Type} (MAX_ATTEMPTS : nat) (delay : nat -> Float.number) (cycle : nat -> M A).

(** What the loop throws is the error of one of its attempts, or the error
    it was started with when it makes no attempt at all. *)
Lemma retry_loop_thrown remaining attempts e st x :
  snd (retry_loop MAX_ATTEMPTS delay cycle remaining attempts e st) = Throw x ->
  x = e \/ exists n st', snd (cycle n st') = Throw x.
Proof.
  revert attempts e st. induction remaining as [|r IH]; intros attempts e st H.
  - simpl in H. injection H as <-. now left.
  - destruct (snd (cycle (S attempts) st)) as [v | error] eqn:E.
    + rewrite (retry_loop_returns MAX_ATTEMPTS delay cycle r attempts e st v E) in H.
      discriminate H.
    + rewrite (retry_loop_fails MAX_ATTEMPTS delay cycle r attempts e st error E) in H.
      apply IH in H as [-> | H]; [| now right].
      right. eauto.
Qed.

End Thrown.

Section AbortedRequests.
Import Str Js Effects Common Variants Footprint Samples Scenarios.

Lemma extractToken_error_name lib message html e :
  Common.extractToken lib message html = Throw e -> err_name e = "Error".
Proof.
  unfold Common.extractToken.
  repeat match goal with
         | |- context [match ?x with _ => _ end] =>
             lazymatch x with
             | context [match _ with _ => _ end] => fail
             | _ => destruct x
             end
         end; intros H; try discriminate H; now injection H as <-.
Qed.

Lemma server1_extractSCID_error_name lib html e :
  Server1.extractSCID lib html = Throw e -> err_name e = "Error".
Proof.
  unfold Server1.extractSCID.
  repeat match goal with
         | |- context [match ?x with _ => _ end] =>
             lazymatch x with
             | context [match _ with _ => _ end] => fail
             | _ => destruct x
             end
         end; intros H; try discriminate H; now injection H as <-.
Qed.

Lemma read_prop_error_name v name e :
  read_prop v name = Throw e -> err_name e = "TypeError".
Proof.
  unfold read_prop. destruct v as [[]|]; intros H; try discriminate H;
    now injection H as <-.
Qed.

Lemma server1_cycle_no_abort cfg lib w d y n st e :
  snd (Server1.cycle cfg lib w d y n st) = Throw e ->
  String.eqb (err_name e) "AbortError" = false.
Proof.
  unfold Server1.cycle, Server1.fetchHtml, Server1.fetchImageBuffer,
    Server1.solveCaptchaWithGemini, Common.solveCaptchaWithGemini, Server1.on_abort.
  unfold_M. cbn beta iota zeta delta [fst snd Effects.trace Effects.cache].
  exec; intros H; try discriminate H; injection H as <-;
    first [reflexivity | assumption | idtac].
  all: match goal with
       | H : Server1.extractToken _ _ = Throw _ |- _ =>
           apply extractToken_error_name in H; rewrite H; reflexivity
       | H : Server1.extractSCID _ _ = Throw _ |- _ =>
           apply server1_extractSCID_error_name in H; rewrite H; reflexivity
       | H : read_prop _ _ = Throw _ |- _ =>
           apply read_prop_error_name in H; rewrite H; reflexivity
       end.
Qed.

(** X16. In [server1.js] an aborted request never surfaces as an [AbortError]:
    when [fetch], or the reading of the body, is aborted on its timeout, the
    helper throws an [Error] that names the configured timeout and the URL;
    every other error passes through the helper as it is; and whatever
    happens, the error a lookup ends with is not an [AbortError]. *)
Theorem server1_abort_becomes_timeout (cfg : Server1.config) (lib : library)
    (w : world) :
  (forall n url st e,
     fetch w n url = Throw e ->
     snd (Server1.fetchHtml cfg w n url st)
     = Throw (if String.eqb (err_name e) "AbortError"
              then Error ("Request timeout after " +:+ of_Z (Server1.REQUEST_TIMEOUT cfg)
                          +:+ "ms for " +:+ url)
              else e)
     /\ snd (Server1.fetchImageBuffer cfg w n url st)
        = Throw (if String.eqb (err_name e) "AbortError"
                 then Error ("Image request timeout after "
                             +:+ of_Z (Server1.REQUEST_TIMEOUT cfg) +:+ "ms for " +:+ url)
                 else e))
  /\ (forall n url st response e,
        fetch w n url = Return response -> ok response = true ->
        body response = Throw e ->
        snd (Server1.fetchHtml cfg w n url st)
        = Throw (if String.eqb (err_name e) "AbortError"
                 then Error ("Request timeout after " +:+ of_Z (Server1.REQUEST_TIMEOUT cfg)
                             +:+ "ms for " +:+ url)
                 else e))
  /\ (forall diaryNo year n st e,
        snd (Server1.cycle cfg lib w diaryNo year n st) = Throw e ->
        err_name e <> "AbortError")
  /\ (forall diaryNo year st e,
        snd (Server1.getCaseDetailsProcess cfg lib w diaryNo year st) = Throw e ->
        err_name e <> "AbortError").
Proof.
  split; [| split; [| split]].
  - intros n url st e He.
    unfold Server1.fetchHtml, Server1.fetchImageBuffer, Server1.on_abort. unfold_M.
    rewrite He. simpl. destruct (String.eqb (err_name e) "AbortError"); split; reflexivity.
  - intros n url st response e Hf Hok Hb.
    unfold Server1.fetchHtml, Server1.on_abort. unfold_M.
    rewrite Hf. simpl. rewrite Hok. simpl. rewrite Hb. simpl.
    destruct (String.eqb (err_name e) "AbortError"); reflexivity.
  - intros d y n st e H Hname. apply server1_cycle_no_abort in H.
    rewrite Hname in H. discriminate H.
  - intros d y st e.
    unfold Server1.getCaseDetailsProcess. unfold_M.
    destruct (NodeCache.get (date_now w 0 0) (Server1.cacheKey d y) (cache st))
      as [cachedData c']. simpl.
    destruct (truthy cachedData) eqn:Ht.
    + destruct cachedData; [discriminate | discriminate Ht].
    + unfold retry. intros H Hname.
      apply retry_loop_thrown in H as [-> | (n & st' & H)]; [discriminate Hname |].
      apply server1_cycle_no_abort in H. rewrite Hname in H. discriminate H.
Qed.

End AbortedRequests.

(** ** The replies *)

Section ReplyInvariants.
Import Str Js Effects Common Variants Footprint Samples Scenarios Replies.

Ltac reply_done :=
  try exact I;
  cbn [code success has_data has_error is_some
       Server.code Server.success Server.data Server.error
       Server1.code Server1.success Server1.data Server1.error
       Part000.code Part000.success Part000.data Part000.error
       Part001.code Part001.success Part001.data Part001.error];
  repeat split; intros; try reflexivity; try discriminate; try congruence;
  auto 6.

Lemma summary_of_reply (v : variant) (lib : library) (w : world) body st :
  match Variants.post_case_details v lib w body st with
  | (st', Return _) => exists s, Replies.post_case_details v lib w body st = (st', Return s)
  | (st', Throw e) => Replies.post_case_details v lib w body st = (st', Throw e)
  end.
Proof.
  destruct v as [|cfg| |]; cbn [Variants.post_case_details Replies.post_case_details];
    unfold_M.
  - destruct (Server.post_case_details lib w body st) as [st' [r | e]]; eauto.
  - destruct (Server1.post_case_details cfg lib w body st) as [st' [r | e]]; eauto.
  - destruct (Part000.post_case_details lib w body st) as [st' [r | e]]; eauto.
  - destruct (Part001.post_case_details lib w body st) as [st' [r | e]]; eauto.
Qed.

Lemma reply_shape (v : variant) (lib : library) (w : world) body st :
  match snd (Replies.post_case_details v lib w body st) with
  | Return s =>
      (success s = true <-> code s = 200)
      /\ (has_data s = true <-> code s = 200)
      /\ (has_error s = true <-> code s <> 200)
      /\ (code s = 200 \/ code s = 400 \/ code s = 422 \/ code s = 500)
      /\ (code s = 422 -> v = Part001Js)
  | Throw _ => True
  end.
Proof.
  destruct v as [|cfg| |];
    unfold Replies.post_case_details, Server.post_case_details,
      Server1.post_case_details, Part000.post_case_details, Part001.post_case_details,
      Part001.respond;
    unfold_M; cbn beta iota zeta delta [fst snd Effects.trace Effects.cache];
    exec; reply_done.
Qed.

(** X17. A request whose body is a JSON object is answered by [server.js]
    always, and by the other three
    variants exactly when its [diaryData] has a text form: when it is an
    object with a property named [toString], or an array that holds one, the
    [TypeError] of the line written before the validation leaves the
    handler, and nothing is sent or done. The status of a reply is 200,
    400, 422 or 500, and 422 only in [part_001]. The reply says
    [success: true] exactly when the status is 200; it carries [data]
    exactly when the status is 200, and [error] exactly when it is not. *)
Theorem reply_invariants (v : variant) (lib : library) (w : world)
    (body : list (string * json)) (st : state) :
  (if escapes v (field "diaryData" body)
   then Replies.post_case_details v lib w body st
        = (st, Throw (TypeError "Cannot convert object to primitive value"))
   else exists s st', Replies.post_case_details v lib w body st = (st', Return s))
  /\ (escapes v (field "diaryData" body) = true
      <-> v <> ServerJs
          /\ exists j, field "diaryData" body = Some j /\ no_text j = true)
  /\ (forall j,
        no_text j = true
        <-> ToString j = Throw (TypeError "Cannot convert object to primitive value"))
  /\ (forall j, no_text j = false <-> exists text, ToString j = Return text)
  /\ (forall s st',
        Replies.post_case_details v lib w body st = (st', Return s) ->
        (success s = true <-> code s = 200)
        /\ (has_data s = true <-> code s = 200)
        /\ (has_error s = true <-> code s <> 200)
        /\ (code s = 200 \/ code s = 400 \/ code s = 422 \/ code s = 500)
        /\ (code s = 422 -> v = Part001Js))
  /\ snd (Replies.post_case_details ServerJs lib w body_untold st)
     = Return (mkSummary 400 false false true)
  /\ Replies.post_case_details Part001Js lib w body_untold st
     = (st, Throw (TypeError "Cannot convert object to primitive value")).
Proof.
  split; [| split; [| split; [| split; [| repeat apply conj; try reflexivity]]]].
  - pose proof (endpoint_outcome v lib w body st) as H.
    pose proof (summary_of_reply v lib w body st) as Hs.
    destruct (escapes v (field "diaryData" body)).
    + rewrite H in Hs. exact Hs.
    + destruct H as (code & time & st' & H). rewrite H in Hs.
      destruct Hs as [s Hs]. eauto.
  - unfold escapes. split.
    + intros H. destruct v; try discriminate H;
        (split; [discriminate |]);
        (destruct (field "diaryData" body) as [j|]; [eauto | discriminate H]).
    + intros (Hv & j & -> & Hj). destruct v; [congruence | exact Hj ..].
  - intros j. pose proof (ToString_cases j) as H. destruct (no_text j).
    + split; [intros _; exact H | reflexivity].
    + destruct H as [text H]. rewrite H. split; discriminate.
  - intros j. pose proof (ToString_cases j) as H. destruct (no_text j).
    + rewrite H. split; [discriminate | intros [text Ht]; discriminate Ht].
    + split; [intros _; exact H | reflexivity].
  - intros s st' H. pose proof (reply_shape v lib w body st) as Hshape.
    rewrite H in Hshape. exact Hshape.
Qed.

End ReplyInvariants.

Section ErrorMessage.
Import Str Js Effects Common Variants Samples Scenarios.

Lemma or_value_truthy (a b : Js.value) :
  truthy b = true -> truthy (Part001.or_value a b) = true.
Proof. intros H. unfold Part001.or_value. now destruct (truthy a) eqn:E. Qed.

(** X18. The error message of a failure the source reports is never missing
    or empty: it is [data.message] of the envelope when that is truthy, else
    [data.html] when that is truthy, else the fixed text
    "Failed to retrieve details: Source reported an error.". [part_001]
    logs it before it answers: when the message has a text form, the answer
    is 422 with this message as [error]; when it has none, the log line
    throws and the answer is 500 with the message of that [TypeError]. *)
Theorem part001_error_message (sourceResponse : Js.value) :
  let data := prop sourceResponse "data" in
  let fallback := JStr "Failed to retrieve details: Source reported an error." in
  truthy (Some (Part001.errorMessage sourceResponse)) = true
  /\ (truthy (prop data "message") = true ->
      Some (Part001.errorMessage sourceResponse) = prop data "message")
  /\ (truthy (prop data "message") = false -> truthy (prop data "html") = true ->
      Some (Part001.errorMessage sourceResponse) = prop data "html")
  /\ (truthy (prop data "message") = false -> truthy (prop data "html") = false ->
      Part001.errorMessage sourceResponse = fallback)
  /\ (forall lib w st,
        sourceResponse <> None ->
        prop sourceResponse "success" = Some (JBool false) ->
        if no_text (Part001.errorMessage sourceResponse)
        then Part001.respond lib w sourceResponse st
             = (st, Throw (TypeError "Cannot convert object to primitive value"))
        else exists r, Part001.respond lib w sourceResponse st = (st, Return r)
                       /\ Part001.code r = 422
                       /\ Part001.error r = Some (Part001.errorMessage sourceResponse))
  /\ (forall lib w body d y st envelope,
        sourceResponse = Some envelope ->
        validate (field "diaryData" body) = Valid d y ->
        snd (Part001.getCaseDetailsProcess lib w d y st) = Return envelope ->
        prop sourceResponse "success" = Some (JBool false) ->
        exists r,
          snd (Part001.post_case_details lib w body st) = Return r
          /\ if no_text (Part001.errorMessage sourceResponse)
             then Part001.code r = 500
                  /\ Part001.error r
                     = Some (JStr ("Failed to retrieve case details: "
                                   +:+ "Cannot convert object to primitive value"))
             else Part001.code r = 422
                  /\ Part001.error r = Some (Part001.errorMessage sourceResponse))
  /\ (let run := Part001.post_case_details (lib_with results_one)
                   (world_with (answers envelope_untold)) (body_of "2444/2023") start in
      snd (Part001.getCaseDetailsProcess (lib_with results_one)
             (world_with (answers envelope_untold)) "2444" "2023" start)
      = Return envelope_untold
      /\ exists r, snd run = Return r /\ Part001.code r = 500
                   /\ Part001.error r
                      = Some (JStr "Failed to retrieve case details: Cannot convert object to primitive value")).
Proof.
  cbv zeta.
  split; [| split; [| split; [| split; [| split; [| split]]]]].
  - unfold Part001.errorMessage, Part001.or_value.
    destruct (truthy (prop sourceResponse "data")) eqn:Hd.
    + destruct (truthy (prop (prop sourceResponse "data") "message")) eqn:Hm.
      * rewrite Hm. now destruct (prop (prop sourceResponse "data") "message").
      * destruct (truthy (prop (prop sourceResponse "data") "html")) eqn:Hh;
          [| reflexivity].
        now destruct (prop (prop sourceResponse "data") "html").
    + rewrite Hd. reflexivity.
  - unfold Part001.errorMessage, Part001.or_value. intros Hm.
    assert (truthy (prop sourceResponse "data") = true) as Hd.
    { destruct (prop sourceResponse "data") as [[]|]; try reflexivity;
        simpl in Hm; discriminate. }
    rewrite Hd, Hm, Hm. now destruct (prop (prop sourceResponse "data") "message").
  - unfold Part001.errorMessage, Part001.or_value. intros Hm Hh.
    assert (truthy (prop sourceResponse "data") = true) as Hd.
    { destruct (prop sourceResponse "data") as [[]|]; try reflexivity;
        simpl in Hh; discriminate. }
    rewrite Hd, Hm, Hh. now destruct (prop (prop sourceResponse "data") "html").
  - unfold Part001.errorMessage, Part001.or_value. intros Hm Hh.
    destruct (truthy (prop sourceResponse "data")) eqn:Hd.
    + now rewrite Hm, Hh.
    + now rewrite Hd.
  - intros lib w st Hsome Hs. unfold Part001.respond.
    destruct sourceResponse as [envelope|]; [| congruence].
    destruct (resultsHtml_of_failed envelope Hs) as [-> ->].
    pose proof (ToString_cases (Part001.errorMessage (Some envelope))) as Hm.
    unfold_M. cbn [template].
    destruct (no_text (Part001.errorMessage (Some envelope))).
    + rewrite Hm. reflexivity.
    + destruct Hm as [text ->]. eexists. repeat split.
  - intros lib w body d y st envelope -> Hvalid Hrun Hs.
    destruct (part001_valid lib w body d y st Hvalid) as (r & Hr & _ & Hc).
    exists r. rewrite Hr. split; [reflexivity |].
    rewrite Hrun in Hc. destruct (resultsHtml_of_failed envelope Hs) as [Hn Hf].
    rewrite Hn, Hf in Hc.
    pose proof (ToString_cases (Part001.errorMessage (Some envelope))) as Hm.
    cbn [template] in Hc.
    destruct (no_text (Part001.errorMessage (Some envelope))).
    + rewrite Hm in Hc. destruct Hc as (H1 & _ & H2). split; [exact H1 | exact H2].
    + destruct Hm as [text Hm]. rewrite Hm in Hc.
      destruct Hc as (H1 & _ & H2). split; [exact H1 | exact H2].
  - split; [vm_compute; reflexivity |].
    eexists. split; [vm_compute; reflexivity |]. split; reflexivity.
Qed.

End ErrorMessage.

Section NoAttempt.
Import Str Js Effects Common Variants Samples Scenarios.

(** X19. With [MAX_ATTEMPTS] set to zero or less, [server1.js] makes no attempt:
    a lookup the cache cannot serve fails at once with "Process not
    attempted.", nothing is sent, and the endpoint answers 500 with that
    message. *)
Theorem server1_no_attempt_allowed (cfg : Server1.config) (lib : library) (w : world)
    (body : list (string * json)) (diaryNo year : string) (st : state) :
  Server1.MAX_ATTEMPTS cfg <= 0 ->
  validate (field "diaryData" body) = Valid diaryNo year ->
  truthy (fst (NodeCache.get (date_now w 0 0) (Server1.cacheKey diaryNo year) (cache st)))
  = false ->
  snd (Server1.getCaseDetailsProcess cfg lib w diaryNo year st)
  = Throw (Error "Process not attempted.")
  /\ trace (fst (Server1.getCaseDetailsProcess cfg lib w diaryNo year st)) = trace st
  /\ exists r st',
       Server1.post_case_details cfg lib w body st = (st', Return r)
       /\ trace st' = trace st
       /\ Server1.code r = 500
       /\ Server1.error r
          = Some "Failed to retrieve case details: Process not attempted.".
Proof.
  intros Hmax Hvalid Hmiss.
  assert (Server1.getCaseDetailsProcess cfg lib w diaryNo year st
          = (mkState (trace st)
               (snd (NodeCache.get (date_now w 0 0) (Server1.cacheKey diaryNo year)
                       (cache st))),
             Throw (Error "Process not attempted."))) as Hrun.
  { unfold Server1.getCaseDetailsProcess. unfold_M.
    destruct (NodeCache.get (date_now w 0 0) (Server1.cacheKey diaryNo year) (cache st))
      as [cachedData c']. simpl in *. rewrite Hmiss.
    replace (Z.to_nat (Server1.MAX_ATTEMPTS cfg)) with 0%nat by lia. reflexivity. }
  rewrite Hrun. split; [reflexivity |]. split; [reflexivity |].
  unfold Server1.post_case_details.
  rewrite Hvalid, (requestIdentifier_valid w _ _ _ Hvalid). unfold_M. rewrite Hrun. simpl.
  eexists _, _. repeat split.
Qed.

Lemma server1_no_attempt_allowed_witness :
  let cfg := Server1.mkConfig 0 3600 30000 in
  let lib := lib_with results_one in
  let w := world_with (answers envelope_ok) in
  snd (Server1.getCaseDetailsProcess cfg lib w "2444" "2023" start)
  = Throw (Error "Process not attempted.")
  /\ trace (fst (Server1.getCaseDetailsProcess cfg lib w "2444" "2023" start))
     = trace start
  /\ exists r st',
       Server1.post_case_details cfg lib w (body_of "2444/2023") start = (st', Return r)
       /\ trace st' = trace start
       /\ Server1.code r = 500
       /\ Server1.error r
          = Some "Failed to retrieve case details: Process not attempted.".
Proof.
  apply (server1_no_attempt_allowed (Server1.mkConfig 0 3600 30000) (lib_with results_one)
           (world_with (answers envelope_ok)) (body_of "2444/2023") "2444" "2023" start).
  - simpl. lia.
  - reflexivity.
  - reflexivity.
Defined.

End NoAttempt.

(** ** The URLs of an attempt *)

Section Urls.
Import Str URLSearchParams Js Effects Common Variants Samples Scenarios.

Lemma encode_char_digit (c : ascii) :
  is_digit c = true -> encode_char c = String c EmptyString.
Proof. destruct c as [[] [] [] [] [] [] [] []]; vm_compute; congruence. Qed.

Lemma encode_digits (s : string) : all is_digit s = true -> encode s = s.
Proof.
  induction s as [|c s IH]; simpl; [reflexivity |]. intros H.
  apply andb_prop in H as [Hc Hs]. now rewrite (encode_char_digit c Hc), (IH Hs).
Qed.

Lemma encode_signed_int (m : string) : Spec.signed_int m -> encode m = m.
Proof.
  intros (d & _ & Hd & [-> | ->]); [now apply encode_digits |].
  simpl. f_equal. now apply encode_digits.
Qed.

Lemma cleanedAnswer_signed (text answer : string) :
  cleanedAnswer text = Some answer -> Spec.signed_int answer.
Proof.
  intros H. apply cleanedAnswer_first in H as (k & (pre & post & _ & _ & Hs) & _).
  exact Hs.
Qed.

(** X20. The diary number and the year the validator accepts, and the answer
    read from the oracle's reply, need no escaping: they appear in the URL
    of the search request as they are, so the URL is
    [...admin-ajax.php?diary_no=<diaryNo>&year=<year>&scid=...&<token>&siwp_captcha_value=<answer>&es_ajax_request=1&submit=Search&action=get_case_status_diary_no&language=en]. *)
Theorem final_url_of_accepted_input (diaryData : Js.value) (diaryNo year scid : string)
    (tok : token) (text answer : string) :
  validate diaryData = Valid diaryNo year ->
  cleanedAnswer text = Some answer ->
  buildFinalUrl diaryNo year scid tok answer
  = AJAX_URL_BASE +:+ "?diary_no=" +:+ diaryNo +:+ "&year=" +:+ year
    +:+ "&scid=" +:+ encode scid
    +:+ "&" +:+ encode (name tok) +:+ "=" +:+ encode (value tok)
    +:+ "&siwp_captcha_value=" +:+ answer
    +:+ "&es_ajax_request=1&submit=Search&action=get_case_status_diary_no&language=en".
Proof.
  intros Hv Ha. apply validate_valid in Hv as (_ & _ & Hd & _ & Hy).
  apply cleanedAnswer_signed, encode_signed_int in Ha.
  unfold buildFinalUrl, finalParams, URLSearchParams.append, URLSearchParams.empty,
    toString, encode_pair.
  cbn [app map join fst snd].
  rewrite (encode_digits _ Hd), (encode_digits _ Hy), Ha.
  change (encode "diary_no") with "diary_no".
  change (encode "year") with "year".
  change (encode "scid") with "scid".
  change (encode "siwp_captcha_value") with "siwp_captcha_value".
  change (encode "es_ajax_request") with "es_ajax_request".
  change (encode "1") with "1".
  change (encode "submit") with "submit".
  change (encode "Search") with "Search".
  change (encode "action") with "action".
  change (encode "get_case_status_diary_no") with "get_case_status_diary_no".
  change (encode "language") with "language".
  change (encode "en") with "en".
  rewrite !append_assoc. reflexivity.
Qed.

Lemma final_url_of_accepted_input_witness :
  buildFinalUrl "2444" "2023" "a b" (mkToken "tok_abc" "x&y") "-3"
  = AJAX_URL_BASE +:+ "?diary_no=" +:+ "2444" +:+ "&year=" +:+ "2023"
    +:+ "&scid=" +:+ encode "a b"
    +:+ "&" +:+ encode "tok_abc" +:+ "=" +:+ encode "x&y"
    +:+ "&siwp_captcha_value=" +:+ "-3"
    +:+ "&es_ajax_request=1&submit=Search&action=get_case_status_diary_no&language=en".
Proof.
  apply (final_url_of_accepted_input (Some (JStr "2444/2023")) "2444" "2023" "a b"
           (mkToken "tok_abc" "x&y") "It is -3." "-3"); reflexivity.
Defined.

(** X21. The URLs an attempt builds carry their parameters faithfully, whatever
    characters these hold: the SCID and the time stamp can be read back
    from the URL of the image, the time stamp from the URL of the page, and
    two search requests have the same URL only when they are built from the
    same diary number, year, SCID, token and answer. *)
Theorem attempt_urls_carry_their_parameters :
  (forall scid now,
     parse (query_of (Server1.captchaImageUrl scid now))
     = [("_siwp_captcha", EmptyString); ("id", scid); ("ts", of_Z now)])
  /\ (forall now,
        parse (query_of (Server1.initialPageUrlWithCacheBuster now)) = [("_", of_Z now)])
  /\ (forall scid scid' now now',
        Server1.captchaImageUrl scid now = Server1.captchaImageUrl scid' now' ->
        scid = scid')
  /\ (forall d y scid tok answer d' y' scid' tok' answer',
        buildFinalUrl d y scid tok answer = buildFinalUrl d' y' scid' tok' answer' ->
        d = d' /\ y = y' /\ scid = scid' /\ tok = tok' /\ answer = answer').
Proof.
  assert (forall scid now,
            parse (query_of (Server1.captchaImageUrl scid now))
            = [("_siwp_captcha", EmptyString); ("id", scid); ("ts", of_Z now)]) as Himg.
  { intros scid now. unfold Server1.captchaImageUrl.
    change (query_of (CAPTCHA_IMAGE_BASE_URL +:+ "?" +:+ ?q)) with q.
    apply parse_toString. }
  split; [exact Himg |]. split; [| split].
  - intros now. unfold Server1.initialPageUrlWithCacheBuster.
    change (query_of (INITIAL_PAGE_URL +:+ "?" +:+ ?q)) with q.
    apply parse_toString.
  - intros scid scid' now now' H.
    apply (f_equal (fun url => parse (query_of url))) in H.
    rewrite !Himg in H. now injection H.
  - intros d y scid tok answer d' y' scid' tok' answer' H.
    apply (f_equal (fun url => parse (query_of url))) in H.
    rewrite !query_of_buildFinalUrl, !parse_toString in H.
    unfold finalParams, URLSearchParams.append, URLSearchParams.empty in H.
    simpl in H. injection H as -> -> -> Hn Hv ->.
    destruct tok, tok'. simpl in *. now subst.
Qed.

End Urls.

Section ReturnedTrace.
Import Str Js Effects Common Variants Footprint.
Context {A : Type} (MAX_ATTEMPTS : nat) (delay : nat -> Float.number) (cycle : nat -> M A).

Hypothesis cycle_extends : forall n st,
  exists evs, trace (fst (cycle n st)) = trace st ++ evs.

(** The attempt that returns starts from a trace that extends the one the
    loop started from. *)
Lemma retry_loop_returned_from remaining attempts e st v :
  snd (retry_loop MAX_ATTEMPTS delay cycle remaining attempts e st) = Return v ->
  exists n st' before,
    (attempts < n <= attempts + remaining)%nat
    /\ cycle n st' = (fst (retry_loop MAX_ATTEMPTS delay cycle remaining attempts e st),
                      Return v)
    /\ trace st' = trace st ++ before.
Proof.
  revert attempts e st. induction remaining as [|r IH]; intros attempts e st H.
  - discriminate H.
  - destruct (snd (cycle (S attempts) st)) as [v' | error] eqn:E.
    + rewrite (retry_loop_returns MAX_ATTEMPTS delay cycle r attempts e st v' E) in *.
      simpl in H. injection H as ->.
      exists (S attempts), st, []. split; [lia |]. split; [| now rewrite app_nil_r].
      rewrite <- E. now destruct (cycle (S attempts) st).
    + rewrite (retry_loop_fails MAX_ATTEMPTS delay cycle r attempts e st error E) in *.
      apply IH in H as (n & st' & before & Hn & Hc & Htr).
      destruct (cycle_extends (S attempts) st) as [evs Hevs].
      rewrite trace_after_failure, Hevs, <- !app_assoc in Htr.
      exists n, st'. eexists. split; [lia |]. split; [exact Hc | exact Htr].
Qed.

End ReturnedTrace.

Section ExpiredEntries.
Import Str Js Effects Common Variants Footprint Samples Scenarios.

(** X22. An entry of the cache of [server1.js] that has expired is never served:
    the lookup drops it and runs the retry loop from there, so whatever the
    lookup returns, one of its attempts has fetched. *)
Theorem server1_expired_entry_not_served (cfg : Server1.config) (lib : library)
    (w : world) (diaryNo year : string) (st : state) (v : json) (expiry : Z) :
  cache st !! Server1.cacheKey diaryNo year = Some (v, expiry) ->
  expiry <> 0 -> expiry < date_now w 0 0 ->
  let key := Server1.cacheKey diaryNo year in
  let run := Server1.getCaseDetailsProcess cfg lib w diaryNo year st in
  run = retry (Z.to_nat (Server1.MAX_ATTEMPTS cfg)) (backoff w)
          (Server1.cycle cfg lib w diaryNo year)
          (mkState (trace st) (delete key (cache st)))
  /\ (forall result, snd run = Return result ->
        exists n st',
          (1 <= n <= Z.to_nat (Server1.MAX_ATTEMPTS cfg))%nat
          /\ snd (Server1.cycle cfg lib w diaryNo year n st') = Return result
          /\ (3 <= fetches (trace (fst run)) - fetches (trace st))%nat).
Proof.
  intros Hentry Hne Hexp key run. subst key run.
  assert (Server1.getCaseDetailsProcess cfg lib w diaryNo year st
          = retry (Z.to_nat (Server1.MAX_ATTEMPTS cfg)) (backoff w)
              (Server1.cycle cfg lib w diaryNo year)
              (mkState (trace st) (delete (Server1.cacheKey diaryNo year) (cache st))))
    as Hrun.
  { unfold Server1.getCaseDetailsProcess. unfold_M.
    assert (NodeCache.get (date_now w 0 0) (Server1.cacheKey diaryNo year) (cache st)
            = (None, delete (Server1.cacheKey diaryNo year) (cache st))) as ->.
    { unfold NodeCache.get, NodeCache.live.
      change (cache st !! Server1.cacheKey diaryNo year) with
        (@lookup _ _ NodeCache.t _ (Server1.cacheKey diaryNo year) (cache st)) in Hentry.
      rewrite Hentry. simpl.
      apply Z.eqb_neq in Hne. rewrite Hne. simpl.
      assert (Z.leb (date_now w 0 0) expiry = false) as -> by (apply Z.leb_gt; lia).
      reflexivity. }
    reflexivity. }
  split; [exact Hrun |].
  intros result H. rewrite Hrun in *. unfold retry in *.
  apply retry_loop_returned_from in H as (n & st' & before & Hn & Hc & Htr).
  - exists n, st'. split; [lia |]. split; [now rewrite Hc |].
    destruct (attempt_events_of lib w (Server1Js cfg) diaryNo year n st')
      as (evs & He & Hshape & Hret).
    simpl in He, Hret. rewrite Hc in He, Hret. simpl in He.
    specialize (Hret result eq_refl).
    rewrite He, Htr. simpl. rewrite !fetches_app.
    assert (fetches evs = 3%nat); [| lia].
    unfold attempt_events in Hshape.
    destruct evs as [|[] [|[] [|[] [|[] [|? ?]]]]]; simpl in *; try discriminate;
      rewrite ?andb_false_r in Hshape; try discriminate; reflexivity.
  - intros k s. destruct (attempt_events_of lib w (Server1Js cfg) diaryNo year k s)
      as (evs & He & _). eauto.
Qed.

(** An entry stored long ago is dropped, and the lookup fetches again. *)
Lemma server1_expired_entry_not_served_witness :
  let st := initial {[ "2444/2023" := (JStr "old", 5) ]} in
  let key := Server1.cacheKey "2444" "2023" in
  let run := Server1.getCaseDetailsProcess Server1.default_config (lib_with results_one)
               (world_with (answers envelope_ok)) "2444" "2023" st in
  run = retry (Z.to_nat (Server1.MAX_ATTEMPTS Server1.default_config))
          (backoff (world_with (answers envelope_ok)))
          (Server1.cycle Server1.default_config (lib_with results_one)
             (world_with (answers envelope_ok)) "2444" "2023")
          (mkState (trace st) (delete key (cache st)))
  /\ (forall result, snd run = Return result ->
        exists n st',
          (1 <= n <= Z.to_nat (Server1.MAX_ATTEMPTS Server1.default_config))%nat
          /\ snd (Server1.cycle Server1.default_config (lib_with results_one)
                    (world_with (answers envelope_ok)) "2444" "2023" n st')
             = Return result
          /\ (3 <= fetches (trace (fst run)) - fetches (trace st))%nat).
Proof.
  apply (server1_expired_entry_not_served Server1.default_config (lib_with results_one)
           (world_with (answers envelope_ok)) "2444" "2023"
           (initial {[ "2444/2023" := (JStr "old", 5) ]}) (JStr "old") 5).
  - reflexivity.
  - discriminate.
  - simpl. lia.
Defined.

End ExpiredEntries.

Section ElapsedTime.
Import Str Js Effects Common Float Footprint.
Local Open Scope Q_scope.

Lemma nearest_even_error (q : Q) : Qabs (inject_Z (nearest_even q) - q) <= 1 # 2.
Proof.
  pose proof (Qfloor_le q) as H1. pose proof (Qlt_floor q) as H2.
  rewrite inject_Z_plus in H2. change (inject_Z 1) with 1 in H2.
  unfold nearest_even.
  destruct (Qcompare_spec (q - inject_Z (Qfloor q)) (1 # 2)) as [E | L | G].
  - destruct (Z.even (Qfloor q)); [| rewrite inject_Z_plus; change (inject_Z 1) with 1];
      apply Qabs_Qle_condition; split; lra.
  - apply Qabs_Qle_condition; split; lra.
  - rewrite inject_Z_plus. change (inject_Z 1) with 1.
    apply Qabs_Qle_condition; split; lra.
Qed.

(** Rounding moves a number by half a unit of its last place at most. *)
Lemma round_error (x : Q) : 0 <= x -> Qabs (round x - x) <= 2 ^ last_place x * (1 # 2).
Proof.
  intros Hx. destruct (Qle_lt_or_eq _ _ Hx) as [H | H].
  - rewrite round_of_pos by exact H. unfold round_pos.
    set (c := last_place x). pose proof (two_pos c) as Hc.
    pose proof (nearest_even_error (x / 2 ^ c)) as He.
    assert (inject_Z (nearest_even (x / 2 ^ c)) * 2 ^ c - x
            == (inject_Z (nearest_even (x / 2 ^ c)) - x / 2 ^ c) * 2 ^ c) as ->.
    { field. apply Qpower_not_0. exact two_nonzero. }
    rewrite Qabs_Qmult, (Qabs_pos (2 ^ c)) by now apply Qlt_le_weak.
    rewrite (Qmult_comm (2 ^ c)). apply Qmult_le_compat_r; [exact He | now apply Qlt_le_weak].
  - rewrite round_of_zero by (now symmetry).
    assert (0 - x == 0) as -> by (rewrite <- H; reflexivity).
    simpl Qabs. apply Qmult_le_0_compat; [apply Qlt_le_weak, two_pos | discriminate].
Qed.

Lemma last_place_below (x : Q) (e : Z) :
  0 < x -> x < 2 ^ e -> (-1021 <= e)%Z -> (last_place x <= e - 53)%Z.
Proof.
  intros Hx Hlt He. destruct (ilog2_spec x Hx) as [Hl _].
  assert (ilog2 x < e)%Z.
  { apply Qpower_lt_compat_l_inv with 2; [| reflexivity]. now apply Qle_lt_trans with x. }
  unfold last_place. lia.
Qed.

Lemma round_error_below (x : Q) (e : Z) :
  0 <= x -> x < 2 ^ e -> (-1021 <= e)%Z -> Qabs (round x - x) <= 2 ^ (e - 54).
Proof.
  intros Hx Hlt He. destruct (Qle_lt_or_eq _ _ Hx) as [H | H].
  - apply Qle_trans with (2 ^ last_place x * (1 # 2)); [now apply round_error |].
    assert (2 ^ (e - 54) == 2 ^ (e - 53) * (1 # 2)) as ->.
    { replace (e - 54)%Z with (e - 53 + - 1)%Z by lia.
      rewrite Qpower_plus by exact two_nonzero. reflexivity. }
    apply Qmult_le_compat_r; [| discriminate].
    apply two_le. now apply last_place_below.
  - rewrite round_of_zero by (now symmetry).
    assert (0 - x == 0) as -> by (rewrite <- H; reflexivity).
    simpl Qabs. apply Qlt_le_weak, two_pos.
Qed.

(** [toFixed(2)] *)

Lemma toFixed2_eq (x : Q) :
  0 <= x -> x < 10 ^ 21 -> toFixed2 x == inject_Z (Qfloor (x * 100 + (1 # 2))) / 100.
Proof.
  intros H0 H1. unfold toFixed2.
  assert (Qle_bool (10 ^ 21) (Qabs x) = false) as ->.
  { destruct (Qle_bool (10 ^ 21) (Qabs x)) eqn:E; [| reflexivity].
    apply Qle_bool_iff in E. rewrite Qabs_pos in E by exact H0.
    exfalso. apply (Qlt_irrefl x). now apply Qlt_le_trans with (10 ^ 21). }
  rewrite Qred_correct.
  destruct (Qcompare_spec x 0) as [E | L | G]; try reflexivity.
  exfalso. apply (Qlt_irrefl x). now apply Qlt_le_trans with 0.
Qed.

Lemma toFixed2_between (x : Q) (lo hi : Z) :
  0 <= x -> x < 10 ^ 21 -> inject_Z lo <= x * 100 -> x * 100 <= inject_Z hi ->
  inject_Z lo / 100 <= toFixed2 x /\ toFixed2 x <= inject_Z hi / 100.
Proof.
  intros H0 H1 Hlo Hhi. rewrite toFixed2_eq by assumption.
  assert (lo <= Qfloor (x * 100 + (1 # 2)) <= hi)%Z as [Ha Hb].
  { split.
    - rewrite <- (Qfloor_Z lo). apply Qfloor_resp_le. lra.
    - assert (Qfloor (x * 100 + (1 # 2)) + 1 <= hi + 1)%Z; [| lia].
      apply floor_below. rewrite inject_Z_plus. change (inject_Z 1) with 1. lra. }
  rewrite Zle_Qle in Ha, Hb. split.
  - apply Qmult_le_compat_r; [exact Ha | discriminate].
  - apply Qmult_le_compat_r; [exact Hb | discriminate].
Qed.

Lemma toFixed2_mono (x y : Q) :
  0 <= x -> x <= y -> y < 10 ^ 21 -> toFixed2 x <= toFixed2 y.
Proof.
  intros H0 Hxy H1.
  rewrite !toFixed2_eq; try assumption; try lra.
  apply Qmult_le_compat_r; [| discriminate].
  rewrite <- Zle_Qle. apply Qfloor_resp_le. lra.
Qed.

Lemma toFixed2_error (x : Q) :
  0 <= x -> x < 10 ^ 21 -> Qabs (toFixed2 x - x) <= 1 # 200.
Proof.
  intros H0 H1. rewrite toFixed2_eq by assumption.
  pose proof (Qfloor_le (x * 100 + (1 # 2))) as Ha.
  pose proof (Qlt_floor (x * 100 + (1 # 2))) as Hb.
  rewrite inject_Z_plus in Hb. change (inject_Z 1) with 1 in Hb.
  set (f := inject_Z (Qfloor (x * 100 + (1 # 2)))) in *.
  apply Qabs_Qle_condition. split.
  - apply Qle_minus_iff.
    assert (f / 100 - x + - - (1 # 200) == (f - (x * 100 + (1 # 2)) + 1) / 100) as ->
      by field.
    apply Qle_shift_div_l; [reflexivity |]. lra.
  - apply Qle_minus_iff.
    assert ((1 # 200) + - (f / 100 - x) == (x * 100 + (1 # 2) - f) / 100) as -> by field.
    apply Qle_shift_div_l; [reflexivity |]. lra.
Qed.

(** The elapsed time *)

Lemma elapsed_parts (s ns : Z) :
  clock_reading s ns ->
  round (inject_Z s * 1000) == inject_Z (s * 1000)
  /\ 0 <= round (inject_Z ns / 1000000) /\ round (inject_Z ns / 1000000) <= 1000.
Proof.
  intros (Hs & Hns & Hmax). split.
  - rewrite (round_comp (inject_Z s * 1000) (inject_Z (s * 1000))).
    + apply round_int. lia.
    + apply Qmult_le_0_compat; [| discriminate].
      change 0 with (inject_Z 0). rewrite <- Zle_Qle. exact Hs.
    + rewrite inject_Z_mult. reflexivity.
  - assert (0 <= inject_Z ns / 1000000) as H0.
    { apply Qle_shift_div_l; [reflexivity |]. rewrite Qmult_0_l.
      change 0 with (inject_Z 0). rewrite <- Zle_Qle. lia. }
    assert (inject_Z ns / 1000000 <= 1000) as H1.
    { apply Qle_shift_div_r; [reflexivity |].
      change (1000 * 1000000) with (inject_Z 1000000000). rewrite <- Zle_Qle. lia. }
    destruct (round_between 0 1000 (inject_Z ns / 1000000)) as [Ha Hb];
      try assumption; try apply Qle_refl.
    + now apply round_of_zero.
    + apply (round_int 1000). simpl. lia.
    + split; assumption.
Qed.

Lemma elapsed_sum (s ns : Z) :
  clock_reading s ns ->
  let x := round (round (inject_Z s * 1000) + round (inject_Z ns / 1000000)) in
  inject_Z (s * 1000) <= x /\ x <= inject_Z ((s + 1) * 1000).
Proof.
  intros Hr. destruct (elapsed_parts s ns Hr) as (Ha & Hb0 & Hb1).
  destruct Hr as (Hs & Hns & Hmax). cbv zeta.
  apply round_between.
  - change 0 with (inject_Z 0). rewrite <- Zle_Qle. lia.
  - apply round_int. lia.
  - apply round_int. lia.
  - rewrite Ha. lra.
  - rewrite Ha. replace ((s + 1) * 1000)%Z with (s * 1000 + 1000)%Z by lia.
    rewrite inject_Z_plus. change (inject_Z 1000) with 1000. lra.
Qed.

Lemma below_limit (k : Z) : (k < 2 ^ 53)%Z -> inject_Z k < 10 ^ 21.
Proof.
  intros H. change (10 ^ 21) with (inject_Z (10 ^ 21)). rewrite <- Zlt_Qlt.
  apply Z.lt_trans with (2 ^ 53)%Z; [exact H | reflexivity].
Qed.

Lemma elapsed_bounds (s ns : Z) :
  clock_reading s ns ->
  inject_Z (s * 1000) <= calculateTimeTaken (s, ns)
  /\ calculateTimeTaken (s, ns) <= inject_Z ((s + 1) * 1000).
Proof.
  intros Hr. destruct (elapsed_sum s ns Hr) as [Hlo Hhi]. cbv zeta in *.
  destruct Hr as (Hs & Hns & Hmax).
  unfold calculateTimeTaken. cbn [fst snd].
  set (x := round (round (inject_Z s * 1000) + round (inject_Z ns / 1000000))) in *.
  assert (0 <= inject_Z (s * 1000)) as H0
    by (change 0 with (inject_Z 0); rewrite <- Zle_Qle; lia).
  destruct (toFixed2_between x (s * 1000 * 100) ((s + 1) * 1000 * 100)) as [Ha Hb].
  - lra.
  - apply Qle_lt_trans with (inject_Z ((s + 1) * 1000)); [exact Hhi |].
    now apply below_limit.
  - rewrite inject_Z_mult. change (inject_Z 100) with 100. lra.
  - rewrite inject_Z_mult. change (inject_Z 100) with 100. lra.
  - rewrite inject_Z_mult in Ha, Hb. change (inject_Z 100) with 100 in Ha, Hb.
    split.
    + apply Qle_trans with (inject_Z (s * 1000) * 100 / 100); [| exact Ha].
      apply Qle_shift_div_l; [reflexivity | apply Qle_refl].
    + apply Qle_trans with (inject_Z ((s + 1) * 1000) * 100 / 100); [exact Hb |].
      apply Qle_shift_div_r; [reflexivity | apply Qle_refl].
Qed.

Lemma elapsed_hundredths (s ns : Z) :
  clock_reading s ns -> exists k : Z, calculateTimeTaken (s, ns) == inject_Z k / 100.
Proof.
  intros Hr. destruct (elapsed_sum s ns Hr) as [Hlo Hhi]. cbv zeta in *.
  destruct Hr as (Hs & Hns & Hmax).
  unfold calculateTimeTaken. cbn [fst snd].
  eexists. apply toFixed2_eq.
  - apply Qle_trans with (inject_Z (s * 1000)); [| exact Hlo].
    change 0 with (inject_Z 0). rewrite <- Zle_Qle. lia.
  - apply Qle_lt_trans with (inject_Z ((s + 1) * 1000)); [exact Hhi |].
    now apply below_limit.
Qed.

Lemma elapsed_mono (s ns s' ns' : Z) :
  clock_reading s ns -> clock_reading s' ns' ->
  (s * 1000000000 + ns <= s' * 1000000000 + ns')%Z ->
  calculateTimeTaken (s, ns) <= calculateTimeTaken (s', ns').
Proof.
  intros Hr Hr' Hle.
  destruct (elapsed_sum s ns Hr) as [Hlo Hhi].
  destruct (elapsed_sum s' ns' Hr') as [Hlo' Hhi']. cbv zeta in *.
  destruct (elapsed_parts s ns Hr) as (Ha & Hb0 & Hb1).
  destruct (elapsed_parts s' ns' Hr') as (Ha' & Hb0' & Hb1').
  pose proof Hr as (Hs & Hns & Hmax). pose proof Hr' as (Hs' & Hns' & Hmax').
  assert (0 <= inject_Z (s * 1000)) as H0
    by (change 0 with (inject_Z 0); rewrite <- Zle_Qle; lia).
  unfold calculateTimeTaken. cbn [fst snd].
  apply toFixed2_mono.
  - lra.
  - destruct (Z.eq_dec s s') as [<- | Hne].
    + apply round_mono; [rewrite Ha; lra |].
      apply Qplus_le_r. apply round_mono.
      * apply Qle_shift_div_l; [reflexivity |]. rewrite Qmult_0_l.
        change 0 with (inject_Z 0). rewrite <- Zle_Qle. lia.
      * apply Qmult_le_compat_r; [| discriminate]. rewrite <- Zle_Qle. lia.
    + apply Qle_trans with (inject_Z ((s + 1) * 1000)); [exact Hhi |].
      apply Qle_trans with (inject_Z (s' * 1000)); [| exact Hlo'].
      rewrite <- Zle_Qle. lia.
  - apply Qle_lt_trans with (inject_Z ((s' + 1) * 1000)); [exact Hhi' |].
    now apply below_limit.
Qed.


(** Up to [2^45] milliseconds, some eleven centuries, the result is within
    a hundredth of a millisecond of the time that has passed. *)
Lemma elapsed_error (s ns : Z) :
  clock_reading s ns -> ((s + 1) * 1000 <= 2 ^ 45)%Z ->
  Qabs (calculateTimeTaken (s, ns) - (inject_Z (s * 1000) + inject_Z ns / 1000000))
  <= 1 # 100.
Proof.
  intros Hr Hsmall.
  destruct (elapsed_sum s ns Hr) as [Hlo Hhi]. cbv zeta in *.
  destruct (elapsed_parts s ns Hr) as (Ha & Hb0 & Hb1).
  pose proof Hr as (Hs & Hns & Hmax).
  assert (0 <= inject_Z (s * 1000)) as H0
    by (change 0 with (inject_Z 0); rewrite <- Zle_Qle; lia).
  assert (inject_Z ((s + 1) * 1000) <= inject_Z (2 ^ 45)) as Hcap
    by (rewrite <- Zle_Qle; exact Hsmall).
  replace ((s + 1) * 1000)%Z with (s * 1000 + 1000)%Z in * by lia.
  rewrite inject_Z_plus in Hhi, Hcap. change (inject_Z 1000) with 1000 in Hhi, Hcap.
  assert (0 <= inject_Z ns / 1000000) as HB0.
  { apply Qle_shift_div_l; [reflexivity |]. rewrite Qmult_0_l.
    change 0 with (inject_Z 0). rewrite <- Zle_Qle. lia. }
  assert (inject_Z ns / 1000000 < 2 ^ 10) as HB1.
  { apply Qlt_shift_div_r; [reflexivity |].
    change (2 ^ 10 * 1000000) with (inject_Z 1024000000). rewrite <- Zlt_Qlt. lia. }
  pose proof (round_error_below _ 10 HB0 HB1 ltac:(lia)) as E1.
  set (B := inject_Z ns / 1000000) in *. set (b := round B) in *.
  set (a := round (inject_Z s * 1000)) in *.
  assert (0 <= a + b) as Hab0 by (rewrite Ha; lra).
  assert (a + b < 2 ^ 46) as Hab1.
  { apply Qle_lt_trans with (inject_Z (2 ^ 45)); [rewrite Ha; lra | reflexivity]. }
  pose proof (round_error_below _ 46 Hab0 Hab1 ltac:(lia)) as E2.
  set (x := round (a + b)) in *.
  assert (0 <= x) as Hx0 by lra.
  assert (x < 10 ^ 21) as Hx1.
  { apply Qle_lt_trans with (inject_Z (2 ^ 45)); [lra | reflexivity]. }
  pose proof (toFixed2_error x Hx0 Hx1) as E3.
  unfold calculateTimeTaken. cbn [fst snd]. fold B b a x.
  apply Qabs_Qle_condition in E1, E2, E3. apply Qabs_Qle_condition.
  change (2 ^ (10 - 54)) with (1 # 17592186044416) in E1.
  change (2 ^ (46 - 54)) with (1 # 256) in E2.
  rewrite Ha in E2. split; lra.
Qed.


(** X23. [calculateTimeTaken] gives the elapsed time in milliseconds, in two
    decimals: for a reading of [s] seconds and [ns] nanoseconds of
    [process.hrtime] it is a whole number of hundredths, between [1000 s]
    and [1000 (s + 1)], both included; it does not decrease when the time
    that has passed grows; and it is within a hundredth of a millisecond of
    the time that has passed when that is below [2^45] milliseconds. The
    readings [2 s 999999999 ns], [1 s 500000000 ns] and [0 s 1234567 ns]
    give 3000, 1500 and 1.23. *)
Theorem elapsed_milliseconds :
  (forall s ns,
     clock_reading s ns ->
     (exists k : Z, calculateTimeTaken (s, ns) == inject_Z k / 100)
     /\ inject_Z (s * 1000) <= calculateTimeTaken (s, ns)
     /\ calculateTimeTaken (s, ns) <= inject_Z ((s + 1) * 1000))
  /\ (forall s ns s' ns',
        clock_reading s ns -> clock_reading s' ns' ->
        (s * 1000000000 + ns <= s' * 1000000000 + ns')%Z ->
        calculateTimeTaken (s, ns) <= calculateTimeTaken (s', ns'))
  /\ (forall s ns,
        clock_reading s ns -> ((s + 1) * 1000 <= 2 ^ 45)%Z ->
        Qabs (calculateTimeTaken (s, ns)
              - (inject_Z (s * 1000) + inject_Z ns / 1000000)) <= 1 # 100)
  /\ calculateTimeTaken (2, 999999999)%Z = 3000
  /\ calculateTimeTaken (1, 500000000)%Z = 1500
  /\ calculateTimeTaken (0, 1234567)%Z = 123 # 100
  /\ clock_reading 2 999999999.
Proof.
  split; [| split; [| split]].
  - intros s ns Hr. split; [now apply elapsed_hundredths | now apply elapsed_bounds].
  - exact elapsed_mono.
  - exact elapsed_error.
  - repeat apply conj; try (vm_compute; reflexivity); vm_compute; intuition congruence.
Qed.

End ElapsedTime.

(** ** The registration date of a case *)

Section RegisteredOn.
Import Str Regex Dom Normal.

Lemma starts_with_ci_split (p s : string) :
  starts_with_by ascii_eqb_ci p s = true ->
  s = take (String.length p) s +:+ drop (String.length p) s
  /\ lower_string (take (String.length p) s) = lower_string p.
Proof.
  revert s. induction p as [|a p IH]; intros s; simpl; [now split |].
  destruct s as [|b s]; [discriminate |]. intros H.
  apply andb_prop in H as [Hc Hs]. destruct (IH s Hs) as [H1 H2].
  unfold ascii_eqb_ci in Hc. apply Ascii.eqb_eq in Hc.
  simpl. split; [now rewrite <- H1 | now rewrite H2, Hc].
Qed.

Lemma starts_with_ci_append (p lit r : string) :
  lower_string lit = lower_string p ->
  starts_with_by ascii_eqb_ci p (lit +:+ r) = true
  /\ take (String.length p) (lit +:+ r) = lit
  /\ drop (String.length p) (lit +:+ r) = r.
Proof.
  revert lit. induction p as [|a p IH]; intros lit; simpl.
  - destruct lit; [now repeat split | discriminate].
  - destruct lit as [|b lit]; [discriminate |]. simpl. intros H.
    injection H as Hc Hl. destruct (IH lit Hl) as (H1 & H2 & H3).
    rewrite H1, H2, H3. unfold ascii_eqb_ci. rewrite Hc, Ascii.eqb_refl. now repeat split.
Qed.

Lemma digits_exactly_prefix (n : nat) (s d r : string) :
  digits_exactly n s = Some (d, r) -> s = d +:+ r.
Proof.
  revert s d r. induction n as [|n IH]; intros s d r; simpl.
  - intros H. now injection H as <- <-.
  - destruct s as [|c s]; [discriminate |].
    destruct (is_digit c); [| discriminate].
    destruct (digits_exactly n s) as [[d' r']|] eqn:E; [| discriminate].
    intros H. injection H as <- <-. simpl. now rewrite (IH _ _ _ E).
Qed.

Lemma expect_prefix (c : ascii) (s r : string) : expect c s = Some r -> s = String c r.
Proof.
  destruct s as [|d s]; simpl; [discriminate |].
  destruct (Ascii.eqb c d) eqn:E; [| discriminate].
  apply Ascii.eqb_eq in E. intros H. injection H as <-. now subst.
Qed.

Lemma date_at_prefix (s date rest : string) :
  date_at s = Some (date, rest) -> s = date +:+ rest.
Proof.
  unfold date_at.
  destruct (digits_exactly 2 s) as [[d r1]|] eqn:E1; [| discriminate].
  destruct (expect "-" r1) as [r2|] eqn:X1; [| discriminate].
  destruct (digits_exactly 2 r2) as [[m r3]|] eqn:E2; [| discriminate].
  destruct (expect "-" r3) as [r4|] eqn:X2; [| discriminate].
  destruct (digits_exactly 4 r4) as [[y r5]|] eqn:E3; [| discriminate].
  intros H. injection H as <- <-.
  apply digits_exactly_prefix in E1, E2, E3. apply expect_prefix in X1, X2. subst.
  rewrite !append_assoc. simpl. rewrite !append_assoc. reflexivity.
Qed.

Lemma date_at_complete (date rest : string) :
  date_shaped date = true -> date_at (date +:+ rest) = Some (date, rest).
Proof.
  unfold date_shaped. intros H.
  destruct date as [|d1 [|d2 [|h1 [|m1 [|m2 [|h2 [|y1 [|y2 [|y3 [|y4 [|? ?]]]]]]]]]]];
    try discriminate.
  simpl in H.
  destruct (is_digit d1) eqn:D1, (is_digit d2) eqn:D2, (Ascii.eqb h1 "-") eqn:X1,
    (is_digit m1) eqn:M1, (is_digit m2) eqn:M2, (Ascii.eqb h2 "-") eqn:X2,
    (is_digit y1) eqn:Y1, (is_digit y2) eqn:Y2, (is_digit y3) eqn:Y3,
    (is_digit y4) eqn:Y4; try discriminate H.
  apply Ascii.eqb_eq in X1, X2. subst h1 h2.
  unfold date_at. simpl. rewrite D1, D2. simpl. rewrite M1, M2. simpl.
  now rewrite Y1, Y2, Y3, Y4.
Qed.

Lemma digit_not_space (c : ascii) : is_digit c = true -> is_space c = false.
Proof. destruct c as [[] [] [] [] [] [] [] []]; vm_compute; congruence. Qed.

Lemma date_shaped_head (date : string) :
  date_shaped date = true -> head_space date = false.
Proof.
  destruct date as [|c [|c2 s]]; try reflexivity; try discriminate.
  unfold date_shaped. simpl. intros H.
  destruct (is_digit c) eqn:D; [now apply digit_not_space |].
  rewrite !andb_false_r in H. simpl in H. rewrite ?andb_false_r in H. discriminate H.
Qed.

Lemma take_while_gap (gap s : string) :
  all is_space gap = true -> head_space s = false ->
  take_while is_space (gap +:+ s) = gap /\ drop_while is_space (gap +:+ s) = s.
Proof.
  intros Hg Hs. induction gap as [|c gap IH]; simpl.
  - destruct s as [|d s]; simpl; [now split |]. simpl in Hs. now rewrite Hs.
  - simpl in Hg. apply andb_prop in Hg as [Hc Hg]. rewrite Hc.
    destruct (IH Hg) as [-> ->]. now split.
Qed.

(** A match at the head of the text is found there. *)
Lemma registered_on_at_complete (lit gap date post : string) :
  registered_on lit gap date ->
  registered_on_at (lit +:+ gap +:+ date +:+ post)
  = Some (lit +:+ gap +:+ date, date).
Proof.
  intros (Hl & Hg & Hd). unfold registered_on_at.
  destruct (starts_with_ci_append "Registered on" lit (gap +:+ date +:+ post))
    as (H1 & H2 & H3); [exact Hl |].
  rewrite H1, H2, H3.
  destruct (take_while_gap gap (date +:+ post) Hg) as [-> ->].
  { destruct date as [|c s]; [discriminate |].
    apply date_shaped_head in Hd. exact Hd. }
  now rewrite (date_at_complete _ _ Hd).
Qed.

(** What is found at the head of the text is a match. *)
Lemma registered_on_at_sound (s whole date : string) :
  registered_on_at s = Some (whole, date) ->
  exists lit gap post,
    s = lit +:+ gap +:+ date +:+ post /\ whole = lit +:+ gap +:+ date
    /\ registered_on lit gap date.
Proof.
  unfold registered_on_at.
  destruct (starts_with_by ascii_eqb_ci "Registered on" s) eqn:Hs; [| discriminate].
  destruct (date_at _) as [[date' rest]|] eqn:Hd; [| discriminate].
  intros H. injection H as <- <-.
  apply starts_with_ci_split in Hs as [Hs Hl].
  pose proof (date_at_shaped _ _ _ Hd) as Hshape.
  apply date_at_prefix in Hd.
  exists (take (String.length "Registered on") s),
    (take_while is_space (drop (String.length "Registered on") s)), rest.
  split; [| split; [reflexivity |]].
  - rewrite <- Hd, take_drop_while. exact Hs.
  - split; [exact Hl |]. split; [apply all_take_while | exact Hshape].
Qed.

End RegisteredOn.

Section RegisteredOnTheorems.
Import Str Regex Dom Normal.

Lemma starts_with_split (p s : string) :
  starts_with p s = true -> s = p +:+ drop (String.length p) s.
Proof.
  unfold starts_with. revert s. induction p as [|a p IH]; intros s; simpl; [reflexivity |].
  destruct s as [|b s]; [discriminate |]. intros H.
  apply andb_prop in H as [Hc Hs]. apply Ascii.eqb_eq in Hc. subst b.
  simpl. now rewrite <- (IH s Hs).
Qed.

Lemma drop_append (p s : string) : drop (String.length p) (p +:+ s) = s.
Proof. induction p as [|a p IH]; simpl; [reflexivity | exact IH]. Qed.

Lemma remove_first_here (p s : string) : remove_first p (p +:+ s) = s.
Proof.
  destruct (p +:+ s) as [|c r] eqn:E.
  - destruct p; [| discriminate]. simpl in E. subst s. reflexivity.
  - simpl. rewrite <- E. fold (starts_with p (p +:+ s)).
    now rewrite starts_with_append, drop_append.
Qed.

Lemma remove_first_later (p : string) (c : ascii) (s : string) :
  starts_with p (String c s) = false ->
  remove_first p (String c s) = String c (remove_first p s).
Proof. intros H. simpl. fold (starts_with p (String c s)). now rewrite H. Qed.

(** The leftmost match: where it is, and what is left of the text when it
    is cut out. *)
Lemma match_registered_on_sound (text whole date : string) :
  match_registered_on text = Some (whole, date) ->
  exists pre lit gap post,
    text = pre +:+ lit +:+ gap +:+ date +:+ post
    /\ whole = lit +:+ gap +:+ date
    /\ registered_on lit gap date
    /\ remove_first whole text = pre +:+ post
    /\ (forall pre' lit' gap' date' post',
          text = pre' +:+ lit' +:+ gap' +:+ date' +:+ post' ->
          registered_on lit' gap' date' ->
          (String.length pre <= String.length pre')%nat).
Proof.
  induction text as [|c s IH].
  - simpl. unfold registered_on_at. simpl. discriminate.
  - cbn [match_registered_on].
    destruct (registered_on_at (String c s)) as [[w d]|] eqn:E.
    + intros H. injection H as <- <-.
      apply registered_on_at_sound in E as (lit & gap & post & Hs & Hw & Hr).
      rewrite Hs, Hw.
      exists EmptyString, lit, gap, post.
      split; [reflexivity |]. split; [reflexivity |]. split; [exact Hr |].
      split; [| intros; simpl; lia].
      assert (lit +:+ gap +:+ d +:+ post = (lit +:+ gap +:+ d) +:+ post) as ->
        by now rewrite !append_assoc.
      apply remove_first_here.
    + intros H.
      destruct (IH H) as (pre & lit & gap & post & Hs & Hw & Hr & Hrem & Hleft).
      exists (String c pre), lit, gap, post.
      split; [simpl; now rewrite <- Hs |]. split; [exact Hw |]. split; [exact Hr |].
      split.
      * rewrite remove_first_later; [now rewrite Hrem |].
        destruct (starts_with whole (String c s)) eqn:Hst; [| reflexivity].
        apply starts_with_split in Hst.
        rewrite Hst, Hw in E.
        rewrite !append_assoc, (registered_on_at_complete lit gap date _ Hr) in E.
        discriminate E.
      * intros pre' lit' gap' date' post' Hs' Hr'.
        destruct pre' as [|c' pre'].
        -- simpl in Hs'. rewrite Hs', (registered_on_at_complete _ _ _ _ Hr') in E.
           discriminate E.
        -- simpl in Hs'. injection Hs' as _ Hs'.
           specialize (Hleft pre' lit' gap' date' post' Hs' Hr'). simpl. lia.
Qed.

Lemma match_registered_on_complete (pre lit gap date post : string) :
  registered_on lit gap date ->
  exists whole date',
    match_registered_on (pre +:+ lit +:+ gap +:+ date +:+ post) = Some (whole, date').
Proof.
  intros Hr. induction pre as [|c pre IH].
  - simpl. pose proof (registered_on_at_complete lit gap date post Hr) as H.
    destruct (lit +:+ gap +:+ date +:+ post) as [|x r] eqn:E.
    + unfold registered_on_at in H. simpl in H. discriminate H.
    + cbn [match_registered_on]. rewrite H. eauto.
  - simpl. cbn [match_registered_on].
    destruct (registered_on_at _) as [[w d]|]; [eauto | exact IH].
Qed.

Lemma date_shaped_not_empty (date : string) : date_shaped date = true -> date <> EmptyString.
Proof. intros H ->. discriminate H. Qed.

(** X24. The registration date of a case. [splitCaseInfo] finds a date exactly
    when the text of the cell holds the words "Registered on" (in any
    case), white space or none, and a date DD-MM-YYYY. It then takes the
    leftmost such place: the date is the one found there, and the case
    number is what is left of the text when that place is cut out, with its
    white space normalised. *)
Theorem registered_on_found (text : string) :
  (snd (Part001.splitCaseInfo text) <> EmptyString
   <-> exists pre lit gap date post,
         text = pre +:+ lit +:+ gap +:+ date +:+ post /\ registered_on lit gap date)
  /\ (snd (Part001.splitCaseInfo text) <> EmptyString ->
      exists pre lit gap post,
        text = pre +:+ lit +:+ gap +:+ snd (Part001.splitCaseInfo text) +:+ post
        /\ registered_on lit gap (snd (Part001.splitCaseInfo text))
        /\ fst (Part001.splitCaseInfo text) = trim (collapse_spaces (pre +:+ post))
        /\ forall pre' lit' gap' date' post',
             text = pre' +:+ lit' +:+ gap' +:+ date' +:+ post' ->
             registered_on lit' gap' date' ->
             (String.length pre <= String.length pre')%nat).
Proof.
  unfold Part001.splitCaseInfo.
  destruct (match_registered_on text) as [[whole date]|] eqn:E; simpl.
  - pose proof (match_registered_on_shaped _ _ _ E) as Hshape.
    destruct (match_registered_on_sound _ _ _ E)
      as (pre & lit & gap & post & Hs & Hw & Hr & Hrem & Hleft).
    split.
    + split; [| intros _; now apply date_shaped_not_empty].
      intros _. exists pre, lit, gap, date, post. now split.
    + intros _. exists pre, lit, gap, post.
      split; [exact Hs |]. split; [exact Hr |]. split; [now rewrite Hrem |]. exact Hleft.
  - split; [| congruence]. split; [congruence |].
    intros (pre & lit & gap & date & post & -> & Hr).
    destruct (match_registered_on_complete pre lit gap date post Hr) as (w & d & H).
    congruence.
Qed.

End RegisteredOnTheorems.

(** ** The link to the details of a case *)

Section ViewLinks.
Import Str Dom Js Effects Common Samples.

(** X25. A link the URL parser refuses. In [server.js] it makes
    [parseCaseDetailsFromHtml] throw the parser's error, whatever the row
    holds, so the attempt fails; in [part_001] the link is kept as it is
    written and the row is parsed. A link the parser accepts is returned in
    its absolute form by both, and a row without a link gives no link. *)
Theorem view_link_resolution (lib : library) :
  (forall doc row rest,
     select doc Server.rows_selector = row :: rest ->
     let link :=
       attr (find_all [row]
               [both (tag_is "td") (nth_child 7);
                both (tag_is "a") (has_class "viewCnrDetails")]) "href" in
     (forall href e,
        link = Some href -> href <> EmptyString ->
        url_href lib href INITIAL_PAGE_URL = Throw e ->
        Server.parseCaseDetailsFromDocument lib doc = Throw e)
     /\ (forall href absolute r,
           link = Some href -> href <> EmptyString ->
           url_href lib href INITIAL_PAGE_URL = Return absolute ->
           Server.parseCaseDetailsFromDocument lib doc = Return r ->
           Server.actionViewLink r = Some absolute)
     /\ (forall r,
           present link = false ->
           Server.parseCaseDetailsFromDocument lib doc = Return r ->
           Server.actionViewLink r = None))
  /\ (forall cell,
        let anchors := find cell [both (tag_is "a") (has_class "viewCnrDetails")] in
        (forall href e,
           attr anchors "href" = Some href -> href <> EmptyString ->
           url_href lib href CAPTCHA_IMAGE_BASE_URL = Throw e ->
           Part001.viewLink lib cell = href)
        /\ (forall href absolute,
              attr anchors "href" = Some href -> href <> EmptyString ->
              url_href lib href CAPTCHA_IMAGE_BASE_URL = Return absolute ->
              Part001.viewLink lib cell = absolute)
        /\ (present (attr anchors "href") = false ->
            Part001.viewLink lib cell = EmptyString)).
Proof.
  split.
  - intros doc row rest Hrows link.
    unfold Server.parseCaseDetailsFromDocument. rewrite Hrows.
    cbn [first length Nat.ltb Nat.leb]. fold link.
    split; [| split].
    + intros href e Hl Hne Hu. rewrite Hl. simpl.
      apply is_empty_false in Hne. rewrite Hne. simpl. now rewrite Hu.
    + intros href absolute r Hl Hne Hu. rewrite Hl. simpl.
      apply is_empty_false in Hne. rewrite Hne. simpl. rewrite Hu.
      destruct (negb _); [| discriminate]. intros H. now injection H as <-.
    + intros r Hp. rewrite Hp.
      destruct (negb _); [| discriminate]. intros H. now injection H as <-.
  - intros cell anchors. unfold Part001.viewLink. fold anchors.
    split; [| split].
    + intros href e Hl Hne Hu.
      destruct anchors as [|a rest]; [discriminate |].
      cbn [length Nat.ltb Nat.leb]. rewrite Hl.
      apply is_empty_false in Hne. rewrite Hne. simpl. now rewrite Hu.
    + intros href absolute Hl Hne Hu.
      destruct anchors as [|a rest]; [discriminate |].
      cbn [length Nat.ltb Nat.leb]. rewrite Hl.
      apply is_empty_false in Hne. rewrite Hne. simpl. now rewrite Hu.
    + intros Hp. destruct anchors as [|a rest]; [reflexivity |].
      cbn [length Nat.ltb Nat.leb].
      destruct (attr (a :: rest) "href") as [href|]; [| reflexivity].
      simpl in Hp. apply negb_false_iff in Hp. now rewrite Hp.
Qed.

End ViewLinks.

(** ** What the pass-through endpoint hands on *)

Section PassThrough.
Import Str URLSearchParams Js Effects Common Variants Samples Scenarios.

(** X26. The [data] of a 200 reply of [part_000] is the JSON body the search
    endpoint sent, with a 2xx status, in answer to a request of one of the
    three attempts: a request built for the diary number and the year of
    this very [diaryData], for the SCID and the token read from the page
    that attempt fetched, and for the signed integer found in what the
    oracle replied to the image that attempt fetched for that SCID. *)
Theorem part000_reply_is_upstream_body (lib : library) (w : world)
    (body : list (string * json)) (st : state) (reply : Part000.reply) (v : json) :
  snd (Part000.post_case_details lib w body st) = Return reply ->
  Part000.data reply = Some v ->
  exists diaryNo year n page html scid tok imageResponse image text answer response,
    field "diaryData" body = Some (JStr (diaryNo +:+ "/" +:+ year))
    /\ (1 <= n <= Part000.MAX_ATTEMPTS)%nat
    /\ fetch w n (Server1.initialPageUrlWithCacheBuster (date_now w n 0)) = Return page
    /\ Effects.body page = Return html
    /\ Part000.extractSCID lib html = Return scid
    /\ Part000.extractToken lib html = Return tok
    /\ fetch w n (Server1.captchaImageUrl scid (date_now w n 1)) = Return imageResponse
    /\ Effects.body imageResponse = Return image
    /\ generateContent w n image = Return text
    /\ cleanedAnswer text = Some answer
    /\ fetch w n (buildFinalUrl diaryNo year scid tok answer) = Return response
    /\ ok response = true
    /\ body_json response = Return v
    /\ Part000.code reply = 200.
Proof.
  unfold Part000.post_case_details. unfold_M.
  destruct (Part000.callStart w (field "diaryData" body)) as [line | e0];
    [| simpl; discriminate].
  destruct (validate (field "diaryData" body)) as [message | d y] eqn:Ev.
  - simpl. intros H. injection H as <-. discriminate.
  - apply validate_valid in Ev as (Hbody & _).
    destruct (Part000.getCaseDetailsProcess lib w d y st) as [st1 [x | e]] eqn:Er;
      simpl; intros H; injection H as <-; simpl; intros Hd; [| discriminate Hd].
    injection Hd as <-.
    apply (f_equal snd) in Er. simpl in Er.
    unfold Part000.getCaseDetailsProcess, retry in Er.
    apply retry_loop_returned in Er as (n & st2 & Hn & Hc).
    apply (f_equal snd) in Hc. simpl in Hc.
    apply part000_attempt_returned in Hc
      as (page & html & scid & tok & imageResponse & image & text & answer & ajaxResponse
          & Hp & _ & Hh & Hs & Ht & Hi & _ & Hib & Hg & Ha & Hf & Hok & Hj & _).
    exists d, y, n, page, html, scid, tok, imageResponse, image, text, answer, ajaxResponse.
    repeat apply conj; try assumption; try reflexivity; lia.
Qed.

(** The envelope of a successful search comes back as it was sent. *)
Lemma part000_reply_is_upstream_body_witness :
  exists diaryNo year n page html scid tok imageResponse image text answer response,
    field "diaryData" (body_of "2444/2023") = Some (JStr (diaryNo +:+ "/" +:+ year))
    /\ (1 <= n <= Part000.MAX_ATTEMPTS)%nat
    /\ fetch (world_with (answers envelope_ok)) n
         (Server1.initialPageUrlWithCacheBuster
            (date_now (world_with (answers envelope_ok)) n 0)) = Return page
    /\ Effects.body page = Return html
    /\ Part000.extractSCID (lib_with results_one) html = Return scid
    /\ Part000.extractToken (lib_with results_one) html = Return tok
    /\ fetch (world_with (answers envelope_ok)) n
         (Server1.captchaImageUrl scid
            (date_now (world_with (answers envelope_ok)) n 1)) = Return imageResponse
    /\ Effects.body imageResponse = Return image
    /\ generateContent (world_with (answers envelope_ok)) n image = Return text
    /\ cleanedAnswer text = Some answer
    /\ fetch (world_with (answers envelope_ok)) n
         (buildFinalUrl diaryNo year scid tok answer) = Return response
    /\ ok response = true
    /\ body_json response = Return envelope_ok
    /\ Part000.code
         (Part000.mkReply 200 true (Some envelope_ok) None
            (calculateTimeTaken (hrtime (world_with (answers envelope_ok))))) = 200.
Proof.
  apply (part000_reply_is_upstream_body (lib_with results_one)
           (world_with (answers envelope_ok)) (body_of "2444/2023") start
           (Part000.mkReply 200 true (Some envelope_ok) None
              (calculateTimeTaken (hrtime (world_with (answers envelope_ok)))))
           envelope_ok); reflexivity.
Defined.

End PassThrough.
